(** * Kickstart storage commands of pyanaconda/kickstart.py

    A shallow embedding of the storage part of [pyanaconda/kickstart.py]:
    the device resolver [deviceMatches], [lookupAlias], the escrow
    certificate cache, the sub-item handlers [PartitionData.execute],
    [RaidData.execute], [VolGroupData.execute], [LogVolData.execute] and
    [BTRFSData.execute], the list-bearing commands that drive them, and the
    orchestrator [doKickstartStorage].

    Python objects that the handlers mutate (the [storage] object, its
    device tree, [ksdata.onPart]) are one explicit [World], threaded
    through a state-and-exception monad: a handler that raises keeps the
    mutations it made before raising, as in Python.  The storage engine
    (blivet), udev, NetworkManager and urlgrabber are not part of the
    repository: their decisions are the fields of the [Engine] class, and
    the effect of the engine calls the handlers make on the device tree is
    modelled below, each such definition saying so. *)

From Stdlib Require Import ZArith QArith Ascii String HexString.
From stdpp Require Import base option list strings gmap pretty.

(** ** Python values *)

(** Truth value of a Python string: the empty string (and [None], which
    pykickstart never stores in the string fields used here) is false. *)
Definition truthy (s : string) : bool := negb (String.eqb s "").

(** Truth value of a Python number ([None] and [0] are both false; the
    numeric request fields are modelled as [Z] with [0] for "not given"). *)
Definition truthyZ (z : Z) : bool := negb (z =? 0)%Z.

(** [s.startswith(p)] *)
Definition startswith (s p : string) : bool := String.prefix p s.

(** [s[0] != '/'] for a non-empty [s] (the callers test [s != ""] first). *)
Definition not_absolute (s : string) : bool :=
  match s with
  | String c _ => negb (Ascii.eqb c "/"%char)
  | EmptyString => true
  end.

(** ["%x" % n]: lower-case hexadecimal without prefix. *)
Definition hex (n : N) : string :=
  match n with
  | N0 => "0"
  | Npos p => HexString.Raw.of_pos p ""
  end.

(** ["%s" % t] for an optional string ([None] prints as ["None"]). *)
Definition show_opt (o : option string) : string := default "None" o.

(** [a < b] on Python numbers one of which may be a float. *)
Definition Qltb (a b : Q) : bool := (Qnum a * Zpos (Qden b) <? Qnum b * Zpos (Qden a))%Z.

(** ** Exceptions *)

(** The exceptions the modelled code raises or lets through.
    [KickstartValueError lineno msg] stands for
    [raise KickstartValueError, formatErrorMsg(lineno, msg=msg)]. *)
Inductive exn : Type :=
| KickstartValueError (lineno : nat) (msg : string)
| KickstartError (msg : string)
| ValueError (msg : string)
| KeyError (key : string)
| IndexError
| NonTermination.

(** ** The storage engine's data, as far as the handlers read or write it *)

(** A device format object ([blivet.formats.DeviceFormat]): its [type]
    ([None] for an unknown or absent format) and the keyword arguments the
    handlers pass to [getFormat]. *)
Record Format : Type := mkFormat {
  fmt_type : option string;
  fmt_mountable : bool;
  fmt_hidden : bool;
  fmt_exists : bool;
  fmt_mountpoint : string;
  fmt_mountopts : string;
  fmt_label : string;
  fmt_fsprofile : string;
  fmt_size : Z;
  fmt_passphrase : string;
  fmt_device : string;
  fmt_cipher : string;
  fmt_escrow_cert : option string;
  fmt_add_backup_passphrase : bool
}.

Definition set_fmt_mountpoint (mp : string) (f : Format) : Format :=
  {| fmt_type := fmt_type f; fmt_mountable := fmt_mountable f;
     fmt_hidden := fmt_hidden f; fmt_exists := fmt_exists f;
     fmt_mountpoint := mp; fmt_mountopts := fmt_mountopts f;
     fmt_label := fmt_label f; fmt_fsprofile := fmt_fsprofile f;
     fmt_size := fmt_size f; fmt_passphrase := fmt_passphrase f;
     fmt_device := fmt_device f; fmt_cipher := fmt_cipher f;
     fmt_escrow_cert := fmt_escrow_cert f;
     fmt_add_backup_passphrase := fmt_add_backup_passphrase f |}.

Definition set_fmt_mountopts (o : string) (f : Format) : Format :=
  {| fmt_type := fmt_type f; fmt_mountable := fmt_mountable f;
     fmt_hidden := fmt_hidden f; fmt_exists := fmt_exists f;
     fmt_mountpoint := fmt_mountpoint f; fmt_mountopts := o;
     fmt_label := fmt_label f; fmt_fsprofile := fmt_fsprofile f;
     fmt_size := fmt_size f; fmt_passphrase := fmt_passphrase f;
     fmt_device := fmt_device f; fmt_cipher := fmt_cipher f;
     fmt_escrow_cert := fmt_escrow_cert f;
     fmt_add_backup_passphrase := fmt_add_backup_passphrase f |}.

(** The Python class of a device object. *)
Inductive DevType : Type :=
| DiskDevice | IScsiDiskDevice | PartitionDevice | MDRaidArrayDevice
| LVMVolumeGroupDevice | LVMLogicalVolumeDevice | BTRFSVolumeDevice
| TmpFSDevice | LUKSDevice | OtherDevice.

Global Instance DevType_eq_dec : EqDecision DevType.
Proof. solve_decision. Defined.

(** The keyword arguments a handler passes to the engine's device
    constructors, kept on the request so that they can be inspected. *)
Inductive ReqArgs : Type :=
| NoArgs
| PartitionArgs (grow : bool) (size maxsize : Z) (primary : bool)
| LVArgs (size : Z) (thin_pool thin_volume grow : bool) (maxsize percent : Z)
         (pool_args : option (Z * Q))
| MDArrayArgs (level : string) (memberDevices totalDevices : Z)
| VGArgs (peSize : Q)
| BTRFSArgs (subvol : bool) (metaDataLevel dataLevel : string).

(** A device object.  Devices are Python objects with identity: [dev_id]
    is that identity, [dev_parents] holds the identities of the parents,
    and a mutation of a device updates the entry of that identity in the
    device tree. *)
Record Device : Type := mkDevice {
  dev_id : nat;
  dev_type : DevType;
  dev_name : string;
  dev_req_name : option string;      (* getattr(dev, "req_name", None) *)
  dev_path : string;
  dev_format : Format;
  dev_parents : list nat;
  dev_exists : bool;
  dev_size : Z;
  dev_currentSize : Z;
  dev_protected : bool;
  dev_partitionable : bool;
  dev_partitioned : bool;
  dev_peSize : Q;
  dev_reserved_space : Z;
  dev_reserved_percent : Z;
  dev_args : ReqArgs
}.

Definition set_dev_format (f : Format) (d : Device) : Device :=
  {| dev_id := dev_id d; dev_type := dev_type d; dev_name := dev_name d;
     dev_req_name := dev_req_name d; dev_path := dev_path d;
     dev_format := f; dev_parents := dev_parents d;
     dev_exists := dev_exists d; dev_size := dev_size d;
     dev_currentSize := dev_currentSize d;
     dev_protected := dev_protected d;
     dev_partitionable := dev_partitionable d;
     dev_partitioned := dev_partitioned d; dev_peSize := dev_peSize d;
     dev_reserved_space := dev_reserved_space d;
     dev_reserved_percent := dev_reserved_percent d;
     dev_args := dev_args d |}.

Definition set_dev_reserved (space percent : Z) (d : Device) : Device :=
  {| dev_id := dev_id d; dev_type := dev_type d; dev_name := dev_name d;
     dev_req_name := dev_req_name d; dev_path := dev_path d;
     dev_format := dev_format d; dev_parents := dev_parents d;
     dev_exists := dev_exists d; dev_size := dev_size d;
     dev_currentSize := dev_currentSize d;
     dev_protected := dev_protected d;
     dev_partitionable := dev_partitionable d;
     dev_partitioned := dev_partitioned d; dev_peSize := dev_peSize d;
     dev_reserved_space := space;
     dev_reserved_percent := percent;
     dev_args := dev_args d |}.

(** The actions of [blivet.deviceaction] the handlers register, each on
    the device of the given identity.  [ActionCreateFormat] holds the
    format it was given, if it was given one; without one it stands for
    the format the device has. *)
Inductive Action : Type :=
| ActionCreateDevice (dev : nat)
| ActionDestroyDevice (dev : nat)
| ActionResizeDevice (dev : nat) (size : Z)
| ActionCreateFormat (dev : nat) (fmt : option Format)
| ActionDestroyFormat (dev : nat)
| ActionResizeFormat (dev : nat) (size : Z).

(** [storage.devicetree]: the devices in enumeration order, the actions
    registered so far (oldest first) and the engine's device counter
    ([Device._id], which [storage.nextID] also advances). *)
Record DeviceTree : Type := mkTree {
  devices : list Device;
  actions : list Action;
  next_id : nat
}.

(** [storage.bootloader] *)
Record BootLoader : Type := mkBootLoader {
  skip_bootloader : bool;
  boot_args : gset string;
  bl_password : string;
  bl_encrypted_password : string;
  preferred_stage1_type : option string;
  bl_timeout : option Z;
  disk_order : list string;
  stage1_disk : option Device
}.

(** [storage.config], the clear-partitions policy. *)
Record StorageConfig : Type := mkConfig {
  clearPartType : Z;
  clearPartDisks : list string;
  clearPartDevices : list string;
  initializeDisks : bool
}.

(** The automatic-partitioning settings [AutoPart.execute] writes. *)
Record AutoPartSettings : Type := mkAutoPart {
  encryptedAutoPart : bool;
  encryptionCipher : string;
  autoPartEscrowCert : option string;
  autoPartAddBackupPassphrase : bool;
  autoPartType : option Z
}.

(** Everything the handlers mutate: the attributes of [storage], the
    global [flags.leavebootorder], and [ksdata.onPart], the table from a
    placeholder or requested name to a concrete device name. *)
Record World : Type := mkWorld {
  doAutoPart : bool;
  encryptionPassphrase : option string;
  escrowCertificates : gmap string string;
  autoPartSettings : AutoPartSettings;
  config : StorageConfig;
  tree : DeviceTree;
  bootloader : BootLoader;
  leavebootorder : bool;
  ksdata_onPart : gmap string string
}.

Definition set_doAutoPart (b : bool) (w : World) : World :=
  {| doAutoPart := b; encryptionPassphrase := encryptionPassphrase w;
     escrowCertificates := escrowCertificates w; autoPartSettings := autoPartSettings w;
     config := config w; tree := tree w; bootloader := bootloader w;
     leavebootorder := leavebootorder w; ksdata_onPart := ksdata_onPart w |}.

Definition set_encryptionPassphrase (p : option string) (w : World) : World :=
  {| doAutoPart := doAutoPart w; encryptionPassphrase := p;
     escrowCertificates := escrowCertificates w; autoPartSettings := autoPartSettings w;
     config := config w; tree := tree w; bootloader := bootloader w;
     leavebootorder := leavebootorder w; ksdata_onPart := ksdata_onPart w |}.

Definition set_escrowCertificates (c : gmap string string) (w : World) : World :=
  {| doAutoPart := doAutoPart w; encryptionPassphrase := encryptionPassphrase w;
     escrowCertificates := c; autoPartSettings := autoPartSettings w;
     config := config w; tree := tree w; bootloader := bootloader w;
     leavebootorder := leavebootorder w; ksdata_onPart := ksdata_onPart w |}.

Definition set_autoPartSettings (a : AutoPartSettings) (w : World) : World :=
  {| doAutoPart := doAutoPart w; encryptionPassphrase := encryptionPassphrase w;
     escrowCertificates := escrowCertificates w; autoPartSettings := a;
     config := config w; tree := tree w; bootloader := bootloader w;
     leavebootorder := leavebootorder w; ksdata_onPart := ksdata_onPart w |}.

Definition set_config (c : StorageConfig) (w : World) : World :=
  {| doAutoPart := doAutoPart w; encryptionPassphrase := encryptionPassphrase w;
     escrowCertificates := escrowCertificates w; autoPartSettings := autoPartSettings w;
     config := c; tree := tree w; bootloader := bootloader w;
     leavebootorder := leavebootorder w; ksdata_onPart := ksdata_onPart w |}.

Definition set_tree (t : DeviceTree) (w : World) : World :=
  {| doAutoPart := doAutoPart w; encryptionPassphrase := encryptionPassphrase w;
     escrowCertificates := escrowCertificates w; autoPartSettings := autoPartSettings w;
     config := config w; tree := t; bootloader := bootloader w;
     leavebootorder := leavebootorder w; ksdata_onPart := ksdata_onPart w |}.

Definition set_bootloader (b : BootLoader) (w : World) : World :=
  {| doAutoPart := doAutoPart w; encryptionPassphrase := encryptionPassphrase w;
     escrowCertificates := escrowCertificates w; autoPartSettings := autoPartSettings w;
     config := config w; tree := tree w; bootloader := b;
     leavebootorder := leavebootorder w; ksdata_onPart := ksdata_onPart w |}.

Definition set_leavebootorder (b : bool) (w : World) : World :=
  {| doAutoPart := doAutoPart w; encryptionPassphrase := encryptionPassphrase w;
     escrowCertificates := escrowCertificates w; autoPartSettings := autoPartSettings w;
     config := config w; tree := tree w; bootloader := bootloader w;
     leavebootorder := b; ksdata_onPart := ksdata_onPart w |}.

Definition set_ksdata_onPart (m : gmap string string) (w : World) : World :=
  {| doAutoPart := doAutoPart w; encryptionPassphrase := encryptionPassphrase w;
     escrowCertificates := escrowCertificates w; autoPartSettings := autoPartSettings w;
     config := config w; tree := tree w; bootloader := bootloader w;
     leavebootorder := leavebootorder w; ksdata_onPart := m |}.

(** ** The state-and-exception monad *)

(** A computation over a state [S]: it returns the state it leaves behind
    together with either the exception it raised or its result. *)
Definition ST (S A : Type) : Type := S → S * (exn + A).

Global Instance ST_ret {S} : MRet (ST S) := λ A a s, (s, inr a).

Global Instance ST_bind {S} : MBind (ST S) := λ A B f m s,
  match m s with
  | (s', inr a) => f a s'
  | (s', inl e) => (s', inl e)
  end.

Definition raise {S A} (e : exn) : ST S A := λ s, (s, inl e).
Definition gets {S A} (f : S → A) : ST S A := λ s, (s, inr (f s)).
Definition modify {S} (f : S → S) : ST S unit := λ s, (f s, inr tt).

(** [try: m except ...: h]: [h e] is the handler of the [except] clause
    matching [e], if there is one. *)
Definition try_except {S A} (m : ST S A) (h : exn → option (ST S A)) : ST S A :=
  λ s, match m s with
       | (s', inl e) => match h e with
                        | Some k => k s'
                        | None => (s', inl e)
                        end
       | r => r
       end.

(** An outcome that is a result: the computation returned, it did not
    raise. *)
Definition returned {A} (r : exn + A) : Prop := ∃ a, r = inr a.

(** [for x in l: f x], collecting the results. *)
Fixpoint forM {S A B} (l : list A) (f : A → ST S B) : ST S (list B) :=
  match l with
  | [] => mret []
  | x :: l' => b ← f x; bs ← forM l' f; mret (b :: bs)
  end.

(** The handlers run over the [World]. *)
Abbreviation KS := (ST World).

(** ** The external collaborators *)

(** What the modelled code asks of code outside the repository: blivet
    (the storage engine), udev, [os.path], NetworkManager, urlgrabber and
    the installer's global flags.  Every field is a decision or a result
    the repository's code only consumes; the theorems below hold for all
    engines unless they say otherwise. *)
Class Engine : Type := {
  (** [getFormat(type, ...).type]: [None] when the type is not supported *)
  format_type : option string → option string;
  (** [fmt.mountable] of a format of the given type *)
  format_mountable : option string → bool;
  (** [devicetree.resolveDevice(spec)] *)
  resolveDevice : DeviceTree → string → option Device;
  (** [devicetree.getDeviceByName(name)] *)
  getDeviceByName : DeviceTree → string → option Device;
  (** [storage.deviceDeps(device)] *)
  deviceDeps : DeviceTree → Device → list Device;
  (** [ActionResizeDevice(dev, size)] does not raise [ValueError] *)
  resize_device_ok : Device → Z → bool;
  (** [ActionResizeFormat(dev, size)] does not raise [ValueError] *)
  resize_format_ok : Device → Z → bool;
  (** the message of the [ValueError] of [storage.newMDArray], if it raises *)
  newMDArray_error : string → string → list Device → Z → option string;
  (** the name the engine gives a new device of a class, from the name
      the handler asked for, the parents and the device's identity *)
  request_name : DevType → option string → list Device → nat → string;
  (** [storage.shouldClear(disk)] *)
  shouldClear : StorageConfig → DeviceTree → Device → bool;
  (** [swap.swapSuggestion(hibernation=..., disk_space=...)] *)
  swapSuggestion : bool → Z → Z;
  (** [getPossiblePhysicalExtents(floor=1024)] *)
  getPossiblePhysicalExtents : list Z;
  (** [blivet.arch.isMactel()], [blivet.arch.isS390()], [flags.imageInstall] *)
  isMactel : bool;
  isS390 : bool;
  imageInstall : bool;
  (** [storage.defaultFSType], [storage.defaultBootFSType],
      [storage.bootloader.stage2_device_types], [storage.eddDict] *)
  defaultFSType : string;
  defaultBootFSType : string;
  stage2_device_types : list string;
  eddDict : list (string * N);
  (** the engine's global passes, each from the state it reads to the
      device tree it leaves or the exception it raises *)
  clearPartitions : StorageConfig → DeviceTree → exn + DeviceTree;
  setDefaultPartitioning : DeviceTree → DeviceTree;
  doAutoPartition : World → exn + DeviceTree;
  doPartitioning : DeviceTree → exn + DeviceTree;
  growLVM : DeviceTree → exn + DeviceTree;
  (** [storage.setUpBootLoader()], which "also calls
      ksdata.bootloader.execute" (line 1794): the world it leaves or the
      exception it raises *)
  setUpBootLoader : World → exn + World;
  (** [udev.udev_resolve_glob], [udev.udev_resolve_devspec], [os.path.normpath] *)
  udev_resolve_glob : string → list string;
  udev_resolve_devspec : string → option string;
  normpath : string → string;
  (** [nm.nm_is_connected()] and [urlgrabber.urlopen(url)]: [inl e] for
      a [URLGrabError] printing as [e]; otherwise the file is opened, and
      the value says what [f.read()] then does, raise an exception or
      return the content. *)
  nm_is_connected : bool;
  urlopen : string → string + (exn + string)
}.

(** ** The engine's effects on the device tree *)

(** Modelled from the spec: [devicetree.registerAction] of the storage
    engine, the action-registration surface; the action joins the
    registered actions. *)
Definition registerAction (a : Action) : KS unit :=
  modify (λ w, set_tree (mkTree (devices (tree w)) (actions (tree w) ++ [a])
                                (next_id (tree w))) w).

(** Modelled from the spec: [devicetree.getChildren(dev)] of the storage
    engine, the devices that have [dev] among their parents. *)
Definition getChildren (t : DeviceTree) (dev : Device) : list Device :=
  filter (λ d, dev_id dev ∈ dev_parents d) (devices t).

(** Modelled from the spec: [dev.isleaf] of the storage engine. *)
Definition isleaf (t : DeviceTree) (dev : Device) : bool :=
  bool_decide (getChildren t dev = []).

(** Modelled from the spec: [storage.nextID] of the storage engine, which
    hands out the device counter and advances it. *)
Definition nextID : KS nat :=
  λ w, (set_tree (mkTree (devices (tree w)) (actions (tree w))
                         (S (next_id (tree w)))) w,
        inr (next_id (tree w))).

(** Modelled from the spec: [storage.createDevice(device)] of the storage
    engine: it registers the creation of the device and, when the device
    has a format type, of its format; the device joins the tree. *)
Definition createDevice (d : Device) : KS unit :=
  modify (λ w, set_tree (mkTree (devices (tree w) ++ [d]) (actions (tree w))
                                (next_id (tree w))) w);;
  registerAction (ActionCreateDevice (dev_id d));;
  if bool_decide (is_Some (fmt_type (dev_format d)))
  then registerAction (ActionCreateFormat (dev_id d) None)
  else mret tt.

(** Modelled from the spec: [storage.destroyDevice(device)] of the storage
    engine: a device that still has children is refused with a
    [ValueError]; otherwise the destruction of an existing format and of
    the device are registered and the device leaves the tree. *)
Definition destroyDevice (d : Device) : KS unit :=
  t ← gets tree;
  if negb (isleaf t d) then raise (ValueError "Cannot destroy non-leaf device")
  else
    (if fmt_exists (dev_format d) && bool_decide (is_Some (fmt_type (dev_format d)))
     then registerAction (ActionDestroyFormat (dev_id d)) else mret tt);;
    registerAction (ActionDestroyDevice (dev_id d));;
    modify (λ w, set_tree (mkTree (filter (λ x, dev_id x ≠ dev_id d) (devices (tree w)))
                                  (actions (tree w)) (next_id (tree w))) w).

(** A mutation of the device object of identity [i]. *)
Definition update_device (i : nat) (f : Device → Device) : KS unit :=
  modify (λ w, set_tree (mkTree (map (λ d, if bool_decide (dev_id d = i) then f d else d)
                                     (devices (tree w)))
                                (actions (tree w)) (next_id (tree w))) w).

(** [dev.format.mountpoint = mp; dev.format.mountopts = opts] *)
Definition set_mount (dev : Device) (mp opts : string) : KS unit :=
  update_device (dev_id dev)
    (λ d, set_dev_format (set_fmt_mountopts opts (set_fmt_mountpoint mp (dev_format d))) d).

(** A device claims a mount point when its format is mountable and has
    that mount point ([device.format.mountable and
    device.format.mountpoint], so never the empty one). *)
Definition claims (mp : string) (d : Device) : bool :=
  fmt_mountable (dev_format d) && truthy (fmt_mountpoint (dev_format d))
  && String.eqb (fmt_mountpoint (dev_format d)) mp.

(** Modelled from the spec: the dictionary [storage.mountpoints] of the
    storage engine, from each mount point to the device whose mountable
    format has it (the last such device in enumeration order). *)
Definition claimants (t : DeviceTree) (mp : string) : list Device :=
  filter (λ d, claims mp d) (devices t).

Definition mountpoints (t : DeviceTree) (mp : string) : option Device :=
  last (claimants t mp).

(** The invariant of the spec: a mount point is claimed by at most one
    device at a time. *)
Definition unique_claims (t : DeviceTree) : Prop :=
  ∀ mp, length (claimants t mp) ≤ 1.

(** The identities of the devices of the tree were handed out by the
    engine's counter. *)
Definition ids_from_counter (t : DeviceTree) : Prop :=
  ∀ d, d ∈ devices t → dev_id d < next_id t.

(** What the spec asks of a handler that takes the tree from [t] to [t']
    while it claims the mount point [mp] for a new device.  When a device
    of [t] claims [mp], its destruction is registered, after that of its
    existing format at most, and then at once the creation of the new
    device, which takes the identity the counter held; and no device of
    [t'] has the identity of the destroyed one.  When none does, the
    creation of the new device is the first action registered and the
    devices of [t] stay, by identity and in order.  Either way a device
    of [t'] that was not in [t] holds the mount point, and if no mount
    point had two claimants in [t] none has in [t']. *)
Definition claimed_anew (mp : string) (t t' : DeviceTree) : Prop :=
  match mountpoints t mp with
  | Some d =>
    (∃ pre post,
        actions t' = actions t ++ pre ++ ActionDestroyDevice (dev_id d)
                       :: ActionCreateDevice (next_id t) :: post
        ∧ ∀ a, a ∈ pre → a = ActionDestroyFormat (dev_id d))
    ∧ (ids_from_counter t → ∀ x, x ∈ devices t' → dev_id x ≠ dev_id d)
  | None =>
    (∃ post, actions t' = actions t ++ ActionCreateDevice (next_id t) :: post)
    ∧ map dev_id (devices t) `prefix_of` map dev_id (devices t')
  end
  ∧ (∃ x, x ∈ devices t' ∧ next_id t ≤ dev_id x
          ∧ fmt_mountpoint (dev_format x) = mp)
  ∧ (unique_claims t → unique_claims t').

(** The actions [l] are still registered, oldest first, before anything
    registered later. *)
Definition registered (l : list Action) (w : World) : Prop :=
  l `prefix_of` actions (tree w).

(** Modelled from the spec: [storage.disks], [storage.vgs] and
    [storage.mdarrays] of the storage engine, the devices of those
    classes. *)
Definition disks (t : DeviceTree) : list Device :=
  filter (λ d, bool_decide (dev_type d = DiskDevice ∨ dev_type d = IScsiDiskDevice))
         (devices t).
Definition vgs (t : DeviceTree) : list Device :=
  filter (λ d, bool_decide (dev_type d = LVMVolumeGroupDevice)) (devices t).
Definition mdarrays (t : DeviceTree) : list Device :=
  filter (λ d, bool_decide (dev_type d = MDRaidArrayDevice)) (devices t).

(** Modelled from the spec: [getFormat(type, **kwargs)] of the storage
    engine: a new format object of the supported type (of no type when the
    type is not supported) holding the keyword arguments. *)
Definition getFormat {E : Engine} (type : option string)
    (mountpoint label fsprofile mountopts : string) (size : Z) : Format :=
  {| fmt_type := format_type type;
     fmt_mountable := format_mountable (format_type type);
     fmt_hidden := false; fmt_exists := false;
     fmt_mountpoint := mountpoint; fmt_mountopts := mountopts;
     fmt_label := label; fmt_fsprofile := fsprofile; fmt_size := size;
     fmt_passphrase := ""; fmt_device := ""; fmt_cipher := "";
     fmt_escrow_cert := None; fmt_add_backup_passphrase := false |}.

(** Modelled from the spec: [getFormat("luks", passphrase=..., device=...,
    cipher=..., escrow_cert=..., add_backup_passphrase=...)] of the storage
    engine. *)
Definition getFormat_luks {E : Engine} (passphrase device cipher : string)
    (escrow_cert : option string) (add_backup_passphrase : bool) : Format :=
  {| fmt_type := format_type (Some "luks");
     fmt_mountable := format_mountable (format_type (Some "luks"));
     fmt_hidden := false; fmt_exists := false;
     fmt_mountpoint := ""; fmt_mountopts := "";
     fmt_label := ""; fmt_fsprofile := ""; fmt_size := 0;
     fmt_passphrase := passphrase; fmt_device := device; fmt_cipher := cipher;
     fmt_escrow_cert := escrow_cert;
     fmt_add_backup_passphrase := add_backup_passphrase |}.

(** Modelled from the spec: the device constructors of the storage engine
    ([storage.newPartition], [newTmpFS], [newLV], [newMDArray], [newVG],
    [newBTRFS] and [LUKSDevice]): a new device object, not yet in the tree,
    with the next identity, a name that may depend on it and the
    arguments given.  Only partition requests carry a [req_name]. *)
Definition newDevice (ty : DevType) (name : nat → string) (fmt : Format)
    (parents : list Device) (size : Z) (peSize : Q) (args : ReqArgs) : KS Device :=
  i ← nextID;
  let n := name i in
  mret {| dev_id := i; dev_type := ty; dev_name := n;
          dev_req_name := if bool_decide (ty = PartitionDevice) then Some n else None;
          dev_path := "/dev/" +:+ n; dev_format := fmt;
          dev_parents := map dev_id parents; dev_exists := false;
          dev_size := size; dev_currentSize := 0;
          dev_protected := false; dev_partitionable := false;
          dev_partitioned := false; dev_peSize := peSize;
          dev_reserved_space := 0; dev_reserved_percent := 0;
          dev_args := args |}.

(** An engine pass over the device tree: the tree it leaves replaces the
    current one, the exception it raises is raised. *)
Definition engine_pass (f : World → exn + DeviceTree) : KS unit :=
  w ← gets id;
  match f w with
  | inl e => raise e
  | inr t => modify (set_tree t)
  end.

(** ** Helpers of kickstart.py *)

(** The line feed of the messages. *)
Definition nl : string := String (Ascii.ascii_of_nat 10) EmptyString.

(** [getEscrowCertificate(escrowCerts, url)] (lines 141-166), with
    [storage.escrowCertificates] for [escrowCerts] as at every call.  Only
    the [URLGrabError] of [urlopen] is caught and turned into a
    [KickstartError]; what [f.read()] raises is raised as it is, the
    [finally] clause only closing the file. *)
Definition getEscrowCertificate {E : Engine} (url : string) : KS (option string) :=
  if negb (truthy url) then mret None
  else
    certs ← gets escrowCertificates;
    match certs !! url with
    | Some c => mret (Some c)
    | None =>
      let needs_net := negb (startswith url "/") && negb (startswith url "file:") in
      if needs_net && negb nm_is_connected
      then raise (KickstartError ("Escrow certificate " +:+ url +:+ " requires the network."))
      else
        match urlopen url with
        | inl e => raise (KickstartError
            ("The following error was encountered while downloading the escrow certificate:"
             +:+ nl +:+ nl +:+ e))
        | inr f =>
          match f with
          | inl e => raise e
          | inr c =>
            modify (λ w, set_escrowCertificates (<[url := c]> (escrowCertificates w)) w);;
            mret (Some c)
          end
        end
    end.

(** [full_spec] of [deviceMatches] (lines 169-171) *)
Definition full_spec {E : Engine} (spec : string) : string :=
  if negb (startswith spec "/dev/") then normpath ("/dev/" +:+ spec) else spec.

(** [deviceMatches(spec)] (lines 168-181) *)
Definition deviceMatches {E : Engine} (spec : string) : list string :=
  let full_spec := full_spec spec in
  (* the regular case *)
  let matches := udev_resolve_glob full_spec in
  let dev := udev_resolve_devspec full_spec in
  (* udev_resolve_devspec returns None if there's no match, but we don't
     want that ending up in the list. *)
  match dev with
  | Some d => if truthy d && negb (bool_decide (d ∈ matches))
              then matches ++ [d] else matches
  | None => matches
  end.

(** [lookupAlias(devicetree, alias)] (lines 183-188) *)
Definition lookupAlias (t : DeviceTree) (alias : string) : option Device :=
  List.find (λ dev, bool_decide (dev_req_name dev = Some alias)) (devices t).

(** [deps.remove(leaf)]: the first entry that is the object [leaf] goes. *)
Fixpoint remove_first (leaf : Device) (deps : list Device) : list Device :=
  match deps with
  | [] => []
  | d :: deps' => if bool_decide (dev_id d = dev_id leaf) then deps'
                  else d :: remove_first leaf deps'
  end.

(** The [while deps:] loop of [removeExistingFormat] (lines 194-198).  A
    round that finds no leaf leaves [deps] and the tree as they were, so
    the Python loop spins for ever: the model then runs out of [fuel],
    which starts at the length of [deps] and is enough otherwise. *)
Fixpoint removeExistingFormat_loop (fuel : nat) (deps : list Device) : KS unit :=
  match deps with
  | [] => mret tt
  | _ :: _ =>
    match fuel with
    | O => raise NonTermination
    | S fuel' =>
      t ← gets tree;
      let leaves := filter (λ d, isleaf t d) deps in
      forM leaves destroyDevice;;
      removeExistingFormat_loop fuel' (foldl (λ ds leaf, remove_first leaf ds) deps leaves)
    end
  end.

(** [removeExistingFormat(device, storage)] (lines 192-200) *)
Definition removeExistingFormat {E : Engine} (device : Device) : KS unit :=
  t ← gets tree;
  let deps := deviceDeps t device in
  removeExistingFormat_loop (length deps) deps;;
  registerAction (ActionDestroyFormat (dev_id device)).

(** [getAvailableDiskSpace(storage)] (lines 202-219) *)
Definition getAvailableDiskSpace (w : World) : Z :=
  foldl (λ disk_space disk,
           if negb (bool_decide (clearPartDisks (config w) ≠ []))
              || bool_decide (dev_name disk ∈ clearPartDisks (config w))
           then (disk_space + dev_size disk)%Z else disk_space)
        0%Z (disks (tree w)).

(** The double-quote character of the messages. *)
Definition dq : string := String (Ascii.ascii_of_nat 34) EmptyString.

(** Truth value of an optional string ([None] and the empty string are
    false). *)
Definition truthy_opt (o : option string) : bool :=
  match o with Some s => truthy s | None => false end.

(** [ActionResizeFormat(dev, size)] and [ActionResizeDevice(dev, size)]:
    the constructors raise [ValueError] when the engine refuses the size. *)
Definition newActionResizeFormat {E : Engine} (dev : Device) (size : Z) : KS Action :=
  if resize_format_ok dev size then mret (ActionResizeFormat (dev_id dev) size)
  else raise (ValueError "invalid resize").

Definition newActionResizeDevice {E : Engine} (dev : Device) (size : Z) : KS Action :=
  if resize_device_ok dev size then mret (ActionResizeDevice (dev_id dev) size)
  else raise (ValueError "invalid resize").

(** Modelled from the spec: registering [ActionCreateFormat(device, format)]
    with the storage engine; the device takes the new format. *)
Definition createFormat (device : Device) (fmt : Format) : KS unit :=
  registerAction (ActionCreateFormat (dev_id device) (Some fmt));;
  update_device (dev_id device) (set_dev_format fmt).

(** [except ValueError: raise KickstartValueError(... "Invalid target size
    (%d) for device %s" % (size, dev.name))] *)
Definition invalid_target_size {A} (lineno : nat) (size : Z) (dev : Device)
    (e : exn) : option (KS A) :=
  match e with
  | ValueError _ =>
    Some (raise (KickstartValueError lineno
      ("Invalid target size (" +:+ pretty size +:+ ") for device " +:+ dev_name dev)))
  | _ => None
  end.

(** The resize of an existing device that is not to be formatted, the same
    text in [LogVolData.execute] (lines 771-787) and in
    [PartitionData.execute] (lines 1025-1041): a shrink resizes the format
    and then the device, a grow the device and then the format. *)
Definition resize_noformat {E : Engine} (lineno : nat) (dev : Device) (size : Z) : KS unit :=
  if (size <? dev_currentSize dev)%Z then
    (* shrink *)
    try_except
      (a ← newActionResizeFormat dev size; registerAction a;;
       b ← newActionResizeDevice dev size; registerAction b)
      (invalid_target_size lineno size dev)
  else
    (* grow *)
    try_except
      (a ← newActionResizeDevice dev size; registerAction a;;
       b ← newActionResizeFormat dev size; registerAction b)
      (invalid_target_size lineno size dev).

(** The block "If a previous device has claimed this mount point, delete
    the old one", the same text in [BTRFSData.execute] (lines 404-409),
    [LogVolData.execute] (839-844), [PartitionData.execute] (1113-1118)
    and [RaidData.execute] (1268-1273): the [KeyError] of a mount point
    nobody claims is caught and passed over. *)
Definition delete_old_claimant (mountpoint : string) : KS unit :=
  try_except
    (if truthy mountpoint then
       t ← gets tree;
       match mountpoints t mountpoint with
       | Some device => destroyDevice device
       | None => raise (KeyError mountpoint)
       end
     else mret tt)
    (λ e, match e with KeyError _ => Some (mret tt) | _ => None end).

(** [if self.passphrase and not storage.encryptionPassphrase:
    storage.encryptionPassphrase = self.passphrase], the first statement
    of every handler's [if self.encrypted:] block. *)
Definition remember_passphrase (passphrase : string) : KS unit :=
  cur ← gets encryptionPassphrase;
  if truthy passphrase && negb (truthy_opt cur)
  then modify (set_encryptionPassphrase (Some passphrase))
  else mret tt.

(** The rest of a handler's [if self.encrypted:] block, the same text in
    [LogVolData.execute] (lines 874-893), [PartitionData.execute]
    (1127-1146) and [RaidData.execute] (1286-1305).  [preexisting] is the
    test of the inner [if] ([self.onPart] or [self.preexist]): [target] is
    then the existing [device] and [format] is [kwargs["format"]];
    otherwise [target] is the new [request], whose own format is taken.
    The device or request takes a LUKS format carrying the request's own
    passphrase, and a new LUKS device above it takes the format asked
    for. *)
Definition luks_wrap {E : Engine} (preexisting : bool) (target : Device)
    (format : Format) (passphrase cipher escrowcert : string)
    (backuppassphrase : bool) : KS unit :=
  cert ← getEscrowCertificate escrowcert;
  luksdev ←
    (if preexisting then
       let luksformat := format in
       update_device (dev_id target)
         (set_dev_format (getFormat_luks passphrase (dev_path target) cipher cert
                                         backuppassphrase));;
       i ← nextID;
       newDevice LUKSDevice (λ _, "luks" +:+ pretty (Z.of_nat i)) luksformat [target]
                 0%Z 0%Q NoArgs
     else
       let luksformat := dev_format target in
       update_device (dev_id target)
         (set_dev_format (getFormat_luks passphrase "" cipher cert backuppassphrase));;
       i ← nextID;
       newDevice LUKSDevice (λ _, "luks" +:+ pretty (Z.of_nat i)) luksformat [target]
                 0%Z 0%Q NoArgs);
  createDevice luksdev.

(** What the encryption block of a handler has made of the tree [t'],
    for a request with the given passphrase, cipher and backup flag:
    the last device of the tree is a new LUKS device above the device
    [target] that was encrypted; it holds the mount point; and every
    device below it that has the identity of [target] carries a LUKS
    format with the passphrase given, the path of the device when the
    device existed before ([preexisting]).  A new request is in the
    tree. *)
Definition wrapped_with_passphrase {E : Engine} (t' : DeviceTree) (preexisting : bool)
    (passphrase cipher : string) (backuppassphrase : bool) (mountpoint : string)
  : Prop :=
  ∃ cert target luksdev ds,
    devices t' = ds ++ [luksdev]
    ∧ dev_type luksdev = LUKSDevice
    ∧ dev_parents luksdev = [dev_id target]
    ∧ fmt_mountpoint (dev_format luksdev) = mountpoint
    ∧ (∀ d, d ∈ ds → dev_id d = dev_id target →
            dev_format d
            = getFormat_luks passphrase (if preexisting then dev_path target else "")
                cipher cert backuppassphrase)
    ∧ (preexisting = false → ∃ d, d ∈ ds ∧ dev_id d = dev_id target).

(** The two actions of a resize in the order in which the handlers of an
    existing, unformatted device register them (lines 772-787 and
    1026-1041), as read off [resize_noformat]. *)
Definition resize_actions (dev : Device) (size : Z) : list Action :=
  if (size <? dev_currentSize dev)%Z
  then [ActionResizeFormat (dev_id dev) size; ActionResizeDevice (dev_id dev) size]
  else [ActionResizeDevice (dev_id dev) size; ActionResizeFormat (dev_id dev) size].

(** ** The partition command *)

Module PartitionData.

(** The attributes of a [PartitionData] request that [execute] reads. *)
Record t : Type := mk {
  lineno : nat;
  onbiosdisk : string;
  disk : string;
  mountpoint : string;
  fstype : string;
  fsopts : string;
  fsprofile : string;
  label : string;
  onPart : string;
  recommended : bool;
  hibernation : bool;
  grow : bool;
  format : bool;
  resize : bool;
  primOnly : bool;
  size : Z;
  maxSizeMB : Z;
  encrypted : bool;
  passphrase : string;
  cipher : string;
  escrowcert : string;
  backuppassphrase : bool
}.

(** The request attributes and local variables that the first part of
    [execute] assigns: [type], [kwargs["name"]], [self.mountpoint],
    [self.fsopts], [self.size] and [self.grow]. *)
Record locals : Type := mkLocals {
  l_type : string;
  l_name : option string;
  l_mountpoint : string;
  l_fsopts : string;
  l_size : Z;
  l_grow : bool
}.

(** Lines 938-945: [self.disk] from [--onbiosdisk]. *)
Definition bios_disk {E : Engine} (self : t) : KS string :=
  if negb (String.eqb (onbiosdisk self) "") then
    let disk' :=
      match List.find (λ '(_, biosdisk), String.eqb (hex biosdisk) (onbiosdisk self))
                      eddDict with
      | Some (d, _) => d
      | None => disk self
      end in
    if negb (truthy disk')
    then raise (KickstartValueError (lineno self)
           ("Specified BIOS disk " +:+ onbiosdisk self +:+ " cannot be determined"))
    else mret disk'
  else mret (disk self).

(** The three placeholder branches (lines 971-1000) differ in the format
    type and the message only. *)
Definition placeholder {E : Engine} (self : t) (type msg : string) : KS locals :=
  let name := mountpoint self in
  dt ← gets tree;
  if bool_decide (is_Some (getDeviceByName dt name))
  then raise (KickstartValueError (lineno self) msg)
  else
    (if truthy (onPart self)
     then modify (λ w, set_ksdata_onPart (<[name := onPart self]> (ksdata_onPart w)) w)
     else mret tt);;
    mret (mkLocals type (Some name) "" (fsopts self) (size self) (grow self)).

(** Lines 947-1013: the format type from the mount point. *)
Definition classify {E : Engine} (self : t) : KS locals :=
  let plain ty := mret (mkLocals ty None "" (fsopts self) (size self) (grow self)) in
  if String.eqb (mountpoint self) "swap" then
    if recommended self || hibernation self then
      disk_space ← gets getAvailableDiskSpace;
      mret (mkLocals "swap" None "" (fsopts self)
                     (swapSuggestion (hibernation self) disk_space) false)
    else plain "swap"
  else if String.eqb (mountpoint self) "None" then
    if truthy (fstype self) then plain (fstype self) else plain defaultFSType
  else if String.eqb (mountpoint self) "appleboot" then plain "appleboot"
  else if String.eqb (mountpoint self) "prepboot" then plain "prepboot"
  else if String.eqb (mountpoint self) "biosboot" then plain "biosboot"
  else if startswith (mountpoint self) "raid." then
    placeholder self "mdmember" "RAID partition defined multiple times"
  else if startswith (mountpoint self) "pv." then
    placeholder self "lvmpv" "PV partition defined multiple times"
  else if startswith (mountpoint self) "btrfs." then
    placeholder self "btrfs" "BTRFS partition defined multiple times"
  else if String.eqb (mountpoint self) "/boot/efi" then
    if isMactel
    then mret (mkLocals "hfs+" None (mountpoint self) (fsopts self) (size self) (grow self))
    else mret (mkLocals "EFI System Partition" None (mountpoint self)
                        "defaults,uid=0,gid=0,umask=0077,shortname=winnt"
                        (size self) (grow self))
  else
    let ty := if negb (String.eqb (fstype self) "") then fstype self
              else if String.eqb (mountpoint self) "/boot" then defaultBootFSType
              else defaultFSType in
    mret (mkLocals ty None (mountpoint self) (fsopts self) (size self) (grow self)).

(** [self.mountpoint] as lines 947-1013 leave it: empty for swap, for
    [None], for the boot pseudo mount points and for the placeholders, the
    mount point asked for otherwise. *)
Definition final_mountpoint (self : t) : string :=
  if String.eqb (mountpoint self) "swap" || String.eqb (mountpoint self) "None"
     || String.eqb (mountpoint self) "appleboot"
     || String.eqb (mountpoint self) "prepboot"
     || String.eqb (mountpoint self) "biosboot"
     || startswith (mountpoint self) "raid." || startswith (mountpoint self) "pv."
     || startswith (mountpoint self) "btrfs."
  then "" else mountpoint self.

(** [self.size] as lines 947-953 leave it: the size asked for, or, for a
    recommended or hibernation swap, the engine's suggestion. *)
Definition size_after_swap {E : Engine} (self : t) (w : World) : Z :=
  if String.eqb (mountpoint self) "swap" && (recommended self || hibernation self)
  then swapSuggestion (hibernation self) (getAvailableDiskSpace w)
  else size self.

(** Lines 1017-1045: an existing partition that is not to be formatted. *)
Definition noformat {E : Engine} (self : t) (l : locals) : KS unit :=
  if negb (truthy (onPart self))
  then raise (KickstartValueError (lineno self) "--noformat used without --onpart")
  else
    dt ← gets tree;
    match resolveDevice dt (onPart self) with
    | None => raise (KickstartValueError (lineno self)
        ("No preexisting partition with the name " +:+ dq +:+ onPart self +:+ dq
         +:+ " was found."))
    | Some dev =>
      (if resize self then resize_noformat (lineno self) dev (l_size l) else mret tt);;
      set_mount dev (l_mountpoint l) (l_fsopts l)
    end.

(** Lines 1060-1080: [kwargs["parents"]] from [self.disk]. *)
Definition disk_parents {E : Engine} (self : t) (disk : string) : KS (list Device) :=
  if truthy disk then
    dt ← gets tree;
    d ← match resolveDevice dt disk with
         | Some d =>
           if bool_decide (fmt_type (dev_format d) = Some "multipath_member")
           then match getChildren dt d with
                | mpath_device :: _ => mret (Some mpath_device)
                | [] => raise IndexError
                end
           else mret (Some d)
         | None => mret None
         end;
    match d with
    | None => raise (KickstartValueError (lineno self)
        ("Specified nonexistent disk " +:+ disk +:+ " in partition command"))
    | Some d =>
      if negb (dev_partitionable d)
      then raise (KickstartValueError (lineno self)
             ("Cannot install to read-only media " +:+ disk +:+ "."))
      else
        cfg ← gets config;
        let should_clear := shouldClear cfg dt d in
        if dev_partitioned d || should_clear
        then
          let parents := [d] in
          if bool_decide (parents = [])
          then raise (KickstartValueError (lineno self)
                 ("Specified nonexistent disk " +:+ disk +:+ " in partition command"))
          else mret parents
        else raise (KickstartValueError (lineno self)
               ("Specified unpartitioned disk " +:+ disk +:+ " in partition command"))
    end
  else mret [].

(** Lines 1047-1146: the partition is formatted. *)
Definition formatted {E : Engine} (self : t) (disk : string) (l : locals) : KS unit :=
  let fmt := getFormat (Some (l_type l)) (l_mountpoint l) (label self) (fsprofile self)
                       (l_fsopts l) (l_size l) in
  if negb (truthy_opt (fmt_type fmt))
  then raise (KickstartValueError (lineno self)
         ("The " +:+ dq +:+ l_type l +:+ dq +:+ " filesystem type is not supported."))
  else
    parents ← disk_parents self disk;
    let args := PartitionArgs (l_grow l) (l_size l) (maxSizeMB self) (primOnly self) in
    target ←
      (if truthy (onPart self) then
         dt ← gets tree;
         match resolveDevice dt (onPart self) with
         | None => raise (KickstartValueError (lineno self)
             ("Specified nonexistent partition " +:+ onPart self
              +:+ " in partition command"))
         | Some device =>
           removeExistingFormat device;;
           (if resize self then
              try_except (a ← newActionResizeDevice device (l_size l); registerAction a)
                         (invalid_target_size (lineno self) (l_size l) device)
            else mret tt);;
           createFormat device fmt;;
           mret device
         end
       else if String.eqb (fstype self) "tmpfs" then
         (* tmpfs mounts are not disks and don't occupy a disk partition *)
         request ← newDevice TmpFSDevice (request_name TmpFSDevice (l_name l) parents)
                             fmt parents (l_size l) 0%Q args;
         createDevice request;;
         mret request
       else
         delete_old_claimant (l_mountpoint l);;
         request ← newDevice PartitionDevice
                             (request_name PartitionDevice (l_name l) parents)
                             fmt parents (l_size l) 0%Q args;
         createDevice request;;
         mret request);
    if encrypted self then
      remember_passphrase (passphrase self);;
      luks_wrap (truthy (onPart self)) target fmt (passphrase self) (cipher self)
                (escrowcert self) (backuppassphrase self)
    else mret tt.

(** [PartitionData.execute(self, storage, ksdata, instClass)] (lines
    932-1146) *)
Definition execute {E : Engine} (self : t) : KS unit :=
  modify (set_doAutoPart false);;
  disk ← bios_disk self;
  l ← classify self;
  if negb (format self) then noformat self l
  else formatted self disk l.

End PartitionData.

(** [Partition.execute] (lines 924-929) *)
Definition Partition_execute {E : Engine} (partitions : list PartitionData.t) : KS unit :=
  forM partitions PartitionData.execute;;
  if bool_decide (partitions ≠ [])
  then engine_pass (λ w, doPartitioning (tree w))
  else mret tt.

(** ** Member lists of raid, volgroup and btrfs requests *)

(** The device a member name stands for, the same text in
    [BTRFSData.execute] (lines 364-374), [RaidData.execute] (1217-1226)
    and [VolGroupData.execute] (1446-1455): the name itself, else the
    device [ksdata.onPart] records for it, else the partition request that
    was asked for under that name; a LUKS device stands for its first
    child. *)
Definition member_device {E : Engine} (w : World) (member : string) : option Device :=
  let devicetree := tree w in
  let dev :=
    match resolveDevice devicetree member with
    | Some d => Some d
    | None =>
      (* if member is using --onpart, use original device *)
      let mem := default member (ksdata_onPart w !! member) in
      match resolveDevice devicetree mem with
      | Some d => Some d
      | None => lookupAlias devicetree member
      end
    end in
  match dev with
  | Some d =>
    if bool_decide (fmt_type (dev_format d) = Some "luks")
    then head (getChildren devicetree d)      (* IndexError: dev = None *)
    else Some d
  | None => None
  end.

(** The messages of the two failures of a member, per command. *)
Definition incorrect_format_msg (what member : string) (type : option string) : string :=
  what +:+ " " +:+ member +:+ " has incorrect format (" +:+ show_opt type +:+ ")".

Definition undefined_member_msg (member spec : string) : string :=
  "Tried to use undefined partition " +:+ member +:+ " in " +:+ spec.

(** One round of the member loop (lines 363-382, 1216-1234, 1445-1463):
    [expected] is the membership format of the command, [what] and [spec]
    the words by which its messages differ. *)
Definition get_member {E : Engine} (lineno : nat) (expected what spec member : string)
  : KS Device :=
  w ← gets id;
  match member_device w member with
  | Some dev =>
    if negb (bool_decide (fmt_type (dev_format dev) = Some expected))
    then raise (KickstartValueError lineno
                  (incorrect_format_msg what member (fmt_type (dev_format dev))))
    else mret dev
  | None => raise (KickstartValueError lineno (undefined_member_msg member spec))
  end.

(** A member the loop lets pass, as [get_member] tests it: it stands for a
    device, and the format of that device is the membership format. *)
Definition member_ok {E : Engine} (w : World) (expected member : string) : Prop :=
  ∃ dev, member_device w member = Some dev
         ∧ fmt_type (dev_format dev) = Some expected.

(** [dev] of the member loop before the test for LUKS (lines 364-368,
    1217-1221 and 1446-1450): the device of the name itself, else the
    device [ksdata.onPart] records for the name, else the partition
    request asked for under the name. *)
Definition member_lookup {E : Engine} (w : World) (member : string) : option Device :=
  let devicetree := tree w in
  match resolveDevice devicetree member with
  | Some d => Some d
  | None =>
    (* if member is using --onpart, use original device *)
    let mem := default member (ksdata_onPart w !! member) in
    match resolveDevice devicetree mem with
    | Some d => Some d
    | None => lookupAlias devicetree member
    end
  end.

(** What the run [run] of a handler was, in the state [w1] in which the
    member loop met the member [m], when [m] does not pass: a member
    that resolves to no device, and one that resolves to a LUKS device
    without a child, raise the error of an undefined partition; a member
    whose device (the first child, for a LUKS device) has another format
    than the membership format raises the error of an incorrect format,
    which names the format found. *)
Definition member_failure {E : Engine} (run : World * (exn + unit)) (w1 : World)
    (lineno : nat) (expected what spec m : string) : Prop :=
  (member_lookup w1 m = None →
   run = (w1, inl (KickstartValueError lineno (undefined_member_msg m spec))))
  ∧ (∀ d, member_lookup w1 m = Some d →
          fmt_type (dev_format d) = Some "luks" →
          getChildren (tree w1) d = [] →
          run = (w1, inl (KickstartValueError lineno (undefined_member_msg m spec))))
  ∧ (∀ d c rest, member_lookup w1 m = Some d →
                 fmt_type (dev_format d) = Some "luks" →
                 getChildren (tree w1) d = c :: rest →
                 fmt_type (dev_format c) ≠ Some expected →
                 run = (w1, inl (KickstartValueError lineno
                                   (incorrect_format_msg what m
                                      (fmt_type (dev_format c))))))
  ∧ (∀ d, member_lookup w1 m = Some d →
          fmt_type (dev_format d) ≠ Some "luks" →
          fmt_type (dev_format d) ≠ Some expected →
          run = (w1, inl (KickstartValueError lineno
                            (incorrect_format_msg what m (fmt_type (dev_format d)))))).

(** ** The raid command *)

Module RaidData.

Record t : Type := mk {
  lineno : nat;
  device : string;
  preexist : bool;
  mountpoint : string;
  fstype : string;
  fsopts : string;
  fsprofile : string;
  label : string;
  format : bool;
  members : list string;
  level : string;
  spares : Z;
  encrypted : bool;
  passphrase : string;
  cipher : string;
  escrowcert : string;
  backuppassphrase : bool
}.

(** Lines 1157-1161: the name of the array. *)
Definition devicename {E : Engine} (self : t) (dt : DeviceTree) : string :=
  if preexist self then
    match resolveDevice dt (device self) with
    | Some d => dev_name d
    | None => device self
    end
  else device self.

(** The two placeholder branches (lines 1170-1187): the table entry is
    written first, the check for a device of that name comes second. *)
Definition placeholder {E : Engine} (self : t) (devname type msg : string)
  : KS (string * string) :=
  let name := mountpoint self in
  modify (λ w, set_ksdata_onPart (<[name := devname]> (ksdata_onPart w)) w);;
  dt ← gets tree;
  if bool_decide (is_Some (getDeviceByName dt name))
  then raise (KickstartValueError (lineno self) msg)
  else mret (type, "").

(** Lines 1167-1195: the format type and [self.mountpoint]. *)
Definition classify {E : Engine} (self : t) (devname : string) : KS (string * string) :=
  if String.eqb (mountpoint self) "swap" then mret ("swap", "")
  else if startswith (mountpoint self) "pv." then
    placeholder self devname "lvmpv" "PV partition defined multiple times"
  else if startswith (mountpoint self) "btrfs." then
    placeholder self devname "btrfs" "BTRFS partition defined multiple times"
  else
    let ty := if negb (String.eqb (fstype self) "") then fstype self
              else if String.eqb (mountpoint self) "/boot"
                      && bool_decide ("mdarray" ∈ stage2_device_types)
                   then defaultBootFSType
              else defaultFSType in
    mret (ty, mountpoint self).

(** [self.mountpoint] as lines 1167-1195 leave it: empty for swap and
    for the placeholders, the mount point asked for otherwise. *)
Definition final_mountpoint (self : t) : string :=
  if String.eqb (mountpoint self) "swap" || startswith (mountpoint self) "pv."
     || startswith (mountpoint self) "btrfs."
  then "" else mountpoint self.

(** Lines 1203-1213: an existing array that is not to be formatted. *)
Definition noformat {E : Engine} (self : t) (devname mp : string) : KS unit :=
  if negb (truthy devname)
  then raise (KickstartValueError (lineno self) "--noformat used without --device")
  else
    dt ← gets tree;
    match getDeviceByName dt devname with
    | None => raise (KickstartValueError (lineno self)
        ("No preexisting RAID device with the name " +:+ dq +:+ devname +:+ dq
         +:+ " was found."))
    | Some dev => set_mount dev mp (fsopts self)
    end.

(** Lines 1215-1305: the array is formatted. *)
Definition formatted {E : Engine} (self : t) (devname type mp : string) : KS unit :=
  raidmems ← forM (members self)
                  (get_member (lineno self) "mdmember" "RAID member" "RAID specification");
  let fmt := getFormat (Some type) mp (label self) (fsprofile self) (fsopts self) 0%Z in
  if negb (truthy_opt (fmt_type fmt))
  then raise (KickstartValueError (lineno self)
         ("The " +:+ dq +:+ type +:+ dq +:+ " filesystem type is not supported."))
  else
    let memberDevices := (Z.of_nat (length raidmems) - spares self)%Z in
    let totalDevices := Z.of_nat (length raidmems) in
    target ←
      (if preexist self then
         dt ← gets tree;
         match getDeviceByName dt devname with
         | None => raise (KickstartValueError (lineno self)
             ("Specifeid nonexistent RAID " +:+ devname +:+ " in raid command"))
         | Some device =>
           removeExistingFormat device;;
           createFormat device fmt;;
           mret device
         end
       else
         dt ← gets tree;
         if truthy devname && bool_decide (devname ∈ map dev_name (mdarrays dt))
         then raise (KickstartValueError (lineno self)
                ("The Software RAID array name " +:+ dq +:+ devname +:+ dq
                 +:+ " is already in use."))
         else
           delete_old_claimant mp;;
           match newMDArray_error devname (level self) raidmems memberDevices with
           | Some e => raise (KickstartValueError (lineno self) e)
           | None =>
             request ← newDevice MDRaidArrayDevice
                         (request_name MDRaidArrayDevice (Some devname) raidmems)
                         fmt raidmems 0%Z 0%Q
                         (MDArrayArgs (level self) memberDevices totalDevices);
             createDevice request;;
             mret request
           end);
    if encrypted self then
      remember_passphrase (passphrase self);;
      luks_wrap (preexist self) target fmt (passphrase self) (cipher self)
                (escrowcert self) (backuppassphrase self)
    else mret tt.

(** [RaidData.execute(self, storage, ksdata, instClass)] (lines
    1154-1305) *)
Definition execute {E : Engine} (self : t) : KS unit :=
  dt ← gets tree;
  let devname := devicename self dt in
  modify (set_doAutoPart false);;
  '(type, mp) ← classify self devname;
  (* Sanity check mountpoint *)
  if negb (String.eqb mp "") && not_absolute mp
  then raise (KickstartValueError (lineno self) "The mount point is not valid.")
  else if negb (format self) then noformat self devname mp
  else formatted self devname type mp.

End RaidData.

(** [Raid.execute] (lines 1149-1151) *)
Definition Raid_execute {E : Engine} (raidList : list RaidData.t) : KS unit :=
  forM raidList RaidData.execute;; mret tt.

(** ** The volgroup command *)

Module VolGroupData.

Record t : Type := mk {
  lineno : nat;
  vgname : string;
  physvols : list string;
  preexist : bool;
  format : bool;
  pesize : Z;
  reserved_space : Z;
  reserved_percent : Z
}.

(** [VolGroupData.execute(self, storage, ksdata, instClass)] (lines
    1437-1493) *)
Definition execute {E : Engine} (self : t) : KS unit :=
  modify (set_doAutoPart false);;
  (* Get a list of all the physical volume devices that make up this VG. *)
  pvs ← forM (physvols self)
             (get_member (lineno self) "lvmpv" "Physical Volume"
                         "Volume Group specification");
  if bool_decide (length pvs = 0) && negb (preexist self)
  then raise (KickstartValueError (lineno self)
    "Volume group defined without any physical volumes.  Either specify physical volumes or use --useexisting.")
  else if negb (bool_decide (pesize self ∈ getPossiblePhysicalExtents))
  then raise (KickstartValueError (lineno self) "Volume group specified invalid pesize")
  else
    dt ← gets tree;
    (* If --noformat or --useexisting was given, there's really nothing to do. *)
    if negb (format self) || preexist self then
      if negb (truthy (vgname self))
      then raise (KickstartValueError (lineno self)
             "--noformat or --useexisting used without giving a name")
      else
        match getDeviceByName dt (vgname self) with
        | None => raise (KickstartValueError (lineno self)
            ("No preexisting VG with the name " +:+ dq +:+ vgname self +:+ dq
             +:+ " was found."))
        | Some _ => mret tt
        end
    else if bool_decide (vgname self ∈ map dev_name (vgs dt))
    then raise (KickstartValueError (lineno self)
           ("The volume group name " +:+ dq +:+ vgname self +:+ dq
            +:+ " is already in use."))
    else
      request ← newDevice LVMVolumeGroupDevice
                  (request_name LVMVolumeGroupDevice (Some (vgname self)) pvs)
                  (getFormat None "" "" "" "" 0%Z) pvs 0%Z (pesize self # 1024)
                  (VGArgs (pesize self # 1024));
      createDevice request;;
      (if truthyZ (reserved_space self)
       then update_device (dev_id request)
              (λ d, set_dev_reserved (reserved_space self) (dev_reserved_percent d) d)
       else if truthyZ (reserved_percent self)
       then update_device (dev_id request)
              (λ d, set_dev_reserved (dev_reserved_space d) (reserved_percent self) d)
       else mret tt);;
      (* in case we had to truncate or otherwise adjust the specified name *)
      modify (λ w, set_ksdata_onPart (<[vgname self := dev_name request]> (ksdata_onPart w)) w).

End VolGroupData.

(** [VolGroup.execute] (lines 1432-1434) *)
Definition VolGroup_execute {E : Engine} (vgList : list VolGroupData.t) : KS unit :=
  forM vgList VolGroupData.execute;; mret tt.

(** ** The logvol command *)

Module LogVolData.

Record t : Type := mk {
  lineno : nat;
  vgname : string;
  name : string;
  mountpoint : string;
  fstype : string;
  fsopts : string;
  fsprofile : string;
  label : string;
  recommended : bool;
  hibernation : bool;
  grow : bool;
  format : bool;
  preexist : bool;
  resize : bool;
  thin_pool : bool;
  thin_volume : bool;
  pool_name : string;
  size : Z;
  maxSizeMB : Z;
  percent : Z;
  metadata_size : Z;
  chunk_size : Z;
  encrypted : bool;
  passphrase : string;
  cipher : string;
  escrowcert : string;
  backuppassphrase : bool
}.

(** The local variables and request attributes the first part of
    [execute] assigns: [type], [self.mountpoint], [self.size] and
    [self.grow]. *)
Record locals : Type := mkLocals {
  l_type : option string;
  l_mountpoint : string;
  l_size : Z;
  l_grow : bool
}.

(** ["%s-%s" % (vg.name, name)] *)
Definition lv_name (vg : Device) (n : string) : string := dev_name vg +:+ "-" +:+ n.

(** Lines 725-740: the format type from the mount point. *)
Definition classify {E : Engine} (self : t) (w : World) : locals :=
  let l :=
    if String.eqb (mountpoint self) "swap" then
      if recommended self || hibernation self then
        let disk_space := getAvailableDiskSpace w in
        mkLocals (Some "swap") "" (swapSuggestion (hibernation self) disk_space) false
      else mkLocals (Some "swap") "" (size self) (grow self)
    else
      mkLocals (Some (if negb (String.eqb (fstype self) "") then fstype self
                      else defaultFSType))
               (mountpoint self) (size self) (grow self) in
  if thin_pool self then mkLocals None "" (l_size l) (l_grow l) else l.

(** Lines 763-791: an existing volume that is not to be formatted. *)
Definition noformat {E : Engine} (self : t) (vg : Device) (l : locals) : KS unit :=
  if negb (truthy (name self))
  then raise (KickstartValueError (lineno self) "--noformat used without --name")
  else
    dt ← gets tree;
    match getDeviceByName dt (lv_name vg (name self)) with
    | None => raise (KickstartValueError (lineno self)
        ("No preexisting logical volume with the name " +:+ dq +:+ name self +:+ dq
         +:+ " was found."))
    | Some dev =>
      (if resize self then resize_noformat (lineno self) dev (l_size l) else mret tt);;
      set_mount dev (l_mountpoint l) (fsopts self)
    end.

(** Lines 794-806: the checks of a volume that does not exist yet. *)
Definition check_new {E : Engine} (self : t) (vg : Device) (l : locals) : KS unit :=
  if negb (preexist self) then
    dt ← gets tree;
    if bool_decide (is_Some (getDeviceByName dt (lv_name vg (name self))))
    then raise (KickstartValueError (lineno self)
           ("Logical volume name already used in volume group " +:+ dev_name vg))
    else
      (* Size specification checks *)
      if negb (truthyZ (percent self)) then
        if negb (truthyZ (l_size l))
        then raise (KickstartValueError (lineno self) "Size required")
        else if negb (l_grow l) && Qltb (inject_Z (l_size l * 1024)) (dev_peSize vg)
        then raise (KickstartValueError (lineno self)
          "Logical volume size must be larger than the volume group physical extent size.")
        else mret tt
      else if (percent self <=? 0)%Z || (100 <? percent self)%Z
      then raise (KickstartValueError (lineno self) "Percentage must be between 0 and 100")
      else mret tt
  else mret tt.

(** Lines 808-893: the volume is formatted. *)
Definition formatted {E : Engine} (self : t) (vg : Device) (pool : option Device)
    (l : locals) : KS unit :=
  check_new self vg l;;
  let fmt := getFormat (l_type l) (l_mountpoint l) (label self) (fsprofile self)
                       (fsopts self) 0%Z in
  if negb (truthy_opt (fmt_type fmt)) && negb (thin_pool self)
  then raise (KickstartValueError (lineno self)
         ("The " +:+ dq +:+ show_opt (l_type l) +:+ dq
          +:+ " filesystem type is not supported."))
  else
    target ←
      (if preexist self then
         dt ← gets tree;
         match getDeviceByName dt (lv_name vg (name self)) with
         | None => raise (KickstartValueError (lineno self)
             ("Specified nonexistent LV " +:+ name self +:+ " in logvol command"))
         | Some device =>
           removeExistingFormat device;;
           (if resize self then
              try_except (a ← newActionResizeDevice device (l_size l); registerAction a)
                         (invalid_target_size (lineno self) (l_size l) device)
            else mret tt);;
           createFormat device fmt;;
           mret device
         end
       else
         delete_old_claimant (l_mountpoint l);;
         let parents := if thin_volume self
                        then match pool with Some p => [p] | None => [] end
                        else [vg] in
         let pool_args := if thin_pool self
                          then Some (metadata_size self, chunk_size self # 1024)
                          else None in
         request ← newDevice LVMLogicalVolumeDevice
                     (request_name LVMLogicalVolumeDevice (Some (name self)) parents)
                     fmt parents (l_size l) 0%Q
                     (LVArgs (l_size l) (thin_pool self) (thin_volume self) (l_grow l)
                             (maxSizeMB self) (percent self) pool_args);
         createDevice request;;
         mret request);
    if encrypted self then
      remember_passphrase (passphrase self);;
      luks_wrap (preexist self) target fmt (passphrase self) (cipher self)
                (escrowcert self) (backuppassphrase self)
    else mret tt.

(** [LogVolData.execute(self, storage, ksdata, instClass)] (lines
    717-893) *)
Definition execute {E : Engine} (self : t) : KS unit :=
  modify (set_doAutoPart false);;
  w ← gets id;
  (* we might have truncated or otherwise changed the specified vg name *)
  let vgname' := default (vgname self) (ksdata_onPart w !! vgname self) in
  let l := classify self w in
  (* Sanity check mountpoint *)
  if negb (String.eqb (l_mountpoint l) "") && not_absolute (l_mountpoint l)
  then raise (KickstartValueError (lineno self)
         ("The mount point " +:+ dq +:+ l_mountpoint l +:+ dq +:+ " is not valid."))
  else
    (* Check that the VG this LV is a member of has already been specified. *)
    match getDeviceByName (tree w) vgname' with
    | None => raise (KickstartValueError (lineno self)
        ("No volume group exists with the name " +:+ dq +:+ vgname self +:+ dq
         +:+ ".  Specify volume groups before logical volumes."))
    | Some vg =>
      pool ←
        (if thin_volume self then
           match getDeviceByName (tree w) (lv_name vg (pool_name self)) with
           | None => raise (KickstartValueError (lineno self)
               ("No thin pool exists with the name " +:+ dq +:+ pool_name self +:+ dq
                +:+ ". Specify thin pools before thin volumes."))
           | Some p => mret (Some p)
           end
         else mret None);
      if negb (format self) then noformat self vg l
      else formatted self vg pool l
    end.

End LogVolData.

(** [LogVol.execute] (lines 709-714) *)
Definition LogVol_execute {E : Engine} (lvList : list LogVolData.t) : KS unit :=
  forM lvList LogVolData.execute;;
  if bool_decide (lvList ≠ [])
  then engine_pass (λ w, growLVM (tree w))
  else mret tt.

(** ** The btrfs command *)

Module BTRFSData.

Record t : Type := mk {
  lineno : nat;
  devices : list string;
  name : string;
  label : string;
  mountpoint : string;
  subvol : bool;
  preexist : bool;
  metaDataLevel : string;
  dataLevel : string
}.

(** [self.mountpoint] as lines 393-395 leave it: empty for [none] and
    [None], the mount point asked for otherwise. *)
Definition final_mountpoint (self : t) : string :=
  if String.eqb (mountpoint self) "none" || String.eqb (mountpoint self) "None"
  then "" else mountpoint self.

(** [BTRFSData.execute(self, storage, ksdata, instClass)] (lines
    355-425) *)
Definition execute {E : Engine} (self : t) : KS unit :=
  modify (set_doAutoPart false);;
  (* Get a list of all the devices that make up this volume. *)
  members ← forM (devices self)
                 (get_member (lineno self) "btrfs" "BTRFS partition"
                             "BTRFS volume specification");
  let name' := if subvol self then Some (name self)
               else if truthy (label self) then Some (label self)
               else None in
  if bool_decide (length members = 0) && negb (preexist self)
  then raise (KickstartValueError (lineno self)
    "BTRFS volume defined without any member devices.  Either specify member devices or use --useexisting.")
  else
    (* allow creating btrfs vols/subvols without specifying mountpoint *)
    let mp := if String.eqb (mountpoint self) "none" || String.eqb (mountpoint self) "None"
              then "" else mountpoint self in
    (* Sanity check mountpoint *)
    if negb (String.eqb mp "") && not_absolute mp
    then raise (KickstartValueError (lineno self)
           ("The mount point " +:+ dq +:+ mp +:+ dq +:+ " is not valid."))
    else
      delete_old_claimant mp;;
      if preexist self then
        dt ← gets tree;
        match resolveDevice dt (name self) with
        | None => raise (KickstartValueError (lineno self)
            ("Specified nonexistent BTRFS volume " +:+ name self +:+ " in btrfs command"))
        | Some device =>
          update_device (dev_id device)
            (λ d, set_dev_format (set_fmt_mountpoint mp (dev_format d)) d)
        end
      else
        request ← newDevice BTRFSVolumeDevice
                    (request_name BTRFSVolumeDevice name' members)
                    (getFormat (Some "btrfs") mp "" "" "" 0%Z) members 0%Z 0%Q
                    (BTRFSArgs (subvol self) (metaDataLevel self) (dataLevel self));
        createDevice request.

End BTRFSData.

(** [BTRFS.execute] (lines 350-352) *)
Definition BTRFS_execute {E : Engine} (btrfsList : list BTRFSData.t) : KS unit :=
  forM btrfsList BTRFSData.execute;; mret tt.

(** ** The clearpart, autopart and bootloader commands *)

Module ClearPart.

Record t : Type := mk {
  type : Z;
  drives : list string;
  devices : list string;
  initAll : bool
}.

(** [ClearPart.execute] (lines 535-543) *)
Definition execute {E : Engine} (self : t) : KS unit :=
  modify (λ w, set_config
            (mkConfig (type self) (drives self) (devices self)
                      (if initAll self then initAll self
                       else initializeDisks (config w))) w);;
  engine_pass (λ w, clearPartitions (config w) (tree w)).

End ClearPart.

Module AutoPart.

Record t : Type := mk {
  autopart : bool;
  encrypted : bool;
  passphrase : string;
  cipher : string;
  escrowcert : string;
  backuppassphrase : bool;
  type : option Z
}.

(** [AutoPart.execute] (lines 248-271).  The value of [sanityCheck] is
    dropped by the source, so the call leaves no trace here. *)
Definition execute {E : Engine} (self : t) : KS unit :=
  if negb (autopart self) then mret tt
  else
    (* sets up default autopartitioning.  use clearpart separately if you want it *)
    modify (λ w, set_tree (setDefaultPartitioning (tree w)) w);;
    modify (set_doAutoPart true);;
    (if encrypted self then
       modify (λ w, set_autoPartSettings
                 (mkAutoPart true (encryptionCipher (autoPartSettings w))
                             (autoPartEscrowCert (autoPartSettings w))
                             (autoPartAddBackupPassphrase (autoPartSettings w))
                             (autoPartType (autoPartSettings w))) w);;
       modify (set_encryptionPassphrase (Some (passphrase self)));;
       modify (λ w, set_autoPartSettings
                 (mkAutoPart (encryptedAutoPart (autoPartSettings w)) (cipher self)
                             (autoPartEscrowCert (autoPartSettings w))
                             (autoPartAddBackupPassphrase (autoPartSettings w))
                             (autoPartType (autoPartSettings w))) w);;
       cert ← getEscrowCertificate (escrowcert self);
       modify (λ w, set_autoPartSettings
                 (mkAutoPart (encryptedAutoPart (autoPartSettings w))
                             (encryptionCipher (autoPartSettings w)) cert
                             (backuppassphrase self)
                             (autoPartType (autoPartSettings w))) w)
     else mret tt);;
    (match type self with
     | Some ty =>
       modify (λ w, set_autoPartSettings
                 (mkAutoPart (encryptedAutoPart (autoPartSettings w))
                             (encryptionCipher (autoPartSettings w))
                             (autoPartEscrowCert (autoPartSettings w))
                             (autoPartAddBackupPassphrase (autoPartSettings w))
                             (Some ty)) w)
     | None => mret tt
     end);;
    engine_pass doAutoPartition.

End AutoPart.

(** [s.split()]: the words of [s] between runs of white space. *)
Definition is_space (c : ascii) : bool :=
  existsb (Ascii.eqb c)
          [" "%char; ascii_of_nat 9; ascii_of_nat 10; ascii_of_nat 11;
           ascii_of_nat 12; ascii_of_nat 13].

Fixpoint split_from (s word : string) : list string :=
  match s with
  | EmptyString => if truthy word then [word] else []
  | String c s' =>
    if is_space c
    then (if truthy word then [word] else []) ++ split_from s' ""
    else split_from s' (word +:+ String c EmptyString)
  end.

Definition split (s : string) : list string := split_from s "".

(** [l.remove(x)] on a list of strings that holds [x]. *)
Fixpoint list_remove (x : string) (l : list string) : list string :=
  match l with
  | [] => []
  | y :: l' => if String.eqb y x then l' else y :: list_remove x l'
  end.

Module Bootloader.

Record t : Type := mk {
  lineno : nat;
  location : string;
  appendLine : string;
  password : string;
  isCrypted : bool;
  timeout : option Z;
  driveorder : list string;
  bootDrive : string;
  leavebootorder : bool
}.

(** [set(deviceMatches(drive)).isdisjoint(diskSet)] *)
Definition no_match {E : Engine} (drive : string) (diskSet : gset string) : bool :=
  bool_decide ((list_to_set (deviceMatches drive) : gset string) ∩ diskSet = ∅).

(** [Bootloader.execute] (lines 286-347) *)
Definition execute {E : Engine} (self : t) : KS unit :=
  let location0 := if imageInstall && isS390 then "none" else location self in
  let location' := if String.eqb location0 "none" then None
                   else if String.eqb location0 "partition" then Some "boot"
                   else Some location0 in
  match location' with
  | None | Some "" =>
    modify (λ w, let b := bootloader w in
                 set_bootloader (mkBootLoader true (boot_args b) (bl_password b)
                                   (bl_encrypted_password b) (preferred_stage1_type b)
                                   (bl_timeout b) (disk_order b) (stage1_disk b)) w)
  | Some loc =>
    (if truthy (appendLine self) then
       let args := split (appendLine self) in
       modify (λ w, let b := bootloader w in
                    set_bootloader (mkBootLoader (skip_bootloader b)
                                      (boot_args b ∪ list_to_set args) (bl_password b)
                                      (bl_encrypted_password b) (preferred_stage1_type b)
                                      (bl_timeout b) (disk_order b) (stage1_disk b)) w)
     else mret tt);;
    (if truthy (password self) then
       modify (λ w, let b := bootloader w in
                    set_bootloader
                      (mkBootLoader (skip_bootloader b) (boot_args b)
                         (if isCrypted self then bl_password b else password self)
                         (if isCrypted self then password self
                          else bl_encrypted_password b)
                         (preferred_stage1_type b)
                         (bl_timeout b) (disk_order b) (stage1_disk b)) w)
     else mret tt);;
    modify (λ w, let b := bootloader w in
                 set_bootloader (mkBootLoader (skip_bootloader b) (boot_args b)
                                   (bl_password b) (bl_encrypted_password b) (Some loc)
                                   (bl_timeout b) (disk_order b) (stage1_disk b)) w);;
    (match timeout self with
     | Some tm =>
       modify (λ w, let b := bootloader w in
                    set_bootloader (mkBootLoader (skip_bootloader b) (boot_args b)
                                      (bl_password b) (bl_encrypted_password b)
                                      (preferred_stage1_type b)
                                      (Some tm) (disk_order b) (stage1_disk b)) w)
     | None => mret tt
     end);;
    (* Throw out drives specified that don't exist or cannot be used *)
    dt ← gets tree;
    let disk_names :=
      map dev_name
          (filter (λ d, negb (fmt_hidden (dev_format d)) && negb (dev_protected d)
                        && (negb isS390
                            || negb (bool_decide (dev_type d = IScsiDiskDevice))))
                  (disks dt)) in
    let diskSet : gset string := list_to_set disk_names in
    let driveorder' :=
      foldl (λ order drive, if no_match drive diskSet then list_remove drive order
                            else order)
            (driveorder self) (driveorder self) in
    modify (λ w, let b := bootloader w in
                 set_bootloader (mkBootLoader (skip_bootloader b) (boot_args b)
                                   (bl_password b) (bl_encrypted_password b)
                                   (preferred_stage1_type b)
                                   (bl_timeout b) driveorder' (stage1_disk b)) w);;
    bootDrive' ←
      (if truthy (bootDrive self) then
         if (1 <? Z.of_nat (size (list_to_set (deviceMatches (bootDrive self))
                                   : gset string)))%Z
         then raise (KickstartValueError (lineno self)
                ("Too many values provided for boot drive: " +:+ bootDrive self))
         else if no_match (bootDrive self) diskSet
         then raise (KickstartValueError (lineno self)
                ("Requested boot drive " +:+ bootDrive self
                 +:+ " doesn't exist or cannot be used"))
         else mret (bootDrive self)
       else match disk_names with
            | n :: _ => mret n
            | [] => raise IndexError
            end);
    let drive := resolveDevice dt bootDrive' in
    modify (λ w, let b := bootloader w in
                 set_bootloader (mkBootLoader (skip_bootloader b) (boot_args b)
                                   (bl_password b) (bl_encrypted_password b)
                                   (preferred_stage1_type b)
                                   (bl_timeout b) (disk_order b) drive) w);;
    if leavebootorder self then modify (set_leavebootorder true) else mret tt
  end.

End Bootloader.

(** [location] as lines 287-295 of [Bootloader.execute] leave it: [None]
    for [none], and for any location on an image install on s390;
    [boot] for [partition]; the location asked for otherwise. *)
Definition bootloader_location {E : Engine} (self : Bootloader.t) : option string :=
  let location0 := if imageInstall && isS390 then "none"
                   else Bootloader.location self in
  if String.eqb location0 "none" then None
  else if String.eqb location0 "partition" then Some "boot"
  else Some location0.

(** [disk_names] of lines 319-321 of [Bootloader.execute]: the names of
    the disks that are neither hidden nor protected nor, on s390, iSCSI
    disks. *)
Definition bootloader_disk_names {E : Engine} (dt : DeviceTree) : list string :=
  map dev_name
      (filter (λ d, negb (fmt_hidden (dev_format d)) && negb (dev_protected d)
                    && (negb isS390
                        || negb (bool_decide (dev_type d = IScsiDiskDevice))))
              (disks dt)).

(** The state of [Bootloader.execute] after the settings were stored
    (lines 301-330), for the location [loc]. *)
Definition bootloader_stored {E : Engine} (self : Bootloader.t) (loc : string)
    (w : World) : World :=
  let b := bootloader w in
  set_bootloader
    (mkBootLoader (skip_bootloader b)
       (if truthy (Bootloader.appendLine self)
        then boot_args b ∪ list_to_set (split (Bootloader.appendLine self))
        else boot_args b)
       (if truthy (Bootloader.password self) && negb (Bootloader.isCrypted self)
        then Bootloader.password self else bl_password b)
       (if truthy (Bootloader.password self) && Bootloader.isCrypted self
        then Bootloader.password self else bl_encrypted_password b)
       (Some loc)
       (if Bootloader.timeout self is Some tm then Some tm else bl_timeout b)
       (filter (λ drive, Bootloader.no_match drive
                           (list_to_set (bootloader_disk_names (tree w))) = false)
               (Bootloader.driveorder self))
       (stage1_disk b)) w.

(** The state in which [Bootloader.execute] ends, in terms of the state
    [w1] after the settings were stored. *)
Definition bootloader_finish (self : Bootloader.t) (w1 : World)
    (drive : option Device) : World :=
  let b := bootloader w1 in
  let w2 := set_bootloader
              (mkBootLoader (skip_bootloader b) (boot_args b)
                 (bl_password b) (bl_encrypted_password b)
                 (preferred_stage1_type b) (bl_timeout b)
                 (disk_order b) drive) w1 in
  if Bootloader.leavebootorder self then set_leavebootorder true w2 else w2.

(** ** The orchestrator *)

(** [ksdata]: the parsed commands of one run. *)
Record KSData : Type := mkKSData {
  clearpart : ClearPart.t;
  bootloader_cmd : Bootloader.t;
  autopart : AutoPart.t;
  partition : list PartitionData.t;
  raid : list RaidData.t;
  volgroup : list VolGroupData.t;
  logvol : list LogVolData.t;
  btrfs : list BTRFSData.t
}.

(** The calls [doKickstartStorage] makes, one name per call site. *)
Inductive Step : Type :=
| ClearPartStep | BootloaderStep | AutoPartStep | PartitionStep | RaidStep
| VolGroupStep | LogVolStep | BTRFSStep | SetUpBootLoaderStep.

Global Instance Step_eq_dec : EqDecision Step.
Proof. solve_decision. Defined.

(** The call sites of [doKickstartStorage] in source order. *)
Definition all_steps : list Step :=
  [ClearPartStep; BootloaderStep; AutoPartStep; PartitionStep; RaidStep;
   VolGroupStep; LogVolStep; BTRFSStep; SetUpBootLoaderStep].

(** What each call runs; [storage.setUpBootLoader()] is the engine's. *)
Definition run_step {E : Engine} (ksdata : KSData) (s : Step) : KS unit :=
  match s with
  | ClearPartStep => ClearPart.execute (clearpart ksdata)
  | BootloaderStep => Bootloader.execute (bootloader_cmd ksdata)
  | AutoPartStep => AutoPart.execute (autopart ksdata)
  | PartitionStep => Partition_execute (partition ksdata)
  | RaidStep => Raid_execute (raid ksdata)
  | VolGroupStep => VolGroup_execute (volgroup ksdata)
  | LogVolStep => LogVol_execute (logvol ksdata)
  | BTRFSStep => BTRFS_execute (btrfs ksdata)
  | SetUpBootLoaderStep =>
    λ w, match setUpBootLoader w with
         | inl e => (w, inl e)
         | inr w' => (w', inr tt)
         end
  end.

(** The orchestrator runs over the world and a ghost log of the calls it
    has made, oldest first; the log is no part of the program's state and
    the commands cannot touch it. *)
Abbreviation Run := (ST (list Step * World)).

(** One call of the orchestrator: the call is logged, then run. *)
Definition call {E : Engine} (ksdata : KSData) (s : Step) : Run unit :=
  λ '(log, w), let '(w', r) := run_step ksdata s w in
               ((log ++ [s], w'), r).

(** [d for d in storage.disks if not d.format.hidden and not d.protected] *)
Definition eligible_disks (w : World) : list Device :=
  filter (λ d, negb (fmt_hidden (dev_format d)) && negb (dev_protected d))
         (disks (tree w)).

(** [doKickstartStorage(storage, ksdata, instClass)] (lines 1781-1795) *)
Definition doKickstartStorage {E : Engine} (ksdata : KSData) : Run unit :=
  let call := call ksdata in
  call ClearPartStep;;
  ds ← gets (λ '(_, w), eligible_disks w);
  if negb (bool_decide (ds ≠ [])) then mret tt   (* return *)
  else
    call BootloaderStep;;
    call AutoPartStep;;
    call PartitionStep;;
    call RaidStep;;
    call VolGroupStep;;
    call LogVolStep;;
    call BTRFSStep;;
    (* also calls ksdata.bootloader.execute *)
    call SetUpBootLoaderStep.

(** [for m in ms: m()]: the computations run one after another, each on
    the state the one before it left; the first that raises ends the
    sequence. *)
Fixpoint run_all {S : Type} (ms : list (ST S unit)) : ST S unit :=
  match ms with
  | [] => mret tt
  | m :: ms' => m;; run_all ms'
  end.

(** ** Glob expansion at parse time *)

(** The expansion loop, the same text in [ClearPart.parse] (lines
    511-517 and 523-529) and in [IgnoreDisk.parse] (641-647 and
    651-657): the matches of each spec are appended to [drives]; a spec
    without a match raises.  [msg] gives the message for the spec. *)
Fixpoint expand_specs {E : Engine} {S : Type} (lineno : nat) (msg : string → string)
    (drives : list string) (specs : list string) : ST S (list string) :=
  match specs with
  | [] => mret drives
  | spec :: specs' =>
    let matched := deviceMatches spec in
    if bool_decide (matched ≠ [])
    then expand_specs lineno msg (drives ++ matched) specs'
    else raise (KickstartValueError lineno (msg spec))
  end.

Module ClearPartCommand.

(** The attributes of the [clearpart] command that [parse] reads and
    writes, as the parser of pykickstart has left them. *)
Record t : Type := mk {
  lineno : nat;
  type : option Z;
  drives : list string;
  devices : list string;
  initAll : bool
}.

Definition set_type (ty : option Z) (self : t) : t :=
  mk (lineno self) ty (drives self) (devices self) (initAll self).
Definition set_drives (ds : list string) (self : t) : t :=
  mk (lineno self) (type self) ds (devices self) (initAll self).
Definition set_devices (ds : list string) (self : t) : t :=
  mk (lineno self) (type self) (drives self) ds (initAll self).

(** [ClearPart.parse] (lines 503-533) after the call of the parser of
    pykickstart; [CLEARPART_TYPE_NONE] is the constant of pykickstart. *)
Definition parse {E : Engine} (CLEARPART_TYPE_NONE : Z) : ST t unit :=
  self ← gets id;
  (if bool_decide (type self = None)
   then modify (set_type (Some CLEARPART_TYPE_NONE)) else mret tt);;
  (* Do any glob expansion now, since we need to have the real list of
     disks available before the execute methods run. *)
  drives ← expand_specs (lineno self)
              (λ spec, "Specified nonexistent disk " +:+ spec
                       +:+ " in clearpart command")
              [] (drives self);
  modify (set_drives drives);;
  devices ← expand_specs (lineno self)
               (λ spec, "Specified nonexistent device " +:+ spec
                        +:+ " in clearpart device list")
               [] (devices self);
  modify (set_devices devices).

(** The command as [ClearPart.execute] reads it once it is parsed. *)
Definition parsed (CLEARPART_TYPE_NONE : Z) (self : t) : ClearPart.t :=
  ClearPart.mk (default CLEARPART_TYPE_NONE (type self)) (drives self)
               (devices self) (initAll self).

End ClearPartCommand.

Module IgnoreDisk.

Record t : Type := mk {
  lineno : nat;
  ignoredisk : list string;
  onlyuse : list string
}.

(** [IgnoreDisk.parse] (lines 637-661) after the call of the parser of
    pykickstart. *)
Definition parse {E : Engine} : ST t unit :=
  self ← gets id;
  drives ← expand_specs (lineno self)
              (λ spec, "Specified nonexistent disk " +:+ spec
                       +:+ " in ignoredisk command")
              [] (ignoredisk self);
  modify (λ self, mk (lineno self) drives (onlyuse self));;
  drives ← expand_specs (lineno self)
              (λ spec, "Specified nonexistent disk " +:+ spec
                       +:+ " in ignoredisk command")
              [] (onlyuse self);
  modify (λ self, mk (lineno self) (ignoredisk self) drives).

End IgnoreDisk.

(** ** The commands that configure the installed system *)

(** A call the modelled code makes on the host or on the installed
    system: [iutil.execWithRedirect(cmd, args, root=root)],
    [subprocess.Popen(argv, ...).communicate()], [iutil.start_service]
    and [iutil.stop_service]. *)
Inductive SysCall : Type :=
| Exec (cmd : string) (args : list string) (root : string)
| Popen (argv : list string)
| StartService (name : string)
| StopService (name : string).

(** What these commands ask of the host, each answer given after the
    calls made so far: [ROOT_PATH] of [constants], [NTP_PACKAGE] and
    [NTP_SERVICE] of [pyanaconda.timezone], [os.path.exists], the exit
    code of a command or the exception it raises, the output, the error
    output and the exit code of a process ([None] when it cannot be
    started, the [OSError] of [Popen]), [iutil.service_running] and
    [flags.can_touch_runtime_system]. *)
Class Host : Type := {
  ROOT_PATH : string;
  NTP_PACKAGE : string;
  NTP_SERVICE : string;
  path_exists : list SysCall → string → bool;
  exec_result : list SysCall → string → list string → string → exn + Z;
  popen_result : list SysCall → list string → option (string * string * Z);
  service_running : list SysCall → string → bool;
  can_touch_runtime_system : string → bool
}.

(** The state these commands run over: the calls made so far, oldest
    first, and the lists of [ksdata] they edit
    ([ksdata.packages.packageList], [ksdata.services.enabled] and
    [ksdata.services.disabled]). *)
Record Installer : Type := mkInstaller {
  syscalls : list SysCall;
  packageList : list string;
  services_enabled : list string;
  services_disabled : list string
}.

Definition log_call (c : SysCall) (s : Installer) : Installer :=
  mkInstaller (syscalls s ++ [c]) (packageList s) (services_enabled s)
              (services_disabled s).
Definition set_packageList (l : list string) (s : Installer) : Installer :=
  mkInstaller (syscalls s) l (services_enabled s) (services_disabled s).
Definition set_services_enabled (l : list string) (s : Installer) : Installer :=
  mkInstaller (syscalls s) (packageList s) l (services_disabled s).

(** [iutil.execWithRedirect(cmd, args, root=root)] *)
Definition execWithRedirect {H : Host} (cmd : string) (args : list string)
    (root : string) : ST Installer Z :=
  λ s, (log_call (Exec cmd args root) s, exec_result (syscalls s) cmd args root).

(** [proc = subprocess.Popen(argv, ...); proc.communicate()]: [None] is
    the [OSError] the callers catch. *)
Definition popen {H : Host} (argv : list string)
  : ST Installer (option (string * string * Z)) :=
  λ s, (log_call (Popen argv) s, inr (popen_result (syscalls s) argv)).

Module Firewall.

Record t : Type := mk {
  enabled : option bool;
  services : list string;
  remove_services : list string;
  ports : list string;
  trusts : list string
}.

(** [args] as lines 567-589 of [Firewall.execute] build it. *)
Definition args (self : t) : list string :=
  (* enabled is None if neither --enable or --disable is passed
     default to enabled if nothing has been set. *)
  (if bool_decide (enabled self = Some false) then ["--disabled"] else ["--enabled"])
  ++ (if negb (bool_decide ("ssh" ∈ services self))
         && negb (bool_decide ("ssh" ∈ remove_services self))
         && negb (bool_decide ("22:tcp" ∈ ports self))
      then ["--service=ssh"] else [])
  ++ map (λ dev, "--trust=" +:+ dev) (trusts self)
  ++ map (λ port, "--port=" +:+ port) (ports self)
  ++ map (λ remove_service, "--remove-service=" +:+ remove_service)
         (remove_services self)
  ++ map (λ service, "--service=" +:+ service) (services self).

(** [Firewall.execute] (lines 566-596); the message is the one of the
    source, before its translation. *)
Definition execute {H : Host} (self : t) : ST Installer unit :=
  let args := args self in
  let cmd := "/usr/bin/firewall-offline-cmd" in
  there ← gets (λ s, path_exists (syscalls s) (ROOT_PATH +:+ cmd));
  if negb there
  then raise (KickstartError (cmd +:+ " is missing. Cannot setup firewall."))
  else execWithRedirect cmd args ROOT_PATH;; mret tt.

End Firewall.

Module Timezone.

(** The attributes of the [timezone] command that [setup] reads and
    writes. *)
Record t : Type := mk {
  nontp : bool;
  _added_chrony : bool;
  _enabled_chrony : bool
}.

(** [Timezone.setup] (lines 1364-1394); the command object as [setup]
    leaves it is the result. *)
Definition setup {H : Host} (self : t) : ST Installer t :=
  if nontp self then
    running ← gets (λ s, service_running (syscalls s) NTP_SERVICE);
    (if running && can_touch_runtime_system "stop NTP service"
     then modify (log_call (StopService NTP_SERVICE)) else mret tt);;
    pkgs ← gets packageList;
    self ← (if _added_chrony self && bool_decide (NTP_PACKAGE ∈ pkgs)
            then modify (set_packageList (list_remove NTP_PACKAGE pkgs));;
                 mret (mk (nontp self) false (_enabled_chrony self))
            else mret self);
    enabled ← gets services_enabled;
    if _enabled_chrony self && bool_decide (NTP_SERVICE ∈ enabled)
    then modify (set_services_enabled (list_remove NTP_SERVICE enabled));;
         mret (mk (nontp self) (_added_chrony self) false)
    else mret self
  else
    running ← gets (λ s, service_running (syscalls s) NTP_SERVICE);
    (if negb running && can_touch_runtime_system "start NTP service"
     then modify (log_call (StartService NTP_SERVICE)) else mret tt);;
    pkgs ← gets packageList;
    self ← (if negb (bool_decide (NTP_PACKAGE ∈ pkgs))
            then modify (set_packageList (pkgs ++ [NTP_PACKAGE]));;
                 mret (mk (nontp self) true (_enabled_chrony self))
            else mret self);
    enabled ← gets services_enabled;
    disabled ← gets services_disabled;
    if negb (bool_decide (NTP_SERVICE ∈ enabled))
       && negb (bool_decide (NTP_SERVICE ∈ disabled))
    then modify (set_services_enabled (enabled ++ [NTP_SERVICE]));;
         mret (mk (nontp self) (_added_chrony self) true)
    else mret self.

End Timezone.

(** [s.split(sep)] for a separator of one character: the pieces of [s]
    between the separators, at least one. *)
Fixpoint split_on (sep : ascii) (s : string) : list string :=
  match s with
  | EmptyString => [EmptyString]
  | String c s' =>
    if Ascii.eqb c sep then EmptyString :: split_on sep s'
    else match split_on sep s' with
         | word :: words => String c word :: words
         | [] => [String c EmptyString]
         end
  end.

(** [s.split(sep, 1)] for a separator of one character: what comes
    before the first separator and, if there is one, what comes after
    it. *)
Fixpoint split_once (sep : ascii) (s : string) : string * option string :=
  match s with
  | EmptyString => (EmptyString, None)
  | String c s' =>
    if Ascii.eqb c sep then (EmptyString, Some s')
    else let '(before, after) := split_once sep s' in (String c before, after)
  end.

(** [s.lstrip()], [s.rstrip()] and [s.strip()] *)
Fixpoint lstrip (s : string) : string :=
  match s with
  | String c s' => if is_space c then lstrip s' else s
  | EmptyString => EmptyString
  end.

Fixpoint rstrip (s : string) : string :=
  match s with
  | String c s' =>
    let r := rstrip s' in
    if is_space c && negb (truthy r) then EmptyString else String c r
  | EmptyString => EmptyString
  end.

Definition strip (s : string) : string := rstrip (lstrip s).

Module Realm.

Record t : Type := mk {
  join_realm : string;
  discover_options : list string;
  join_args : list string;
  packages : list string;
  discovered : string
}.

(** The loop of lines 462-465: a line of the form [required-package:
    <name>] adds the name to [self.packages]. *)
Definition add_required (packages : list string) (lines : list string)
  : list string :=
  foldl (λ packages line,
           match split_once ":" line with
           | (key, Some value) =>
             if String.eqb (strip key) "required-package"
             then packages ++ [strip value] else packages
           | (_, None) => packages
           end)
        packages lines.

(** [Realm.setup] (lines 434-468); the command object as [setup] leaves
    it is the result. *)
Definition setup {H : Host} (self : t) : ST Installer t :=
  if negb (truthy (join_realm self)) then mret self
  else
    let argv := ["realm"; "discover"; "--verbose"] ++ discover_options self
                ++ [join_realm self] in
    proc ← popen argv;
    match proc with
    | None => mret self
    | Some (output, _, _) =>
      (* Now parse the output for the required software. First line is the
         realm name, and following lines are information as "name: value" *)
      let lines := split_on (ascii_of_nat 10) output in
      match lines with
      | [] => mret (mk (join_realm self) (discover_options self) (join_args self)
                       ["realmd"] "")
      | first :: lines' =>
        mret (mk (join_realm self) (discover_options self) (join_args self)
                 (add_required ["realmd"] lines') (strip first))
      end
    end.

(** [pw_args] of lines 473-479 of [Realm.execute]: the loop leaves it
    empty at the first argument that gives a password option, and the
    [else] of the loop sets the implicit [--no-password]. *)
Fixpoint pw_args (join_args : list string) : list string :=
  match join_args with
  | [] => ["--no-password"]
  | arg :: join_args' =>
    if startswith arg "--no-password" || startswith arg "--one-time-password"
    then []
    else pw_args join_args'
  end.

(** [Realm.execute] (lines 470-499) *)
Definition execute {H : Host} (self : t) : ST Installer unit :=
  if negb (truthy (discovered self)) then mret tt
  else
    let argv := ["realm"; "join"; "--install"; ROOT_PATH; "--verbose"]
                ++ pw_args (join_args self) ++ join_args self in
    popen argv;; mret tt.

End Realm.

(** The package a line of the output of [realm discover] asks for, as
    the loop of lines 462-465 reads the line. *)
Definition required_package (line : string) : option string :=
  match split_once ":" line with
  | (key, Some value) =>
    if String.eqb (strip key) "required-package" then Some (strip value) else None
  | (_, None) => None
  end.

(** ** A reference engine and sample runs *)

(** A pattern of the form [prefix*] matches the strings that start with
    [prefix]; any other pattern matches itself only.  This is as much of
    glob matching as the sample runs need. *)
Definition simple_glob (pattern s : string) : bool :=
  let n := String.length pattern in
  if String.eqb (substring (n - 1) 1 pattern) "*"
  then String.prefix (substring 0 (n - 1) pattern) s
  else String.eqb pattern s.

(** The first device of the given name. *)
Definition device_named (dt : DeviceTree) (name : string) : option Device :=
  List.find (λ d, String.eqb (dev_name d) name) (devices dt).

(** A small, concrete engine over a udev inventory of device names, used
    to run the model on concrete input: devices are found by name (with
    or without [/dev/]), every resize to a positive size is accepted, a
    few format types are known, and the global passes leave the tree as
    it is. *)
Definition refEngine (inventory : list string) : Engine := {|
  format_type := λ ty,
    match ty with
    | Some t => if String.eqb t "EFI System Partition" then Some "efi"
                else if bool_decide (t ∈ ["ext4"; "xfs"; "swap"; "lvmpv"; "mdmember";
                                          "btrfs"; "luks"; "tmpfs"; "biosboot"])
                then Some t else None
    | None => None
    end;
  format_mountable := λ ty,
    match ty with
    | Some t => bool_decide (t ∈ ["ext4"; "xfs"; "btrfs"; "tmpfs"; "efi"])
    | None => false
    end;
  resolveDevice := λ dt spec,
    device_named dt (if String.prefix "/dev/" spec
                     then substring 5 (String.length spec - 5) spec else spec);
  getDeviceByName := device_named;
  deviceDeps := getChildren;
  resize_device_ok := λ _ size, (0 <? size)%Z;
  resize_format_ok := λ _ size, (0 <? size)%Z;
  newMDArray_error := λ _ _ _ _, None;
  request_name := λ ty name parents i,
    match name with
    | Some n =>
      match ty, parents with
      | LVMLogicalVolumeDevice, vg :: _ => dev_name vg +:+ "-" +:+ n
      | _, _ => n
      end
    | None => "req" +:+ pretty (Z.of_nat i)
    end;
  shouldClear := λ _ _ _, false;
  swapSuggestion := λ _ _, 2048%Z;
  getPossiblePhysicalExtents := [1024; 2048; 4096; 8192; 16384; 32768]%Z;
  isMactel := false;
  isS390 := false;
  imageInstall := false;
  defaultFSType := "xfs";
  defaultBootFSType := "xfs";
  stage2_device_types := ["partition"; "mdarray"];
  eddDict := [("sda", 128%N)];
  clearPartitions := λ _ dt, inr dt;
  setDefaultPartitioning := λ dt, dt;
  doAutoPartition := λ w, inr (tree w);
  doPartitioning := λ dt, inr dt;
  growLVM := λ dt, inr dt;
  setUpBootLoader := λ w, inr w;
  udev_resolve_glob := λ pattern,
    filter (λ n, simple_glob pattern ("/dev/" +:+ n)) inventory;
  udev_resolve_devspec := λ spec,
    List.find (λ n, String.eqb ("/dev/" +:+ n) spec) inventory;
  normpath := λ p, p;
  nm_is_connected := true;
  urlopen := λ url, inr (inr ("certificate of " +:+ url))
|}.

(** A format of an existing device. *)
Definition existing_format (type : option string) (mountable : bool) : Format :=
  {| fmt_type := type; fmt_mountable := mountable; fmt_hidden := false;
     fmt_exists := true; fmt_mountpoint := ""; fmt_mountopts := "";
     fmt_label := ""; fmt_fsprofile := ""; fmt_size := 0;
     fmt_passphrase := ""; fmt_device := ""; fmt_cipher := "";
     fmt_escrow_cert := None; fmt_add_backup_passphrase := false |}.

(** An existing device of the inventory. *)
Definition existing_device (i : nat) (ty : DevType) (name : string)
    (fmt : Format) (parents : list nat) (size : Z) : Device :=
  {| dev_id := i; dev_type := ty; dev_name := name; dev_req_name := None;
     dev_path := "/dev/" +:+ name; dev_format := fmt; dev_parents := parents;
     dev_exists := true; dev_size := size; dev_currentSize := size;
     dev_protected := false; dev_partitionable := true;
     dev_partitioned := true; dev_peSize := 4 # 1;
     dev_reserved_space := 0; dev_reserved_percent := 0; dev_args := NoArgs |}.

(** A machine with one disk [sda] carrying two partitions and a volume
    group [sys] with a logical volume [root] on the second one. *)
Definition sample_devices : list Device :=
  [ existing_device 0 DiskDevice "sda" (existing_format (Some "disklabel") false) [] 100000;
    existing_device 1 PartitionDevice "sda1" (existing_format (Some "ext4") true) [0] 20000;
    existing_device 2 PartitionDevice "sda2" (existing_format (Some "lvmpv") false) [0] 80000;
    existing_device 3 LVMVolumeGroupDevice "sys" (existing_format None false) [2] 80000;
    existing_device 4 LVMLogicalVolumeDevice "sys-root" (existing_format (Some "xfs") true)
                    [3] 40000 ].

Definition world_of (ds : list Device) : World :=
  {| doAutoPart := true;
     encryptionPassphrase := None;
     escrowCertificates := ∅;
     autoPartSettings := mkAutoPart false "" None false None;
     config := mkConfig 0 [] [] false;
     tree := mkTree ds [] (length ds);
     bootloader := mkBootLoader false ∅ "" "" None None [] None;
     leavebootorder := false;
     ksdata_onPart := ∅ |}.

Definition sample_world : World := world_of sample_devices.

Definition sample_engine : Engine := refEngine ["sda"; "sda1"; "sda2"].

(** A host where the firewall tool is installed on the target, the time
    service is not running, every command succeeds, and [realm discover]
    names the realm and one package it requires. *)
Definition sample_host : Host := {|
  ROOT_PATH := "/mnt/sysimage";
  NTP_PACKAGE := "chrony";
  NTP_SERVICE := "chronyd";
  path_exists := λ _ p, String.eqb p "/mnt/sysimage/usr/bin/firewall-offline-cmd";
  exec_result := λ _ _ _ _, inr 0%Z;
  popen_result := λ _ _,
    Some ("example.com" +:+ String (ascii_of_nat 10) "  required-package: sssd",
          "", 0%Z);
  service_running := λ _ _, false;
  can_touch_runtime_system := λ _, true
|}.

(** An installation whose package list holds [pkgs]. *)
Definition installer_of (pkgs : list string) : Installer :=
  mkInstaller [] pkgs [] [].

(** [part <mountpoint> --size=<size>], every other option at its
    default. *)
Definition part (mountpoint : string) (size : Z) : PartitionData.t :=
  {| PartitionData.lineno := 1; PartitionData.onbiosdisk := "";
     PartitionData.disk := ""; PartitionData.mountpoint := mountpoint;
     PartitionData.fstype := ""; PartitionData.fsopts := "";
     PartitionData.fsprofile := ""; PartitionData.label := "";
     PartitionData.onPart := ""; PartitionData.recommended := false;
     PartitionData.hibernation := false; PartitionData.grow := false;
     PartitionData.format := true; PartitionData.resize := false;
     PartitionData.primOnly := false; PartitionData.size := size;
     PartitionData.maxSizeMB := 0; PartitionData.encrypted := false;
     PartitionData.passphrase := ""; PartitionData.cipher := "";
     PartitionData.escrowcert := ""; PartitionData.backuppassphrase := false |}.

(** [part <mountpoint> --onpart=<onpart> --noformat [--resize --size=<size>]] *)
Definition part_noformat (mountpoint onpart : string) (resize : bool) (size : Z)
  : PartitionData.t :=
  {| PartitionData.lineno := 1; PartitionData.onbiosdisk := "";
     PartitionData.disk := ""; PartitionData.mountpoint := mountpoint;
     PartitionData.fstype := ""; PartitionData.fsopts := "";
     PartitionData.fsprofile := ""; PartitionData.label := "";
     PartitionData.onPart := onpart; PartitionData.recommended := false;
     PartitionData.hibernation := false; PartitionData.grow := false;
     PartitionData.format := false; PartitionData.resize := resize;
     PartitionData.primOnly := false; PartitionData.size := size;
     PartitionData.maxSizeMB := 0; PartitionData.encrypted := false;
     PartitionData.passphrase := ""; PartitionData.cipher := "";
     PartitionData.escrowcert := ""; PartitionData.backuppassphrase := false |}.

(** [part <mountpoint> --size=<size> --fstype=<fstype>] *)
Definition part_fstype (mountpoint fstype : string) (size : Z) : PartitionData.t :=
  {| PartitionData.lineno := 2; PartitionData.onbiosdisk := "";
     PartitionData.disk := ""; PartitionData.mountpoint := mountpoint;
     PartitionData.fstype := fstype; PartitionData.fsopts := "";
     PartitionData.fsprofile := ""; PartitionData.label := "";
     PartitionData.onPart := ""; PartitionData.recommended := false;
     PartitionData.hibernation := false; PartitionData.grow := false;
     PartitionData.format := true; PartitionData.resize := false;
     PartitionData.primOnly := false; PartitionData.size := size;
     PartitionData.maxSizeMB := 0; PartitionData.encrypted := false;
     PartitionData.passphrase := ""; PartitionData.cipher := "";
     PartitionData.escrowcert := ""; PartitionData.backuppassphrase := false |}.

(** [part <mountpoint> --size=<size> --encrypted --passphrase=<passphrase>] *)
Definition part_encrypted (mountpoint : string) (size : Z) (passphrase : string)
  : PartitionData.t :=
  {| PartitionData.lineno := 1; PartitionData.onbiosdisk := "";
     PartitionData.disk := ""; PartitionData.mountpoint := mountpoint;
     PartitionData.fstype := ""; PartitionData.fsopts := "";
     PartitionData.fsprofile := ""; PartitionData.label := "";
     PartitionData.onPart := ""; PartitionData.recommended := false;
     PartitionData.hibernation := false; PartitionData.grow := false;
     PartitionData.format := true; PartitionData.resize := false;
     PartitionData.primOnly := false; PartitionData.size := size;
     PartitionData.maxSizeMB := 0; PartitionData.encrypted := true;
     PartitionData.passphrase := passphrase; PartitionData.cipher := "";
     PartitionData.escrowcert := ""; PartitionData.backuppassphrase := false |}.

(** [part <mountpoint> --onpart=<onpart> --encrypted], with no
    passphrase of its own. *)
Definition part_onpart_encrypted (mountpoint onpart : string) : PartitionData.t :=
  {| PartitionData.lineno := 2; PartitionData.onbiosdisk := "";
     PartitionData.disk := ""; PartitionData.mountpoint := mountpoint;
     PartitionData.fstype := ""; PartitionData.fsopts := "";
     PartitionData.fsprofile := ""; PartitionData.label := "";
     PartitionData.onPart := onpart; PartitionData.recommended := false;
     PartitionData.hibernation := false; PartitionData.grow := false;
     PartitionData.format := true; PartitionData.resize := false;
     PartitionData.primOnly := false; PartitionData.size := 0;
     PartitionData.maxSizeMB := 0; PartitionData.encrypted := true;
     PartitionData.passphrase := ""; PartitionData.cipher := "";
     PartitionData.escrowcert := ""; PartitionData.backuppassphrase := false |}.

(** [logvol <mountpoint> --vgname=<vgname> --name=<name> --size=<size>],
    with [--noformat], [--resize] and [--encrypted] as given. *)
Definition lv (mountpoint vgname name : string) (size : Z)
    (format resize encrypted : bool) : LogVolData.t :=
  {| LogVolData.lineno := 3; LogVolData.vgname := vgname; LogVolData.name := name;
     LogVolData.mountpoint := mountpoint; LogVolData.fstype := "";
     LogVolData.fsopts := ""; LogVolData.fsprofile := ""; LogVolData.label := "";
     LogVolData.recommended := false; LogVolData.hibernation := false;
     LogVolData.grow := false; LogVolData.format := format;
     LogVolData.preexist := false; LogVolData.resize := resize;
     LogVolData.thin_pool := false; LogVolData.thin_volume := false;
     LogVolData.pool_name := ""; LogVolData.size := size;
     LogVolData.maxSizeMB := 0; LogVolData.percent := 0;
     LogVolData.metadata_size := 0; LogVolData.chunk_size := 0;
     LogVolData.encrypted := encrypted; LogVolData.passphrase := "";
     LogVolData.cipher := ""; LogVolData.escrowcert := "";
     LogVolData.backuppassphrase := false |}.

(** [volgroup <vgname> <physvols>] *)
Definition volgroup_of (vgname : string) (physvols : list string) : VolGroupData.t :=
  {| VolGroupData.lineno := 4; VolGroupData.vgname := vgname;
     VolGroupData.physvols := physvols; VolGroupData.preexist := false;
     VolGroupData.format := true; VolGroupData.pesize := 4096;
     VolGroupData.reserved_space := 0; VolGroupData.reserved_percent := 0 |}.

(** [raid <mountpoint> --device=<device> --level=1 <members>] *)
Definition raid_of (mountpoint device : string) (members : list string) : RaidData.t :=
  {| RaidData.lineno := 5; RaidData.device := device; RaidData.preexist := false;
     RaidData.mountpoint := mountpoint; RaidData.fstype := ""; RaidData.fsopts := "";
     RaidData.fsprofile := ""; RaidData.label := ""; RaidData.format := true;
     RaidData.members := members; RaidData.level := "1"; RaidData.spares := 0;
     RaidData.encrypted := false; RaidData.passphrase := ""; RaidData.cipher := "";
     RaidData.escrowcert := ""; RaidData.backuppassphrase := false |}.

(** A machine whose only disk is protected (the installation medium). *)
Definition protected_world : World :=
  world_of
    [ {| dev_id := 0; dev_type := DiskDevice; dev_name := "sr0"; dev_req_name := None;
         dev_path := "/dev/sr0"; dev_format := existing_format (Some "iso9660") true;
         dev_parents := []; dev_exists := true; dev_size := 4000;
         dev_currentSize := 4000; dev_protected := true;
         dev_partitionable := false; dev_partitioned := false; dev_peSize := 0;
         dev_reserved_space := 0; dev_reserved_percent := 0; dev_args := NoArgs |} ].

(** The sample machine with one more partition, [sda3], that is
    formatted as LUKS and has no LUKS device above it. *)
Definition luks_world : World :=
  world_of (sample_devices
            ++ [existing_device 5 PartitionDevice "sda3"
                                (existing_format (Some "luks") false) [0] 1000]).

(** The commands of a kickstart file that asks for nothing. *)
Definition empty_ksdata : KSData :=
  {| clearpart := ClearPart.mk 0 [] [] false;
     bootloader_cmd := Bootloader.mk 0 "mbr" "" "" false None [] "" false;
     autopart := AutoPart.mk false false "" "" "" false None;
     partition := []; raid := []; volgroup := []; logvol := []; btrfs := [] |}.

(** * Properties *)

(** ** Running computations *)

Section Running.
Context {S : Type}.

Lemma bind_run {A B} (m : ST S A) (f : A → ST S B) s :
  (m ≫= f) s = match m s with
               | (s', inr a) => f a s'
               | (s', inl e) => (s', inl e)
               end.
Proof. reflexivity. Qed.

Lemma bind_inr {A B} (m : ST S A) (f : A → ST S B) s s1 a :
  m s = (s1, inr a) → (m ≫= f) s = f a s1.
Proof. intros E. rewrite bind_run, E. reflexivity. Qed.

Lemma bind_inl {A B} (m : ST S A) (f : A → ST S B) s s1 e :
  m s = (s1, inl e) → (m ≫= f) s = (s1, inl e).
Proof. intros E. rewrite bind_run, E. reflexivity. Qed.

Lemma bind_inv {A B} (m : ST S A) (f : A → ST S B) s s' b :
  (m ≫= f) s = (s', inr b) →
  ∃ s1 a, m s = (s1, inr a) ∧ f a s1 = (s', inr b).
Proof.
  rewrite bind_run. destruct (m s) as [s1 [e|a]]; intros E.
  - discriminate.
  - eauto.
Qed.

Lemma try_except_inr {A} (m : ST S A) h s s' a :
  m s = (s', inr a) → try_except m h s = (s', inr a).
Proof. unfold try_except. intros ->. reflexivity. Qed.

(** A computation keeps a component [f] of the state when no run of it,
    failing or not, changes [f]. *)
Definition keeps {A X} (f : S → X) (m : ST S A) : Prop :=
  ∀ s, f (m s).1 = f s.

Lemma keeps_ret {A X} (f : S → X) (a : A) : keeps f (mret a).
Proof. intros s. reflexivity. Qed.

Lemma keeps_raise {A X} (f : S → X) e : keeps f (raise (A:=A) e).
Proof. intros s. reflexivity. Qed.

Lemma keeps_gets {A X} (f : S → X) (g : S → A) : keeps f (gets g).
Proof. intros s. reflexivity. Qed.

Lemma keeps_modify {X} (f : S → X) (g : S → S) :
  (∀ s, f (g s) = f s) → keeps f (modify g).
Proof. intros H s. apply H. Qed.

Lemma keeps_bind {A B X} (f : S → X) (m : ST S A) (k : A → ST S B) :
  keeps f m → (∀ a, keeps f (k a)) → keeps f (m ≫= k).
Proof.
  intros Hm Hk s. rewrite bind_run. specialize (Hm s).
  destruct (m s) as [s1 [e|a]]; simpl in *.
  - exact Hm.
  - rewrite Hk. exact Hm.
Qed.

Lemma keeps_try_except {A X} (f : S → X) (m : ST S A) h :
  keeps f m → (∀ e k, h e = Some k → keeps f k) → keeps f (try_except m h).
Proof.
  intros Hm Hh s. unfold try_except. specialize (Hm s).
  destruct (m s) as [s1 [e|a]]; simpl in *; [|exact Hm].
  destruct (h e) as [k|] eqn:E; simpl; [|exact Hm].
  rewrite (Hh _ _ E). exact Hm.
Qed.

Lemma keeps_forM {A B X} (f : S → X) (l : list A) (k : A → ST S B) :
  (∀ a, keeps f (k a)) → keeps f (forM l k).
Proof.
  intros Hk. induction l as [|a l IH]; simpl.
  - apply keeps_ret.
  - apply keeps_bind; [apply Hk|]. intros b.
    apply keeps_bind; [exact IH|]. intros bs. apply keeps_ret.
Qed.

End Running.

(** One step of a proof that a computation keeps a component: the
    structure of the computation is followed, and a branch is taken apart
    by cases. *)
Ltac keeps_step :=
  lazymatch goal with
  | |- keeps _ (mret _) => apply keeps_ret
  | |- keeps _ (raise _) => apply keeps_raise
  | |- keeps _ (gets _) => apply keeps_gets
  | |- keeps _ (modify _) => apply keeps_modify; intros; try reflexivity
  | |- keeps _ (mbind _ _) => apply keeps_bind; [|intros]
  | |- keeps _ (try_except _ _) => apply keeps_try_except; [|intros]
  | |- keeps _ (forM _ _) => apply keeps_forM; intros
  | |- keeps _ (if ?b then _ else _) => destruct b
  | |- keeps _ (match ?x with _ => _ end) => destruct x
  | |- _ => fail "no step"
  end.

Create HintDb keeps_db.

Ltac keeps_auto :=
  repeat first
    [ solve [ eauto with keeps_db nocore ]
    | progress simplify_eq/=
    | match goal with
      | H : match ?e with _ => _ end = Some _ |- keeps _ _ => destruct e
      end
    | keeps_step ].

(** ** What the handlers leave alone *)

(** The handlers write the device tree, [ksdata.onPart], the default
    passphrase and the certificate cache, and nothing else after their
    first statements: a component [f] of the world that none of these
    writes touch is kept by every part of a handler. *)
Section Frame.
Context {E : Engine} {X : Type} (f : World → X).
Hypothesis f_tree : ∀ t w, f (set_tree t w) = f w.
Hypothesis f_onPart : ∀ m w, f (set_ksdata_onPart m w) = f w.
Hypothesis f_passphrase : ∀ p w, f (set_encryptionPassphrase p w) = f w.
Hypothesis f_certs : ∀ c w, f (set_escrowCertificates c w) = f w.

Lemma keeps_registerAction a : keeps f (registerAction a).
Proof using f_tree. unfold registerAction. keeps_auto. Qed.
Hint Resolve keeps_registerAction : keeps_db.

Lemma keeps_nextID : keeps f nextID.
Proof using f_tree. intros w. apply f_tree. Qed.
Hint Resolve keeps_nextID : keeps_db.

Lemma keeps_createDevice d : keeps f (createDevice d).
Proof using f_tree. unfold createDevice. keeps_auto. Qed.
Hint Resolve keeps_createDevice : keeps_db.

Lemma keeps_destroyDevice d : keeps f (destroyDevice d).
Proof using f_tree. unfold destroyDevice. keeps_auto. Qed.
Hint Resolve keeps_destroyDevice : keeps_db.

Lemma keeps_update_device i g : keeps f (update_device i g).
Proof using f_tree. unfold update_device. keeps_auto. Qed.
Hint Resolve keeps_update_device : keeps_db.

Lemma keeps_set_mount dev mp opts : keeps f (set_mount dev mp opts).
Proof using f_tree. unfold set_mount. keeps_auto. Qed.
Hint Resolve keeps_set_mount : keeps_db.

Lemma keeps_newDevice ty name fmt parents size pe args :
  keeps f (newDevice ty name fmt parents size pe args).
Proof using f_tree. unfold newDevice. keeps_auto. Qed.
Hint Resolve keeps_newDevice : keeps_db.

Lemma keeps_engine_pass g : keeps f (engine_pass g).
Proof using f_tree. unfold engine_pass. keeps_auto. Qed.
Hint Resolve keeps_engine_pass : keeps_db.

Lemma keeps_getEscrowCertificate url : keeps f (getEscrowCertificate url).
Proof using f_certs. unfold getEscrowCertificate. keeps_auto. Qed.
Hint Resolve keeps_getEscrowCertificate : keeps_db.

Lemma keeps_removeExistingFormat_loop fuel deps :
  keeps f (removeExistingFormat_loop fuel deps).
Proof using f_tree.
  revert deps. induction fuel as [|fuel IH]; intros [|d deps]; simpl; keeps_auto.
Qed.
Hint Resolve keeps_removeExistingFormat_loop : keeps_db.

Lemma keeps_removeExistingFormat device : keeps f (removeExistingFormat device).
Proof using f_tree. unfold removeExistingFormat. keeps_auto. Qed.
Hint Resolve keeps_removeExistingFormat : keeps_db.

Lemma keeps_newActionResizeFormat dev size : keeps f (newActionResizeFormat dev size).
Proof using. unfold newActionResizeFormat. keeps_auto. Qed.
Hint Resolve keeps_newActionResizeFormat : keeps_db.

Lemma keeps_newActionResizeDevice dev size : keeps f (newActionResizeDevice dev size).
Proof using. unfold newActionResizeDevice. keeps_auto. Qed.
Hint Resolve keeps_newActionResizeDevice : keeps_db.

Lemma keeps_createFormat device fmt : keeps f (createFormat device fmt).
Proof using f_tree. unfold createFormat. keeps_auto. Qed.
Hint Resolve keeps_createFormat : keeps_db.

Lemma keeps_invalid_target_size {A} lineno size dev e (k : KS A) :
  invalid_target_size lineno size dev e = Some k → keeps f k.
Proof using. destruct e; simpl; intros; simplify_eq. apply keeps_raise. Qed.
Hint Resolve keeps_invalid_target_size : keeps_db.

Lemma keeps_resize_noformat lineno dev size : keeps f (resize_noformat lineno dev size).
Proof using f_tree. unfold resize_noformat. keeps_auto. Qed.
Hint Resolve keeps_resize_noformat : keeps_db.

Lemma keeps_delete_old_claimant mp : keeps f (delete_old_claimant mp).
Proof using f_tree. unfold delete_old_claimant. keeps_auto. Qed.
Hint Resolve keeps_delete_old_claimant : keeps_db.

Lemma keeps_remember_passphrase p : keeps f (remember_passphrase p).
Proof using f_passphrase. unfold remember_passphrase. keeps_auto. Qed.
Hint Resolve keeps_remember_passphrase : keeps_db.

Lemma keeps_luks_wrap pre target fmt p c e b : keeps f (luks_wrap pre target fmt p c e b).
Proof using f_tree f_certs. unfold luks_wrap. keeps_auto. Qed.
Hint Resolve keeps_luks_wrap : keeps_db.

Lemma keeps_get_member lineno expected what spec member :
  keeps f (get_member lineno expected what spec member).
Proof using. unfold get_member. keeps_auto. Qed.
Hint Resolve keeps_get_member : keeps_db.

(** *** The partition handler *)

Lemma keeps_part_bios_disk self : keeps f (PartitionData.bios_disk self).
Proof using. unfold PartitionData.bios_disk. keeps_auto. Qed.
Hint Resolve keeps_part_bios_disk : keeps_db.

Lemma keeps_part_placeholder self ty msg : keeps f (PartitionData.placeholder self ty msg).
Proof using f_onPart. unfold PartitionData.placeholder. keeps_auto. Qed.
Hint Resolve keeps_part_placeholder : keeps_db.

Lemma keeps_part_classify self : keeps f (PartitionData.classify self).
Proof using f_onPart. unfold PartitionData.classify. keeps_auto. Qed.
Hint Resolve keeps_part_classify : keeps_db.

Lemma keeps_part_noformat self l : keeps f (PartitionData.noformat self l).
Proof using f_tree. unfold PartitionData.noformat. keeps_auto. Qed.
Hint Resolve keeps_part_noformat : keeps_db.

Lemma keeps_part_disk_parents self disk : keeps f (PartitionData.disk_parents self disk).
Proof using. unfold PartitionData.disk_parents. keeps_auto. Qed.
Hint Resolve keeps_part_disk_parents : keeps_db.

Lemma keeps_part_formatted self disk l : keeps f (PartitionData.formatted self disk l).
Proof using f_tree f_passphrase f_certs. unfold PartitionData.formatted. keeps_auto. Qed.
Hint Resolve keeps_part_formatted : keeps_db.

(** *** The raid handler *)

Lemma keeps_raid_placeholder self devname ty msg :
  keeps f (RaidData.placeholder self devname ty msg).
Proof using f_onPart. unfold RaidData.placeholder. keeps_auto. Qed.
Hint Resolve keeps_raid_placeholder : keeps_db.

Lemma keeps_raid_classify self devname : keeps f (RaidData.classify self devname).
Proof using f_onPart. unfold RaidData.classify. keeps_auto. Qed.
Hint Resolve keeps_raid_classify : keeps_db.

Lemma keeps_raid_noformat self devname mp : keeps f (RaidData.noformat self devname mp).
Proof using f_tree. unfold RaidData.noformat. keeps_auto. Qed.
Hint Resolve keeps_raid_noformat : keeps_db.

Lemma keeps_raid_formatted self devname ty mp :
  keeps f (RaidData.formatted self devname ty mp).
Proof using f_tree f_passphrase f_certs. unfold RaidData.formatted. keeps_auto. Qed.
Hint Resolve keeps_raid_formatted : keeps_db.

(** *** The logvol handler *)

Lemma keeps_lv_noformat self vg l : keeps f (LogVolData.noformat self vg l).
Proof using f_tree. unfold LogVolData.noformat. keeps_auto. Qed.
Hint Resolve keeps_lv_noformat : keeps_db.

Lemma keeps_lv_check_new self vg l : keeps f (LogVolData.check_new self vg l).
Proof using. unfold LogVolData.check_new. keeps_auto. Qed.
Hint Resolve keeps_lv_check_new : keeps_db.

Lemma keeps_lv_formatted self vg pool l : keeps f (LogVolData.formatted self vg pool l).
Proof using f_tree f_passphrase f_certs. unfold LogVolData.formatted. keeps_auto. Qed.
Hint Resolve keeps_lv_formatted : keeps_db.

End Frame.

#[global] Hint Resolve keeps_registerAction keeps_nextID keeps_createDevice
  keeps_destroyDevice keeps_update_device keeps_set_mount keeps_newDevice
  keeps_engine_pass keeps_getEscrowCertificate keeps_removeExistingFormat
  keeps_newActionResizeFormat keeps_newActionResizeDevice keeps_createFormat
  keeps_invalid_target_size keeps_resize_noformat keeps_delete_old_claimant keeps_remember_passphrase
  keeps_luks_wrap keeps_get_member keeps_part_bios_disk keeps_part_classify
  keeps_part_noformat keeps_part_disk_parents keeps_part_formatted
  keeps_raid_classify keeps_raid_noformat keeps_raid_formatted
  keeps_lv_noformat keeps_lv_check_new keeps_lv_formatted : keeps_db.

#[global] Hint Extern 1 (∀ _ _, _ = _) => (intros; reflexivity) : keeps_db.

(** ** The automatic-partitioning flag *)

Lemma set_then_keeps {A} (rest : KS A) w :
  keeps doAutoPart rest →
  doAutoPart ((modify (set_doAutoPart false);; rest) w).1 = false.
Proof. intros H. rewrite bind_run. simpl. rewrite H. reflexivity. Qed.

Lemma part_disables_autopart {E : Engine} self w :
  doAutoPart (PartitionData.execute self w).1 = false.
Proof. unfold PartitionData.execute. apply set_then_keeps. keeps_auto. Qed.

Lemma raid_disables_autopart {E : Engine} self w :
  doAutoPart (RaidData.execute self w).1 = false.
Proof.
  unfold RaidData.execute. rewrite bind_run. simpl.
  apply set_then_keeps. keeps_auto.
Qed.

Lemma volgroup_disables_autopart {E : Engine} self w :
  doAutoPart (VolGroupData.execute self w).1 = false.
Proof. unfold VolGroupData.execute. apply set_then_keeps. keeps_auto. Qed.

Lemma logvol_disables_autopart {E : Engine} self w :
  doAutoPart (LogVolData.execute self w).1 = false.
Proof. unfold LogVolData.execute. apply set_then_keeps. keeps_auto. Qed.

Lemma btrfs_disables_autopart {E : Engine} self w :
  doAutoPart (BTRFSData.execute self w).1 = false.
Proof. unfold BTRFSData.execute. apply set_then_keeps. keeps_auto. Qed.

Section Preserving.
Context {S : Type} (P : S → Prop).

(** A computation preserves [P] when every run from a state where [P]
    holds, failing or not, ends in a state where [P] holds. *)
Definition preserves {A} (m : ST S A) : Prop := ∀ s, P s → P (m s).1.

Lemma preserves_ret {A} (a : A) : preserves (mret a).
Proof. intros s H. exact H. Qed.

Lemma preserves_bind {A B} (m : ST S A) (k : A → ST S B) :
  preserves m → (∀ a, preserves (k a)) → preserves (m ≫= k).
Proof.
  intros Hm Hk s H. rewrite bind_run. specialize (Hm s H).
  destruct (m s) as [s1 [e|a]]; simpl in *.
  - exact Hm.
  - apply Hk, Hm.
Qed.

Lemma preserves_forM {A B} (l : list A) (k : A → ST S B) :
  (∀ a, preserves (k a)) → preserves (forM l k).
Proof.
  intros Hk. induction l as [|a l IH]; simpl.
  - apply preserves_ret.
  - apply preserves_bind; [apply Hk|]. intros b.
    apply preserves_bind; [exact IH|]. intros bs. apply preserves_ret.
Qed.

End Preserving.

Lemma keeps_preserves {S A X} (f : S → X) (x : X) (m : ST S A) :
  keeps f m → preserves (λ s, f s = x) m.
Proof. intros H s Hs. rewrite H. exact Hs. Qed.

(** Once the flag is off, the list-bearing commands of the manual steps
    leave it off. *)
Lemma manual_step_keeps_autopart_off {E : Engine} ksdata s :
  s ∈ [PartitionStep; RaidStep; VolGroupStep; LogVolStep; BTRFSStep] →
  preserves (λ w, doAutoPart w = false) (run_step ksdata s).
Proof.
  intros Hs.
  assert (Hp : ∀ self, preserves (λ w, doAutoPart w = false) (PartitionData.execute self))
    by (intros self w _; apply part_disables_autopart).
  assert (Hr : ∀ self, preserves (λ w, doAutoPart w = false) (RaidData.execute self))
    by (intros self w _; apply raid_disables_autopart).
  assert (Hv : ∀ self, preserves (λ w, doAutoPart w = false) (VolGroupData.execute self))
    by (intros self w _; apply volgroup_disables_autopart).
  assert (Hl : ∀ self, preserves (λ w, doAutoPart w = false) (LogVolData.execute self))
    by (intros self w _; apply logvol_disables_autopart).
  assert (Hb : ∀ self, preserves (λ w, doAutoPart w = false) (BTRFSData.execute self))
    by (intros self w _; apply btrfs_disables_autopart).
  repeat (apply elem_of_cons in Hs as [->|Hs]); [..|by apply elem_of_nil in Hs]; simpl.
  - unfold Partition_execute. apply preserves_bind; [by apply preserves_forM|].
    intros _. case_bool_decide; [|apply preserves_ret].
    apply keeps_preserves. keeps_auto.
  - unfold Raid_execute. apply preserves_bind; [by apply preserves_forM|].
    intros _. apply preserves_ret.
  - unfold VolGroup_execute. apply preserves_bind; [by apply preserves_forM|].
    intros _. apply preserves_ret.
  - unfold LogVol_execute. apply preserves_bind; [by apply preserves_forM|].
    intros _. case_bool_decide; [|apply preserves_ret].
    apply keeps_preserves. keeps_auto.
  - unfold BTRFS_execute. apply preserves_bind; [by apply preserves_forM|].
    intros _. apply preserves_ret.
Qed.

(** C10: every execution of a partition, raid, logical-volume or btrfs
    sub-item handler leaves the storage state's automatic-partitioning
    flag [doAutoPart] at [False], whether the handler returns or raises;
    and once the flag is off, each of the manual steps of the run
    (partition, raid, volgroup, logvol, btrfs) leaves it off, so that
    automatic partitioning stays disabled after a manual sub-item has
    run. *)
Theorem sub_item_handlers_disable_autopart {E : Engine} :
  (∀ self w, doAutoPart (PartitionData.execute self w).1 = false) ∧
  (∀ self w, doAutoPart (RaidData.execute self w).1 = false) ∧
  (∀ self w, doAutoPart (LogVolData.execute self w).1 = false) ∧
  (∀ self w, doAutoPart (BTRFSData.execute self w).1 = false) ∧
  (∀ ksdata s w,
     s ∈ [PartitionStep; RaidStep; VolGroupStep; LogVolStep; BTRFSStep] →
     doAutoPart w = false → doAutoPart (run_step ksdata s w).1 = false).
Proof.
  split; [exact part_disables_autopart|].
  split; [exact raid_disables_autopart|].
  split; [exact logvol_disables_autopart|].
  split; [exact btrfs_disables_autopart|].
  intros ksdata s w Hs Hw. by apply manual_step_keeps_autopart_off.
Qed.

(** ** The orchestrator *)

Lemma call_run {E : Engine} ksdata s log w :
  call ksdata s (log, w)
  = ((log ++ [s], (run_step ksdata s w).1), (run_step ksdata s w).2).
Proof. unfold call. destruct (run_step ksdata s w). reflexivity. Qed.

(** The orchestrator after the clear-partitions call. *)
Lemma doKickstartStorage_run {E : Engine} ksdata log w :
  doKickstartStorage ksdata (log, w)
  = match run_step ksdata ClearPartStep w with
    | (w1, inl e) => ((log ++ [ClearPartStep], w1), inl e)
    | (w1, inr _) =>
      if negb (bool_decide (eligible_disks w1 ≠ []))
      then ((log ++ [ClearPartStep], w1), inr tt)
      else (call ksdata BootloaderStep;; call ksdata AutoPartStep;;
            call ksdata PartitionStep;; call ksdata RaidStep;;
            call ksdata VolGroupStep;; call ksdata LogVolStep;;
            call ksdata BTRFSStep;; call ksdata SetUpBootLoaderStep)
             (log ++ [ClearPartStep], w1)
    end.
Proof.
  unfold doKickstartStorage. rewrite bind_run, call_run.
  destruct (run_step ksdata ClearPartStep w) as [w1 [e|[]]]; simpl; [reflexivity|].
  rewrite bind_run. simpl. destruct (negb _); reflexivity.
Qed.

(** A sequence of calls logs a prefix of the calls it was to make, in
    their order, and all of them when it returns. *)
Lemma calls_logged {E : Engine} ksdata (s : Step) (rest : Run unit) (todo : list Step) :
  (∀ log w, ∃ done, (rest (log, w)).1.1 = log ++ done ∧ done `prefix_of` todo
                    ∧ (returned (rest (log, w)).2 → done = todo)) →
  ∀ log w, ∃ done, ((call ksdata s;; rest) (log, w)).1.1 = log ++ done
                   ∧ done `prefix_of` (s :: todo)
                   ∧ (returned ((call ksdata s;; rest) (log, w)).2 → done = s :: todo).
Proof.
  intros IH log w. rewrite bind_run, call_run.
  destruct (run_step ksdata s w) as [w1 [e|[]]]; simpl.
  - exists [s]. split; [reflexivity|]. split.
    + by apply prefix_cons, prefix_nil.
    + intros [? [=]].
  - destruct (IH (log ++ [s]) w1) as (done & Hlog & Hpre & Hall).
    exists (s :: done). rewrite Hlog, <- app_assoc. split; [reflexivity|]. split.
    + by apply prefix_cons.
    + intros Hr. by rewrite Hall.
Qed.

Lemma last_call_logged {E : Engine} ksdata (s : Step) log w :
  ∃ done, (call ksdata s (log, w)).1.1 = log ++ done ∧ done `prefix_of` [s]
          ∧ (returned (call ksdata s (log, w)).2 → done = [s]).
Proof. rewrite call_run. exists [s]. simpl. by repeat split. Qed.

Lemma run_all_cons_inr {S} (m : ST S unit) ms s s1 :
  m s = (s1, inr tt) → run_all (m :: ms) s = run_all ms s1.
Proof. intros H. cbn [run_all]. by rewrite bind_run, H. Qed.

Lemma run_all_cons_inl {S} (m : ST S unit) ms s s1 e :
  m s = (s1, inl e) → run_all (m :: ms) s = (s1, inl e).
Proof. intros H. cbn [run_all]. by rewrite bind_run, H. Qed.

Ltac run_all_eval :=
  repeat (erewrite run_all_cons_inr by eassumption);
  try (erewrite run_all_cons_inl by eassumption);
  cbn [run_all mret ST_ret fst snd].

Ltac first_commands n :=
  exists n; unfold all_steps; cbn [firstn Nat.sub];
  rewrite <- ?app_assoc; cbn [app];
  split; [lia|]; split; [by run_all_eval|]; split; [run_all_eval; by eexists|].

Ltac orchestrator_step :=
  rewrite ?bind_run, call_run; cbn [run_step fst snd].

(** C3: in every run the orchestrator executes the storage commands in
    the one fixed order clear-partitions, bootloader placement, automatic
    partitioning, partition, raid, volume-group, logical-volume, BTRFS,
    bootloader finalization.  What a run does is what the first [n] of
    these nine commands do when they are run one after another, each on
    the state the one before it left, for some [n] from 1 to 9: the state
    and the outcome of the run are theirs, and the calls it has made are
    the first [n] call sites.  All commands before the [n]-th have
    returned.  A run that returns has executed all nine, or only the
    first, when no eligible disk was left after clearing; a run that
    executes more than the first had an eligible disk left. *)
Theorem doKickstartStorage_fixed_order {E : Engine} ksdata log w :
  let commands : list (KS unit) :=
    [ClearPart.execute (clearpart ksdata);
     Bootloader.execute (bootloader_cmd ksdata);
     AutoPart.execute (autopart ksdata);
     Partition_execute (partition ksdata);
     Raid_execute (raid ksdata);
     VolGroup_execute (volgroup ksdata);
     LogVol_execute (logvol ksdata);
     BTRFS_execute (btrfs ksdata);
     λ w, match setUpBootLoader w with
          | inl e => (w, inl e)
          | inr w' => (w', inr tt)
          end] in
  ∃ n,
    1 ≤ n ≤ 9
    ∧ doKickstartStorage ksdata (log, w)
      = ((log ++ take n all_steps, (run_all (take n commands) w).1),
         (run_all (take n commands) w).2)
    ∧ returned (run_all (take (n - 1) commands) w).2
    ∧ (returned (doKickstartStorage ksdata (log, w)).2 →
       n = 9
       ∨ (n = 1 ∧ eligible_disks (ClearPart.execute (clearpart ksdata) w).1 = []))
    ∧ (1 < n → eligible_disks (ClearPart.execute (clearpart ksdata) w).1 ≠ []).
Proof.
  intros commands. subst commands.
  rewrite doKickstartStorage_run. cbn [run_step].
  destruct (ClearPart.execute (clearpart ksdata) w) as [w1 [e|[]]] eqn:H1.
  { first_commands 1.
    split; [intros [? [=]]|lia]. }
  cbn [fst].
  case_bool_decide as Hd; cbn [negb]; last first.
  { first_commands 1.
    split; [|lia]. intros _. by right. }
  orchestrator_step.
  destruct (Bootloader.execute _ w1) as [w2 [e|[]]] eqn:H2; cbn [fst snd].
  { first_commands 2.
    split; [intros [? [=]]|done]. }
  orchestrator_step.
  destruct (AutoPart.execute _ w2) as [w3 [e|[]]] eqn:H3; cbn [fst snd].
  { first_commands 3.
    split; [intros [? [=]]|done]. }
  orchestrator_step.
  destruct (Partition_execute _ w3) as [w4 [e|[]]] eqn:H4; cbn [fst snd].
  { first_commands 4.
    split; [intros [? [=]]|done]. }
  orchestrator_step.
  destruct (Raid_execute _ w4) as [w5 [e|[]]] eqn:H5; cbn [fst snd].
  { first_commands 5.
    split; [intros [? [=]]|done]. }
  orchestrator_step.
  destruct (VolGroup_execute _ w5) as [w6 [e|[]]] eqn:H6; cbn [fst snd].
  { first_commands 6.
    split; [intros [? [=]]|done]. }
  orchestrator_step.
  destruct (LogVol_execute _ w6) as [w7 [e|[]]] eqn:H7; cbn [fst snd].
  { first_commands 7.
    split; [intros [? [=]]|done]. }
  orchestrator_step.
  destruct (BTRFS_execute _ w7) as [w8 [e|[]]] eqn:H8; cbn [fst snd].
  { first_commands 8.
    split; [intros [? [=]]|done]. }
  rewrite call_run. cbn [run_step fst snd].
  exists 9. unfold all_steps. cbn [firstn Nat.sub].
  rewrite <- ?app_assoc. cbn [app].
  split; [lia|]. split; [|split; [run_all_eval; by eexists|]].
  - run_all_eval. rewrite bind_run. by destruct (setUpBootLoader w8).
  - destruct (setUpBootLoader w8) as [e|w9]; cbn [fst snd];
      (split; [|done]); [intros [? [=]]|by left].
Qed.

(** C2, as the code has it: when the clear-partitions step returns and
    no eligible disk remains (every disk is hidden or protected), the
    orchestrator returns at once and without raising: the
    clear-partitions call is the only call of the run, none of the later
    steps (bootloader, autopart, partition, raid, volgroup, logvol,
    btrfs, bootloader finalization) is run, and the world is as
    clear-partitions left it. *)
Theorem doKickstartStorage_no_eligible_disk {E : Engine} ksdata log w w1 :
  run_step ksdata ClearPartStep w = (w1, inr tt) →
  eligible_disks w1 = [] →
  doKickstartStorage ksdata (log, w) = ((log ++ [ClearPartStep], w1), inr tt).
Proof.
  intros Hclear Hnone. rewrite doKickstartStorage_run, Hclear, Hnone.
  rewrite bool_decide_false; [reflexivity|]. intros Hne. by apply Hne.
Qed.

(** The claim C2 as the spec words it fails on a machine whose only disk
    is protected: no eligible disk remains after clearing, and the
    orchestrator returns normally; it raises no error of any kind. *)
Lemma doKickstartStorage_no_disk_is_no_error :
  let run := doKickstartStorage (E:=sample_engine) empty_ksdata ([], protected_world) in
  eligible_disks run.1.2 = []
  ∧ run.1.1 = [ClearPartStep]
  ∧ run.2 = inr tt
  ∧ ¬ ∃ e, run.2 = inl e.
Proof.
  vm_compute. repeat split; try reflexivity. intros [e [=]].
Qed.

Lemma doKickstartStorage_no_eligible_disk_witness :
  doKickstartStorage (E:=sample_engine) empty_ksdata ([], protected_world)
  = (([] ++ [ClearPartStep], protected_world), inr tt).
Proof.
  apply (doKickstartStorage_no_eligible_disk (E:=sample_engine)); reflexivity.
Defined.

(** On the sample machine a run that asks for nothing makes all nine
    calls, in order. *)
Example doKickstartStorage_sample_run :
  (doKickstartStorage (E:=sample_engine) empty_ksdata ([], sample_world)).1.1 = all_steps.
Proof. reflexivity. Qed.

(** ** The device resolver *)

Lemma truthy_true s : truthy s = true ↔ s ≠ "".
Proof.
  unfold truthy. rewrite negb_true_iff. split.
  - intros H ->. discriminate.
  - intros H. destruct (String.eqb_spec s ""); [done|reflexivity].
Qed.

(** C9, as the code has it: [deviceMatches] looks the specification up
    in the [/dev] namespace (a specification that starts with [/dev/] as
    it is, any other as the normalized path of [/dev/] followed by it) and
    returns the glob expansion followed by the direct single-device
    lookup when that is a device the glob expansion lacks: the result
    holds exactly the devices of either lookup; the direct match is never
    added a second time, so the result has no duplicates when the glob
    expansion has none; when neither lookup matches the result is the
    empty list; when the direct lookup finds a device and the glob
    expansion finds no other, the result is that one device; and when the
    direct lookup finds nothing the result is the glob expansion, whatever
    its length. *)
Theorem deviceMatches_union {E : Engine} (spec : string) :
  let fs := full_spec spec in
  (startswith spec "/dev/" = true → fs = spec)
  ∧ (startswith spec "/dev/" = false → fs = normpath ("/dev/" +:+ spec))
  ∧ (∀ x, x ∈ deviceMatches spec
          ↔ x ∈ udev_resolve_glob fs ∨ (udev_resolve_devspec fs = Some x ∧ x ≠ ""))
  ∧ (∀ d, udev_resolve_devspec fs = Some d → d ∈ udev_resolve_glob fs →
          deviceMatches spec = udev_resolve_glob fs)
  ∧ (NoDup (udev_resolve_glob fs) → NoDup (deviceMatches spec))
  ∧ (udev_resolve_glob fs = [] → udev_resolve_devspec fs = None →
     deviceMatches spec = [])
  ∧ (∀ d, udev_resolve_devspec fs = Some d → d ≠ "" →
          NoDup (udev_resolve_glob fs) →
          (∀ x, x ∈ udev_resolve_glob fs → x = d) →
          deviceMatches spec = [d])
  ∧ (udev_resolve_devspec fs = None → deviceMatches spec = udev_resolve_glob fs).
Proof.
  intros fs. unfold deviceMatches. fold fs.
  split; [unfold fs, full_spec; by intros ->|].
  split; [unfold fs, full_spec; by intros ->|].
  split.
  { intros x. destruct (udev_resolve_devspec fs) as [d|] eqn:Hd.
    - destruct (truthy d) eqn:Ht; simpl.
      + apply truthy_true in Ht. case_bool_decide as Hin; simpl.
        * split; [by left|]. intros [?|[Hs _]]; by simplify_eq.
        * rewrite elem_of_app, list_elem_of_singleton. split.
          -- intros [?| ->]; [by left|by right].
          -- intros [?|[Hs _]]; [by left|right; by simplify_eq].
      + split; [by left|]. intros [?|[Hs Hne]]; [done|]. simplify_eq.
        apply truthy_true in Hne. congruence.
    - split; [by left|]. intros [?|[Hs _]]; by simplify_eq. }
  split.
  { intros d -> Hin. rewrite (bool_decide_true _ Hin). simpl.
    by rewrite andb_false_r. }
  split.
  { intros Hnd. destruct (udev_resolve_devspec fs) as [d|]; [|done].
    destruct (truthy d); simpl; [|done].
    case_bool_decide as Hin; simpl; [done|].
    apply NoDup_app. split; [done|]. split; [|apply NoDup_singleton].
    intros x Hx ->%list_elem_of_singleton. done. }
  split.
  { by intros -> ->. }
  split.
  { intros d -> Hne Hnd Hall. apply truthy_true in Hne. rewrite Hne. simpl.
    destruct (udev_resolve_glob fs) as [|x l] eqn:Hg.
    - rewrite bool_decide_false; [done|]. apply not_elem_of_nil.
    - assert (x = d) as -> by (apply Hall; left).
      rewrite bool_decide_true by left. simpl.
      destruct l as [|y l]; [done|].
      assert (y = d) as -> by (apply Hall; right; left).
      apply NoDup_cons in Hnd as [Hnd _]. exfalso. apply Hnd. left. }
  { by intros ->. }
Qed.

(** The claim C9 as the spec words it fails on a machine with the one
    disk [sda] and the specification [sd*]: exactly one device matches,
    [deviceMatches] returns that one device, and the direct lookup of the
    specification finds nothing, so the result is not the direct
    lookup. *)
Lemma deviceMatches_glob_only_is_not_direct :
  deviceMatches (E:=refEngine ["sda"]) "sd*" = ["sda"]
  ∧ udev_resolve_devspec (Engine:=refEngine ["sda"])
      (full_spec (E:=refEngine ["sda"]) "sd*") = None
  ∧ ¬ (∀ spec d, deviceMatches (E:=refEngine ["sda"]) spec = [d] →
                 udev_resolve_devspec (Engine:=refEngine ["sda"])
                   (full_spec (E:=refEngine ["sda"]) spec) = Some d).
Proof.
  split; [reflexivity|]. split; [reflexivity|].
  intros H. specialize (H "sd*" "sda" eq_refl). discriminate H.
Qed.

Lemma deviceMatches_union_witness :
  deviceMatches (E:=sample_engine) "sda1" = ["sda1"]
  ∧ deviceMatches (E:=sample_engine) "nothing" = [].
Proof.
  split.
  - destruct (deviceMatches_union (E:=sample_engine) "sda1")
      as (_ & _ & _ & _ & _ & _ & Hone & _).
    apply Hone.
    + reflexivity.
    + discriminate.
    + apply NoDup_singleton.
    + intros x Hx. by apply list_elem_of_singleton in Hx.
  - destruct (deviceMatches_union (E:=sample_engine) "nothing")
      as (_ & _ & _ & _ & _ & Hnone & _).
    apply Hnone; reflexivity.
Defined.

(** Running a computation whose steps are known: the monad's operations
    are unfolded and the matches on known outcomes reduced. *)
Ltac run :=
  cbv beta iota zeta delta
      [mbind mret ST_bind ST_ret raise gets modify try_except fst snd].

Tactic Notation "run" "in" hyp(H) :=
  cbv beta iota zeta delta
      [mbind mret ST_bind ST_ret raise gets modify try_except fst snd] in H.

(** ** Resizing an existing device that is not formatted *)

(** The actions a resize registers, by the engine's answers: both
    actions in the order of [resize_actions] when the engine accepts
    them, the first one alone when it refuses the second, none when it
    refuses the first. *)
Lemma resize_noformat_run {E : Engine} lineno dev size w :
  let first_ok := if (size <? dev_currentSize dev)%Z then resize_format_ok dev size
                  else resize_device_ok dev size in
  let second_ok := if (size <? dev_currentSize dev)%Z then resize_device_ok dev size
                   else resize_format_ok dev size in
  let k := if first_ok then if second_ok then 2 else 1 else 0 in
  actions (tree (resize_noformat lineno dev size w).1)
  = actions (tree w) ++ take k (resize_actions dev size)
  ∧ k ≤ 2
  ∧ (returned (resize_noformat lineno dev size w).2 ↔ k = 2).
Proof.
  unfold resize_noformat, resize_actions, newActionResizeFormat, newActionResizeDevice.
  unfold registerAction, invalid_target_size.
  destruct (size <? dev_currentSize dev)%Z;
    destruct (resize_format_ok dev size), (resize_device_ok dev size);
    run; cbn; rewrite <- ?app_assoc, ?app_nil_r;
    (split; [reflexivity|]); (split; [lia|]).
  all: try (split; [intros _; reflexivity | intros _; by eexists]).
  all: try (split; [intros [? [=]] | intros [=]]).
Qed.

Lemma part_classify_size {E : Engine} self w w1 l :
  PartitionData.classify self w = (w1, inr l) →
  PartitionData.l_size l = PartitionData.size_after_swap self w.
Proof.
  unfold PartitionData.classify, PartitionData.size_after_swap,
    PartitionData.placeholder.
  intros H. run in H.
  repeat (case_match; simplify_eq/=; try reflexivity).
Qed.

Lemma part_classify_mountpoint {E : Engine} self w w1 l :
  PartitionData.classify self w = (w1, inr l) →
  PartitionData.l_mountpoint l = PartitionData.final_mountpoint self.
Proof.
  unfold PartitionData.classify, PartitionData.final_mountpoint,
    PartitionData.placeholder.
  intros H. run in H.
  repeat (case_match; simplify_eq/=; try reflexivity).
Qed.

(** Every run of the partition handler on a request that binds an
    existing partition without formatting it and asks for a resize:
    either it registers nothing and raises, or the partition was found
    and what it registers is the start of [resize_actions], all of it
    exactly when the handler returns. *)
Lemma part_noformat_resize {E : Engine} self w :
  PartitionData.format self = false → PartitionData.resize self = true →
  let size := PartitionData.size_after_swap self w in
  let w' := (PartitionData.execute self w).1 in
  let r := (PartitionData.execute self w).2 in
  (actions (tree w') = actions (tree w) ∧ ¬ returned r)
  ∨ ∃ dev k, resolveDevice (tree w) (PartitionData.onPart self) = Some dev
             ∧ actions (tree w') = actions (tree w) ++ take k (resize_actions dev size)
             ∧ k ≤ 2
             ∧ (returned r ↔ k = 2).
Proof.
  intros Hformat Hresize size.
  assert (Hfail : ∀ e : exn, ¬ returned (A:=unit) (inl e)) by (intros e [? [=]]).
  unfold PartitionData.execute. rewrite bind_run. cbn [modify].
  set (w0 := set_doAutoPart false w).
  rewrite bind_run.
  pose proof (keeps_part_bios_disk id self w0) as Hw1.
  destruct (PartitionData.bios_disk self w0) as [w1 [e|disk]]; simpl in Hw1; subst w1;
    cbn [fst snd]; [by left|].
  rewrite bind_run.
  pose proof (keeps_part_classify tree ltac:(reflexivity) self w0) as Ht.
  pose proof (λ w1 l, part_classify_size self w0 w1 l) as Hsize.
  destruct (PartitionData.classify self w0) as [w2 [e|l]]; cbn [fst snd] in *;
    [left; by rewrite Ht|].
  specialize (Hsize w2 l eq_refl).
  change (PartitionData.size_after_swap self w0) with size in Hsize.
  change (tree w0) with (tree w) in Ht.
  rewrite Hformat. cbn [negb]. unfold PartitionData.noformat.
  destruct (truthy (PartitionData.onPart self)); cbn [negb];
    [|left; cbn; by rewrite Ht].
  rewrite bind_run. cbn [gets]. rewrite Ht.
  destruct (resolveDevice (tree w) (PartitionData.onPart self)) as [dev|];
    [|left; cbn; by rewrite Ht].
  right. exists dev. rewrite Hresize, bind_run, Hsize.
  destruct (resize_noformat_run (PartitionData.lineno self) dev size w2)
    as (Hact & Hle & Hret).
  revert Hact Hle Hret. cbv zeta.
  match goal with |- context [take ?k _] => generalize k end. intros k.
  rewrite Ht.
  destruct (resize_noformat _ dev size w2) as [w3 [e|[]]]; cbn [fst snd]; intros Hact Hle Hret.
  - exists k. split; [reflexivity|]. split; [exact Hact|]. split; [exact Hle|].
    split; [by intros ?%Hfail|]. intros Hk. by apply Hret in Hk as ?%Hfail.
  - exists 2. split; [reflexivity|].
    assert (k = 2) as -> by (apply Hret; by eexists).
    split; [exact Hact|]. split; [done|]. split; [done|]. intros _. by eexists.
Qed.

(** The same for the logical-volume handler: the volume group and the
    volume are looked up by name first. *)
Lemma lv_noformat_resize {E : Engine} self w :
  LogVolData.format self = false → LogVolData.resize self = true →
  let size := LogVolData.l_size (LogVolData.classify self w) in
  let w' := (LogVolData.execute self w).1 in
  let r := (LogVolData.execute self w).2 in
  (actions (tree w') = actions (tree w) ∧ ¬ returned r)
  ∨ ∃ vg dev k,
      getDeviceByName (tree w)
        (default (LogVolData.vgname self) (ksdata_onPart w !! LogVolData.vgname self))
      = Some vg
      ∧ getDeviceByName (tree w) (LogVolData.lv_name vg (LogVolData.name self)) = Some dev
      ∧ actions (tree w') = actions (tree w) ++ take k (resize_actions dev size)
      ∧ k ≤ 2
      ∧ (returned r ↔ k = 2).
Proof.
  intros Hformat Hresize size.
  assert (Hfail : ∀ e : exn, ¬ returned (A:=unit) (inl e)) by (intros e [? [=]]).
  unfold LogVolData.execute. rewrite bind_run. cbn [modify].
  set (w0 := set_doAutoPart false w).
  rewrite bind_run. cbn [gets id].
  change (LogVolData.classify self w0) with (LogVolData.classify self w).
  change (tree w0) with (tree w). change (ksdata_onPart w0) with (ksdata_onPart w).
  fold size.
  destruct (negb _ && _); [left; split; [reflexivity|apply Hfail]|].
  destruct (getDeviceByName (tree w) _) as [vg|] eqn:Hvg; [|left; split; [reflexivity|apply Hfail]].
  rewrite bind_run.
  assert (Hpool : ∀ (m : KS (option Device)), keeps id m → 
            ∀ k : option Device → KS unit,
              (∀ p, k p = LogVolData.noformat self vg (LogVolData.classify self w)) →
              match m w0 with
              | (s', inr a) => k a s'
              | (s', inl e) => (s', inl e)
              end
              = match m w0 with
                | (_, inr _) => LogVolData.noformat self vg (LogVolData.classify self w) w0
                | (_, inl e) => (w0, inl e)
                end).
  { intros m Hm k Hk. specialize (Hm w0). destruct (m w0) as [s' [e|a]];
      simpl in Hm; subst s'; [reflexivity|]. by rewrite Hk. }
  rewrite Hpool; [|keeps_auto|intros p; by rewrite Hformat]. clear Hpool.
  match goal with |- context [match ?m with _ => _ end] => destruct m as [? [e|pool]] end;
    [left; split; [reflexivity|apply Hfail]|].
  unfold LogVolData.noformat.
  destruct (truthy (LogVolData.name self)); cbn [negb]; [|left; split; [reflexivity|apply Hfail]].
  rewrite bind_run. cbn [gets]. change (tree w0) with (tree w).
  destruct (getDeviceByName (tree w) (LogVolData.lv_name vg _)) as [dev|] eqn:Hdev;
    [|left; split; [reflexivity|apply Hfail]].
  right. exists vg, dev. rewrite Hresize, bind_run. fold size.
  destruct (resize_noformat_run (LogVolData.lineno self) dev size w0)
    as (Hact & Hle & Hret).
  revert Hact Hle Hret. cbv zeta.
  match goal with |- context [take ?k _] => generalize k end. intros k.
  change (tree w0) with (tree w).
  destruct (resize_noformat _ dev size w0) as [w3 [e|[]]]; cbn [fst snd]; intros Hact Hle Hret.
  - exists k. split; [reflexivity|]. split; [exact Hdev|]. split; [exact Hact|].
    split; [exact Hle|]. split; [by intros ?%Hfail|]. intros Hk. by apply Hret in Hk as ?%Hfail.
  - exists 2. split; [reflexivity|]. split; [exact Hdev|].
    assert (k = 2) as -> by (apply Hret; by eexists).
    split; [exact Hact|]. split; [done|]. split; [done|]. intros _. by eexists.
Qed.

(** C1: for every resize of a pre-existing device bound with
    do-not-format, by the partition handler as by the logical-volume
    handler: when the handler returns, the actions it registered are
    exactly the pair resize-format, resize-device, in that order, if the
    requested size is strictly less than the device's current size, and
    exactly the pair resize-device, resize-format otherwise; and when it
    raises (the engine refused a size, or the device was not found) what
    it registered is a proper prefix of that pair, so the two actions are
    never registered in the other order. *)
Theorem resize_of_existing_device_order {E : Engine} :
  (∀ self w w',
     PartitionData.execute self w = (w', inr tt) →
     PartitionData.format self = false → PartitionData.resize self = true →
     ∃ dev, resolveDevice (tree w) (PartitionData.onPart self) = Some dev
       ∧ let size := PartitionData.size_after_swap self w in
         actions (tree w')
         = actions (tree w)
           ++ (if (size <? dev_currentSize dev)%Z
               then [ActionResizeFormat (dev_id dev) size;
                     ActionResizeDevice (dev_id dev) size]
               else [ActionResizeDevice (dev_id dev) size;
                     ActionResizeFormat (dev_id dev) size]))
  ∧ (∀ self w w',
       LogVolData.execute self w = (w', inr tt) →
       LogVolData.format self = false → LogVolData.resize self = true →
       ∃ vg dev,
         getDeviceByName (tree w)
           (default (LogVolData.vgname self) (ksdata_onPart w !! LogVolData.vgname self))
         = Some vg
         ∧ getDeviceByName (tree w) (LogVolData.lv_name vg (LogVolData.name self))
           = Some dev
         ∧ let size := LogVolData.l_size (LogVolData.classify self w) in
           actions (tree w')
           = actions (tree w)
             ++ (if (size <? dev_currentSize dev)%Z
                 then [ActionResizeFormat (dev_id dev) size;
                       ActionResizeDevice (dev_id dev) size]
                 else [ActionResizeDevice (dev_id dev) size;
                       ActionResizeFormat (dev_id dev) size]))
  ∧ (∀ self w e,
       (PartitionData.execute self w).2 = inl e →
       PartitionData.format self = false → PartitionData.resize self = true →
       actions (tree (PartitionData.execute self w).1) = actions (tree w)
       ∨ ∃ dev, resolveDevice (tree w) (PartitionData.onPart self) = Some dev
           ∧ actions (tree (PartitionData.execute self w).1)
             = actions (tree w)
               ++ take 1 (resize_actions dev (PartitionData.size_after_swap self w)))
  ∧ (∀ self w e,
       (LogVolData.execute self w).2 = inl e →
       LogVolData.format self = false → LogVolData.resize self = true →
       actions (tree (LogVolData.execute self w).1) = actions (tree w)
       ∨ ∃ vg dev,
           getDeviceByName (tree w)
             (default (LogVolData.vgname self)
                      (ksdata_onPart w !! LogVolData.vgname self)) = Some vg
           ∧ getDeviceByName (tree w) (LogVolData.lv_name vg (LogVolData.name self))
             = Some dev
           ∧ actions (tree (LogVolData.execute self w).1)
             = actions (tree w)
               ++ take 1 (resize_actions dev
                            (LogVolData.l_size (LogVolData.classify self w)))).
Proof.
  assert (Hprefix : ∀ (l : list Action) k, k ≠ 2 → k ≤ 2 →
                      take k l = [] ∨ take k l = take 1 l).
  { intros l k Hk Hle. destruct k as [|[|k]]; [by left|by right|lia]. }
  split; [|split; [|split]].
  - intros self w w' Hrun Hformat Hresize.
    destruct (part_noformat_resize self w Hformat Hresize)
      as [[_ Hno]|(dev & k & Hdev & Hact & Hle & Hret)]; rewrite Hrun in *; simpl in *.
    + exfalso. apply Hno. by eexists.
    + exists dev. split; [exact Hdev|].
      assert (k = 2) as -> by (apply Hret; by eexists).
      rewrite Hact. unfold resize_actions. by destruct (_ <? _)%Z.
  - intros self w w' Hrun Hformat Hresize.
    destruct (lv_noformat_resize self w Hformat Hresize)
      as [[_ Hno]|(vg & dev & k & Hvg & Hdev & Hact & Hle & Hret)]; rewrite Hrun in *;
      simpl in *.
    + exfalso. apply Hno. by eexists.
    + exists vg, dev. split; [exact Hvg|]. split; [exact Hdev|].
      assert (k = 2) as -> by (apply Hret; by eexists).
      rewrite Hact. unfold resize_actions. by destruct (_ <? _)%Z.
  - intros self w e Hrun Hformat Hresize.
    destruct (part_noformat_resize self w Hformat Hresize)
      as [[Hsame _]|(dev & k & Hdev & Hact & Hle & Hret)]; [by left|].
    assert (k ≠ 2) as Hk.
    { intros Hk. apply Hret in Hk as [? Hk]. rewrite Hrun in Hk. discriminate. }
    destruct (Hprefix (resize_actions dev (PartitionData.size_after_swap self w))
                      k Hk Hle) as [H0|H1].
    + left. by rewrite Hact, H0, app_nil_r.
    + right. exists dev. split; [exact Hdev|]. by rewrite Hact, H1.
  - intros self w e Hrun Hformat Hresize.
    destruct (lv_noformat_resize self w Hformat Hresize)
      as [[Hsame _]|(vg & dev & k & Hvg & Hdev & Hact & Hle & Hret)]; [by left|].
    assert (k ≠ 2) as Hk.
    { intros Hk. apply Hret in Hk as [? Hk]. rewrite Hrun in Hk. discriminate. }
    destruct (Hprefix (resize_actions dev
                         (LogVolData.l_size (LogVolData.classify self w)))
                      k Hk Hle) as [H0|H1].
    + left. by rewrite Hact, H0, app_nil_r.
    + right. exists vg, dev. split; [exact Hvg|]. split; [exact Hdev|].
      by rewrite Hact, H1.
Qed.

(** On the sample machine: [part /mnt --onpart=sda1 --noformat --resize]
    to 1000 (a shrink of the 20000 of [sda1]) and to 30000 (a grow), and
    [logvol / --vgname=sys --name=root --noformat --resize] to 1000 (a
    shrink of the 40000 of [sys-root]). *)
Lemma resize_of_existing_device_order_witness :
  actions (tree (PartitionData.execute (E:=sample_engine)
                   (part_noformat "/mnt" "sda1" true 1000) sample_world).1)
  = [ActionResizeFormat 1 1000; ActionResizeDevice 1 1000]
  ∧ actions (tree (PartitionData.execute (E:=sample_engine)
                     (part_noformat "/mnt" "sda1" true 30000) sample_world).1)
    = [ActionResizeDevice 1 30000; ActionResizeFormat 1 30000]
  ∧ actions (tree (LogVolData.execute (E:=sample_engine)
                     (lv "/" "sys" "root" 1000 false true false) sample_world).1)
    = [ActionResizeFormat 4 1000; ActionResizeDevice 4 1000].
Proof.
  destruct (resize_of_existing_device_order (E:=sample_engine)) as (Hp & Hl & _).
  split; [|split].
  - destruct (Hp (part_noformat "/mnt" "sda1" true 1000) sample_world _ eq_refl
                 eq_refl eq_refl) as (dev & Hdev & Hact).
    vm_compute in Hdev. injection Hdev as <-. exact Hact.
  - destruct (Hp (part_noformat "/mnt" "sda1" true 30000) sample_world _ eq_refl
                 eq_refl eq_refl) as (dev & Hdev & Hact).
    vm_compute in Hdev. injection Hdev as <-. exact Hact.
  - destruct (Hl (lv "/" "sys" "root" 1000 false true false) sample_world _ eq_refl
                 eq_refl eq_refl) as (vg & dev & Hvg & Hdev & Hact).
    vm_compute in Hvg. injection Hvg as <-.
    vm_compute in Hdev. injection Hdev as <-. exact Hact.
Defined.

(** ** Members of raid, volgroup and btrfs requests *)

(** A round of the member loop reads the world and leaves it as it is. *)
Lemma get_member_run {E : Engine} lineno expected what spec member w :
  get_member lineno expected what spec member w
  = (w, match member_device w member with
        | Some dev =>
          if bool_decide (fmt_type (dev_format dev) = Some expected) then inr dev
          else inl (KickstartValueError lineno
                      (incorrect_format_msg what member (fmt_type (dev_format dev))))
        | None => inl (KickstartValueError lineno (undefined_member_msg member spec))
        end).
Proof.
  unfold get_member. run. cbn [id].
  destruct (member_device w member) as [dev|]; [|reflexivity].
  by destruct (bool_decide _).
Qed.

(** The loop raises what the first member that does not pass raises. *)
Lemma member_loop_first_failure {E : Engine} lineno expected what spec
    (pre post : list string) member w e :
  (∀ x, x ∈ pre → member_ok w expected x) →
  get_member lineno expected what spec member w = (w, inl e) →
  forM (pre ++ member :: post) (get_member lineno expected what spec) w = (w, inl e).
Proof.
  intros Hpre Hbad. induction pre as [|x pre IH]; simpl.
  - by rewrite bind_run, Hbad.
  - destruct (Hpre x) as (dev & Hdev & Hty); [left|].
    rewrite bind_run, get_member_run, Hdev, (bool_decide_true _ Hty).
    rewrite bind_run, IH; [reflexivity|]. intros y Hy. apply Hpre. by right.
Qed.

Lemma member_failure_undefined {E : Engine} lineno expected what spec member w :
  member_device w member = None →
  get_member lineno expected what spec member w
  = (w, inl (KickstartValueError lineno (undefined_member_msg member spec))).
Proof. intros H. by rewrite get_member_run, H. Qed.

Lemma member_failure_format {E : Engine} lineno expected what spec member w dev :
  member_device w member = Some dev →
  fmt_type (dev_format dev) ≠ Some expected →
  get_member lineno expected what spec member w
  = (w, inl (KickstartValueError lineno
               (incorrect_format_msg what member (fmt_type (dev_format dev))))).
Proof. intros H Hty. by rewrite get_member_run, H, (bool_decide_false _ Hty). Qed.

(** The raid handler up to its member loop. *)
Lemma raid_execute_loop {E : Engine} self w w1 ty mp :
  RaidData.classify self (RaidData.devicename self (tree w)) (set_doAutoPart false w)
  = (w1, inr (ty, mp)) →
  negb (String.eqb mp "") && not_absolute mp = false →
  RaidData.format self = true →
  ∀ e, forM (RaidData.members self)
            (get_member (RaidData.lineno self) "mdmember" "RAID member"
                        "RAID specification") w1 = (w1, inl e) →
       RaidData.execute self w = (w1, inl e).
Proof.
  intros Hclass Hsane Hformat e Hloop.
  unfold RaidData.execute. rewrite bind_run. cbn [gets].
  rewrite bind_run. cbn [modify]. rewrite bind_run, Hclass, Hsane, Hformat.
  cbn [negb]. unfold RaidData.formatted. by rewrite bind_run, Hloop.
Qed.

Lemma member_device_lookup {E : Engine} w member :
  member_device w member
  = match member_lookup w member with
    | Some d => if bool_decide (fmt_type (dev_format d) = Some "luks")
                then head (getChildren (tree w) d) else Some d
    | None => None
    end.
Proof. reflexivity. Qed.

(** The four ways in which a member fails, for a handler whose run is
    the failure of the member's round. *)
Lemma member_failure_cases {E : Engine} run w1 lineno expected what spec m :
  (∀ e, get_member lineno expected what spec m w1 = (w1, inl e) → run = (w1, inl e)) →
  member_failure run w1 lineno expected what spec m.
Proof.
  intros Hloop. repeat split.
  - intros Hnone. apply Hloop, member_failure_undefined.
    by rewrite member_device_lookup, Hnone.
  - intros d Hd Hluks Hnil. apply Hloop, member_failure_undefined.
    by rewrite member_device_lookup, Hd, (bool_decide_true _ Hluks), Hnil.
  - intros d c rest Hd Hluks Hc Hty. apply Hloop, member_failure_format; [|done].
    by rewrite member_device_lookup, Hd, (bool_decide_true _ Hluks), Hc.
  - intros d Hd Hluks Hty. apply Hloop, member_failure_format; [|done].
    by rewrite member_device_lookup, Hd, (bool_decide_false _ Hluks).
Qed.

(** A round of the member loop that raises changes nothing and raises
    one of the two errors, both [KickstartValueError]s of the line. *)
Lemma get_member_raises {E : Engine} lineno expected what spec m w w' e :
  get_member lineno expected what spec m w = (w', inl e) →
  w' = w
  ∧ (e = KickstartValueError lineno (undefined_member_msg m spec)
     ∨ ∃ ty, e = KickstartValueError lineno (incorrect_format_msg what m ty)).
Proof.
  rewrite get_member_run.
  destruct (member_device w m) as [dev|]; [|intros [= <- <-]; by eauto].
  case_bool_decide; [discriminate|]. intros [= <- <-]. eauto.
Qed.

(** C8, as the code has it: in a raid, volume-group or btrfs request
    (new or not) whose handler reaches its member list, the first listed
    member that does not pass decides the outcome, and nothing of the
    state has changed since the loop began.  A member that resolves to no
    device raises the "Tried to use undefined partition" error of the
    command, and so does a member that resolves to a LUKS device without
    a child; a member that stands for a device (the first child, for a
    LUKS device) whose format is not the membership format of the command
    ([mdmember], [lvmpv], [btrfs]) raises its "has incorrect format"
    error.  The two failures are one kind of error: every error of a
    round of the loop is a [KickstartValueError] of the command's line,
    and the two are told apart by their messages only, which are never
    the same. *)
Theorem member_failure_is_told_by_message {E : Engine} :
  (∀ self w w1 ty mp pre m post,
     RaidData.classify self (RaidData.devicename self (tree w)) (set_doAutoPart false w)
     = (w1, inr (ty, mp)) →
     negb (String.eqb mp "") && not_absolute mp = false →
     RaidData.format self = true →
     RaidData.members self = pre ++ m :: post →
     (∀ x, x ∈ pre → member_ok w1 "mdmember" x) →
     member_failure (RaidData.execute self w) w1 (RaidData.lineno self)
       "mdmember" "RAID member" "RAID specification" m)
  ∧ (∀ self w pre m post,
       VolGroupData.physvols self = pre ++ m :: post →
       (∀ x, x ∈ pre → member_ok w "lvmpv" x) →
       member_failure (VolGroupData.execute self w) (set_doAutoPart false w)
         (VolGroupData.lineno self) "lvmpv" "Physical Volume"
         "Volume Group specification" m)
  ∧ (∀ self w pre m post,
       BTRFSData.devices self = pre ++ m :: post →
       (∀ x, x ∈ pre → member_ok w "btrfs" x) →
       member_failure (BTRFSData.execute self w) (set_doAutoPart false w)
         (BTRFSData.lineno self) "btrfs" "BTRFS partition"
         "BTRFS volume specification" m)
  ∧ (∀ lineno expected what spec m w w' e,
       get_member lineno expected what spec m w = (w', inl e) →
       w' = w
       ∧ (e = KickstartValueError lineno (undefined_member_msg m spec)
          ∨ ∃ ty, e = KickstartValueError lineno (incorrect_format_msg what m ty)))
  ∧ (∀ what lineno lineno' m m' ty spec,
       what ∈ ["RAID member"; "Physical Volume"; "BTRFS partition"] →
       KickstartValueError lineno (incorrect_format_msg what m ty)
       ≠ KickstartValueError lineno' (undefined_member_msg m' spec)).
Proof.
  split; [|split; [|split; [|split]]].
  - intros self w w1 ty mp pre m post Hclass Hsane Hformat Hmem Hpre.
    apply member_failure_cases. intros e He.
    apply (raid_execute_loop _ _ _ _ _ Hclass Hsane Hformat).
    rewrite Hmem. by apply member_loop_first_failure.
  - intros self w pre m post Hmem Hpre.
    apply member_failure_cases. intros e He.
    unfold VolGroupData.execute. rewrite bind_run. cbn [modify].
    rewrite bind_run, Hmem.
    by rewrite (member_loop_first_failure _ _ _ _ pre post m
                  (set_doAutoPart false w) e Hpre He).
  - intros self w pre m post Hmem Hpre.
    apply member_failure_cases. intros e He.
    unfold BTRFSData.execute. rewrite bind_run. cbn [modify].
    rewrite bind_run, Hmem.
    by rewrite (member_loop_first_failure _ _ _ _ pre post m
                  (set_doAutoPart false w) e Hpre He).
  - intros lineno expected what spec m w w' e. apply get_member_raises.
  - intros what lineno lineno' m m' ty spec Hwhat Heq.
    injection Heq as _ Hmsg. unfold incorrect_format_msg, undefined_member_msg in Hmsg.
    repeat (apply elem_of_cons in Hwhat as [->|Hwhat]); [..|by apply elem_of_nil in Hwhat];
      simpl in Hmsg; discriminate Hmsg.
Qed.

(** The claim C8 as the spec words it fails on the sample machine with
    the LUKS partition [sda3].  A volume group over [sdz9], which is no
    device, and one over the ext4 partition [sda1] fail with the same
    kind of error, a [KickstartValueError] of line 4: the code has no
    second kind for the failure of the format.  And a volume group over
    [sda3], which resolves to a device whose format is not [lvmpv], does
    not fail with the error of the format but with the error of an
    undefined partition, since the LUKS device has no child. *)
Lemma luks_member_without_child_is_undefined :
  (VolGroupData.execute (E:=sample_engine) (volgroup_of "data" ["sdz9"]) luks_world).2
  = inl (KickstartValueError 4
           "Tried to use undefined partition sdz9 in Volume Group specification")
  ∧ (VolGroupData.execute (E:=sample_engine) (volgroup_of "data" ["sda1"]) luks_world).2
    = inl (KickstartValueError 4 "Physical Volume sda1 has incorrect format (ext4)")
  ∧ (∃ d, resolveDevice (Engine:=sample_engine) (tree luks_world) "sda3" = Some d
          ∧ fmt_type (dev_format d) = Some "luks"
          ∧ fmt_type (dev_format d) ≠ Some "lvmpv"
          ∧ getChildren (tree luks_world) d = [])
  ∧ (VolGroupData.execute (E:=sample_engine) (volgroup_of "data" ["sda3"]) luks_world).2
    = inl (KickstartValueError 4
             "Tried to use undefined partition sda3 in Volume Group specification").
Proof.
  split; [vm_compute; reflexivity|]. split; [vm_compute; reflexivity|].
  split; [|vm_compute; reflexivity].
  eexists. split; [vm_compute; reflexivity|]. by vm_compute.
Qed.

(** On the sample machine with the LUKS partition: a volume group over
    [sda2] (a physical volume) and a second member [sda3], the LUKS
    partition without a child. *)
Lemma member_failure_is_told_by_message_witness :
  VolGroupData.execute (E:=sample_engine) (volgroup_of "data" ["sda2"; "sda3"]) luks_world
  = (set_doAutoPart false luks_world,
     inl (KickstartValueError 4
            "Tried to use undefined partition sda3 in Volume Group specification")).
Proof.
  destruct (member_failure_is_told_by_message (E:=sample_engine)) as (_ & Hvg & _).
  assert (Hpre : ∀ x, x ∈ ["sda2"] → member_ok (E:=sample_engine) luks_world "lvmpv" x).
  { intros x ->%list_elem_of_singleton. eexists. split; reflexivity. }
  destruct (Hvg (volgroup_of "data" ["sda2"; "sda3"]) luks_world ["sda2"] "sda3" []
                eq_refl Hpre) as (_ & Hluks & _).
  apply (Hluks (existing_device 5 PartitionDevice "sda3"
                  (existing_format (Some "luks") false) [0] 1000));
    reflexivity.
Defined.

(** ** Placeholder labels *)

(** C6, the code at the failing input: on the sample machine the two
    requests [part pv.01 --onpart=sda1 --noformat] and
    [part pv.01 --onpart=sda2 --noformat] register the same placeholder
    one after the other, and the second registration returns like the
    first: no error is raised.  The check of lines 986-987 looks for a
    device of the placeholder's name, and a request bound to an existing
    partition creates none. *)
Lemma duplicate_placeholder_is_not_rejected :
  let first := PartitionData.execute (E:=sample_engine)
                 (part_noformat "pv.01" "sda1" false 0) sample_world in
  let second := PartitionData.execute (E:=sample_engine)
                  (part_noformat "pv.01" "sda2" false 0) first.1 in
  first.2 = inr tt
  ∧ ksdata_onPart first.1 !! "pv.01" = Some "sda1"
  ∧ second.2 = inr tt.
Proof. vm_compute. repeat split; reflexivity. Qed.

(** C7, the code at the failing input: the second of the two requests
    replaces the table's entry for the placeholder, silently; and the raid
    handler (lines 1173-1176) writes the entry before it checks for a
    duplicate, so that the entry is replaced even by the request it
    rejects. *)
Lemma placeholder_entry_is_overwritten :
  let first := PartitionData.execute (E:=sample_engine)
                 (part_noformat "pv.01" "sda1" false 0) sample_world in
  let second := PartitionData.execute (E:=sample_engine)
                  (part_noformat "pv.01" "sda2" false 0) first.1 in
  let request := PartitionData.execute (E:=sample_engine) (part "pv.01" 100) first.1 in
  let rejected := RaidData.execute (E:=sample_engine) (raid_of "pv.01" "md0" [])
                    request.1 in
  (ksdata_onPart first.1 !! "pv.01" = Some "sda1"
   ∧ second.2 = inr tt
   ∧ ksdata_onPart second.1 !! "pv.01" = Some "sda2")
  ∧ (ksdata_onPart request.1 !! "pv.01" = Some "sda1"
     ∧ rejected.2 = inl (KickstartValueError 5 "PV partition defined multiple times")
     ∧ ksdata_onPart rejected.1 !! "pv.01" = Some "md0").
Proof. vm_compute. repeat split; reflexivity. Qed.

(** ** The default passphrase *)

Lemma keeps_preserves_of {S A X} (f : S → X) (Q : X → Prop) (m : ST S A) :
  keeps f m → preserves (λ s, Q (f s)) m.
Proof. intros H s Hs. rewrite H. exact Hs. Qed.

Lemma preserves_raise {S A} (P : S → Prop) e : preserves P (raise (A:=A) e).
Proof. intros s H. exact H. Qed.

(** The default passphrase after a part of a handler of a request with
    the given [encrypted] flag and [passphrase], when it was [p0] before
    the handler: it is still [p0], or [p0] was unset, the request is
    encrypted and has a passphrase, and the default is that passphrase. *)
Definition default_passphrase_from (p0 : option string) (encrypted : bool)
    (passphrase : string) (p : option string) : Prop :=
  p = p0
  ∨ (truthy_opt p0 = false ∧ encrypted = true ∧ truthy passphrase = true
     ∧ p = Some passphrase).

Lemma remember_passphrase_run passphrase w :
  remember_passphrase passphrase w
  = (if truthy passphrase && negb (truthy_opt (encryptionPassphrase w))
     then set_encryptionPassphrase (Some passphrase) w else w, inr tt).
Proof.
  unfold remember_passphrase. run.
  by destruct (truthy passphrase && negb (truthy_opt (encryptionPassphrase w))).
Qed.

Lemma remember_passphrase_default p0 passphrase :
  preserves (λ w, default_passphrase_from p0 true passphrase (encryptionPassphrase w))
            (remember_passphrase passphrase).
Proof.
  intros w Hw. rewrite remember_passphrase_run.
  destruct (truthy passphrase) eqn:Hp; [|exact Hw].
  destruct (truthy_opt (encryptionPassphrase w)) eqn:Hc; [exact Hw|]. cbn.
  destruct Hw as [Hw|(_ & _ & _ & Hw)].
  - right. rewrite <- Hw. done.
  - rewrite Hw in Hc. simpl in Hc. congruence.
Qed.

(** The encryption block of a handler. *)
Lemma encryption_block_default {E : Engine} p0 (encrypted pre : bool) target fmt
    passphrase cipher escrowcert backup :
  preserves (λ w, default_passphrase_from p0 encrypted passphrase (encryptionPassphrase w))
    (if encrypted then
       remember_passphrase passphrase;;
       luks_wrap pre target fmt passphrase cipher escrowcert backup
     else mret tt).
Proof.
  destruct encrypted; [|apply preserves_ret].
  apply preserves_bind; [apply remember_passphrase_default|]. intros _.
  apply (keeps_preserves_of encryptionPassphrase). keeps_auto.
Qed.

Ltac keeps_passphrase :=
  apply (keeps_preserves_of encryptionPassphrase); solve [keeps_auto].

Lemma part_default_passphrase {E : Engine} self w :
  default_passphrase_from (encryptionPassphrase w) (PartitionData.encrypted self)
    (PartitionData.passphrase self)
    (encryptionPassphrase (PartitionData.execute self w).1).
Proof.
  assert (Hp : preserves
            (λ w', default_passphrase_from (encryptionPassphrase w)
                     (PartitionData.encrypted self) (PartitionData.passphrase self)
                     (encryptionPassphrase w'))
            (PartitionData.execute self)).
  { unfold PartitionData.execute.
    apply preserves_bind; [keeps_passphrase|]. intros _.
    apply preserves_bind; [keeps_passphrase|]. intros disk.
    apply preserves_bind; [keeps_passphrase|]. intros l.
    destruct (negb _); [keeps_passphrase|].
    unfold PartitionData.formatted.
    destruct (negb _); [apply preserves_raise|].
    apply preserves_bind; [keeps_passphrase|]. intros parents.
    apply preserves_bind; [keeps_passphrase|]. intros target.
    apply encryption_block_default. }
  apply Hp. by left.
Qed.

Lemma raid_default_passphrase {E : Engine} self w :
  default_passphrase_from (encryptionPassphrase w) (RaidData.encrypted self)
    (RaidData.passphrase self)
    (encryptionPassphrase (RaidData.execute self w).1).
Proof.
  assert (Hp : preserves
            (λ w', default_passphrase_from (encryptionPassphrase w)
                     (RaidData.encrypted self) (RaidData.passphrase self)
                     (encryptionPassphrase w'))
            (RaidData.execute self)).
  { unfold RaidData.execute.
    apply preserves_bind; [keeps_passphrase|]. intros dt.
    apply preserves_bind; [keeps_passphrase|]. intros _.
    apply preserves_bind; [keeps_passphrase|]. intros [ty mp].
    destruct (negb _ && _); [apply preserves_raise|].
    destruct (negb _); [keeps_passphrase|].
    unfold RaidData.formatted.
    apply preserves_bind; [keeps_passphrase|]. intros raidmems.
    destruct (negb _); [apply preserves_raise|].
    apply preserves_bind; [keeps_passphrase|]. intros target.
    apply encryption_block_default. }
  apply Hp. by left.
Qed.

Lemma lv_default_passphrase {E : Engine} self w :
  default_passphrase_from (encryptionPassphrase w) (LogVolData.encrypted self)
    (LogVolData.passphrase self)
    (encryptionPassphrase (LogVolData.execute self w).1).
Proof.
  assert (Hp : preserves
            (λ w', default_passphrase_from (encryptionPassphrase w)
                     (LogVolData.encrypted self) (LogVolData.passphrase self)
                     (encryptionPassphrase w'))
            (LogVolData.execute self)).
  { unfold LogVolData.execute.
    apply preserves_bind; [keeps_passphrase|]. intros _.
    apply preserves_bind; [keeps_passphrase|]. intros w1.
    destruct (negb _ && _); [apply preserves_raise|].
    destruct (getDeviceByName _ _) as [vg|]; [|apply preserves_raise].
    apply preserves_bind; [keeps_passphrase|]. intros pool.
    destruct (negb _); [keeps_passphrase|].
    unfold LogVolData.formatted.
    apply preserves_bind; [keeps_passphrase|]. intros _.
    destruct (negb _ && negb _); [apply preserves_raise|].
    apply preserves_bind; [keeps_passphrase|]. intros target.
    apply encryption_block_default. }
  apply Hp. by left.
Qed.

Lemma volgroup_keeps_passphrase {E : Engine} self :
  keeps encryptionPassphrase (VolGroupData.execute self).
Proof. unfold VolGroupData.execute. keeps_auto. Qed.

Lemma btrfs_keeps_passphrase {E : Engine} self :
  keeps encryptionPassphrase (BTRFSData.execute self).
Proof. unfold BTRFSData.execute. keeps_auto. Qed.

(** What [createDevice] does to the tree. *)
Lemma createDevice_run d w :
  createDevice d w
  = (set_tree (mkTree (devices (tree w) ++ [d])
                      (actions (tree w) ++ ActionCreateDevice (dev_id d)
                         :: (if bool_decide (is_Some (fmt_type (dev_format d)))
                             then [ActionCreateFormat (dev_id d) None] else []))
                      (next_id (tree w))) w,
     inr tt).
Proof.
  unfold createDevice, registerAction. run.
  destruct (bool_decide _); run; cbn; rewrite <- ?app_assoc, ?app_nil_r; reflexivity.
Qed.

(** What the device constructors do: the new object has the identity the
    counter held, and the counter moves on. *)
Lemma newDevice_run ty name fmt parents size pe args w :
  newDevice ty name fmt parents size pe args w
  = (set_tree (mkTree (devices (tree w)) (actions (tree w)) (S (next_id (tree w)))) w,
     inr {| dev_id := next_id (tree w); dev_type := ty;
            dev_name := name (next_id (tree w));
            dev_req_name := if bool_decide (ty = PartitionDevice)
                            then Some (name (next_id (tree w))) else None;
            dev_path := "/dev/" +:+ name (next_id (tree w)); dev_format := fmt;
            dev_parents := map dev_id parents; dev_exists := false;
            dev_size := size; dev_currentSize := 0;
            dev_protected := false; dev_partitionable := false;
            dev_partitioned := false; dev_peSize := pe;
            dev_reserved_space := 0; dev_reserved_percent := 0;
            dev_args := args |}).
Proof. reflexivity. Qed.

(** A new request joins the tree. *)
Lemma new_request_in_tree ty name fmt parents size pe args w w' request :
  (request ← newDevice ty name fmt parents size pe args;
   createDevice request;; mret request) w = (w', inr request) →
  request ∈ devices (tree w') ∧ dev_format request = fmt.
Proof.
  intros Hrun. apply bind_inv in Hrun as (w1 & r & Hnew & Hrun).
  rewrite newDevice_run in Hnew. simplify_eq.
  apply bind_inv in Hrun as (w2 & [] & Hcreate & Hrun).
  rewrite createDevice_run in Hcreate. run in Hrun. simplify_eq. cbn.
  split; [|reflexivity]. apply elem_of_app. right. by apply list_elem_of_singleton.
Qed.

(** The encryption layer on return: every device of the tree with the
    identity of [target] has taken a LUKS format that carries the
    passphrase given, and a new LUKS device above [target], which comes
    last, has the format asked for (that of the request, for a new
    request); the default passphrase is not touched. *)
Lemma luks_wrap_returns {E : Engine} pre target fmt passphrase cipher escrowcert
    backup w w' :
  luks_wrap pre target fmt passphrase cipher escrowcert backup w = (w', inr tt) →
  encryptionPassphrase w' = encryptionPassphrase w
  ∧ ∃ cert luksdev,
      devices (tree w')
      = map (λ d, if bool_decide (dev_id d = dev_id target)
                  then set_dev_format
                         (getFormat_luks passphrase
                            (if pre then dev_path target else "") cipher cert backup) d
                  else d)
            (devices (tree w))
        ++ [luksdev]
      ∧ dev_type luksdev = LUKSDevice
      ∧ dev_format luksdev = (if pre then fmt else dev_format target)
      ∧ dev_parents luksdev = [dev_id target].
Proof.
  intros Hrun.
  pose proof (keeps_luks_wrap encryptionPassphrase ltac:(reflexivity) ltac:(reflexivity)
                pre target fmt passphrase cipher escrowcert backup w) as Hp.
  rewrite Hrun in Hp. split; [exact Hp|].
  unfold luks_wrap in Hrun.
  apply bind_inv in Hrun as (w1 & cert & Hcert & Hrun).
  pose proof (keeps_getEscrowCertificate tree ltac:(reflexivity) escrowcert w) as Ht.
  rewrite Hcert in Ht. simpl in Ht.
  apply bind_inv in Hrun as (w2 & luksdev & Hluks & Hrun).
  exists cert.
  destruct pre; unfold update_device, newDevice, nextID in Hluks; run in Hluks;
    cbn in Hluks; simplify_eq;
    rewrite createDevice_run in Hrun; simplify_eq; cbn; rewrite Ht;
    eexists; repeat split; reflexivity.
Qed.

(** The tail of a handler that encrypts: the device or request [make]
    yields is wrapped.  On return the default passphrase is the
    request's own when the request has one and no default was set, and
    the default as it was otherwise. *)
Lemma encrypted_tail {E : Engine} (make : KS Device) pre fmt passphrase cipher
    escrowcert backup w w' :
  keeps encryptionPassphrase make →
  (target ← make;
   remember_passphrase passphrase;;
   luks_wrap pre target fmt passphrase cipher escrowcert backup) w = (w', inr tt) →
  encryptionPassphrase w'
  = (if truthy passphrase && negb (truthy_opt (encryptionPassphrase w))
     then Some passphrase else encryptionPassphrase w)
  ∧ ∃ w1 target cert luksdev,
      make w = (w1, inr target)
      ∧ devices (tree w')
        = map (λ d, if bool_decide (dev_id d = dev_id target)
                    then set_dev_format
                           (getFormat_luks passphrase
                              (if pre then dev_path target else "") cipher cert backup) d
                    else d)
              (devices (tree w1))
          ++ [luksdev]
      ∧ dev_type luksdev = LUKSDevice
      ∧ dev_format luksdev = (if pre then fmt else dev_format target)
      ∧ dev_parents luksdev = [dev_id target].
Proof.
  intros Hkeeps Hrun.
  apply bind_inv in Hrun as (w1 & target & Htarget & Hrun).
  pose proof (Hkeeps w) as Hp. rewrite Htarget in Hp. simpl in Hp.
  apply bind_inv in Hrun as (w2 & [] & Hrem & Hrun).
  rewrite remember_passphrase_run in Hrem. injection Hrem as <-.
  apply luks_wrap_returns in Hrun as (Hl & cert & luksdev & Hdevs & Hty & Hfmt & Hpar).
  split.
  - rewrite Hl, <- Hp. by destruct (truthy passphrase && _).
  - exists w1, target, cert, luksdev. split; [done|]. split; [|done].
    rewrite Hdevs. by destruct (truthy passphrase && _).
Qed.

(** From the tree after the wrap to what a reader of the tree sees. *)
Lemma wrapped_of_tail {E : Engine} (t' : DeviceTree) (pre : bool) passphrase cipher
    backup mp cert (target luksdev : Device) (ds : list Device) :
  devices t'
  = map (λ d, if bool_decide (dev_id d = dev_id target)
              then set_dev_format
                     (getFormat_luks passphrase
                        (if pre then dev_path target else "") cipher cert backup) d
              else d) ds
    ++ [luksdev] →
  dev_type luksdev = LUKSDevice →
  fmt_mountpoint (dev_format luksdev) = mp →
  dev_parents luksdev = [dev_id target] →
  (pre = false → target ∈ ds) →
  wrapped_with_passphrase t' pre passphrase cipher backup mp.
Proof.
  intros Hdevs Hty Hmp Hpar Hin.
  exists cert, target, luksdev. eexists. split; [exact Hdevs|].
  split; [done|]. split; [done|]. split; [done|]. split.
  - intros d (d0 & -> & Hd0)%list_elem_of_fmap Hid.
    case_bool_decide as Hd; [reflexivity|]. done.
  - intros Hpre. specialize (Hin Hpre).
    eexists. split.
    + apply list_elem_of_fmap. exists target. split; [reflexivity|exact Hin].
    + by rewrite bool_decide_true.
Qed.

Lemma raid_classify_mountpoint {E : Engine} self devname w w1 ty mp :
  RaidData.classify self devname w = (w1, inr (ty, mp)) →
  mp = RaidData.final_mountpoint self.
Proof.
  unfold RaidData.classify, RaidData.final_mountpoint, RaidData.placeholder.
  intros H. run in H.
  repeat (case_match; simplify_eq/=; try reflexivity).
Qed.

Lemma part_encrypted_wrapped {E : Engine} self w w' :
  PartitionData.execute self w = (w', inr tt) →
  PartitionData.format self = true →
  PartitionData.encrypted self = true →
  encryptionPassphrase w'
  = (if truthy (PartitionData.passphrase self)
        && negb (truthy_opt (encryptionPassphrase w))
     then Some (PartitionData.passphrase self) else encryptionPassphrase w)
  ∧ wrapped_with_passphrase (tree w') (truthy (PartitionData.onPart self))
      (PartitionData.passphrase self) (PartitionData.cipher self)
      (PartitionData.backuppassphrase self) (PartitionData.final_mountpoint self).
Proof.
  intros Hrun Hformat Henc. unfold PartitionData.execute in Hrun.
  apply bind_inv in Hrun as (w0 & [] & H0 & Hrun). run in H0. simplify_eq.
  apply bind_inv in Hrun as (w1 & disk & H1 & Hrun).
  pose proof (keeps_part_bios_disk id self (set_doAutoPart false w)) as Hw1.
  rewrite H1 in Hw1. simpl in Hw1. subst w1.
  apply bind_inv in Hrun as (w2 & l & H2 & Hrun).
  pose proof (keeps_part_classify encryptionPassphrase ltac:(reflexivity) self
                (set_doAutoPart false w)) as Hp2.
  rewrite H2 in Hp2. simpl in Hp2.
  apply part_classify_mountpoint in H2 as Hmp.
  rewrite Hformat in Hrun. cbn [negb] in Hrun.
  unfold PartitionData.formatted in Hrun.
  destruct (negb (truthy_opt _)); [discriminate|].
  apply bind_inv in Hrun as (w3 & parents & H3 & Hrun).
  pose proof (keeps_part_disk_parents id self disk w2) as Hw3.
  rewrite H3 in Hw3. simpl in Hw3. subst w3.
  rewrite Henc in Hrun.
  apply encrypted_tail in Hrun
    as (Hpass & w4 & target & cert & luksdev & Hmk & Hdevs & Hty & Hfmt & Hpar);
    [|keeps_auto].
  split; [by rewrite Hpass, Hp2|].
  eapply wrapped_of_tail; [exact Hdevs|exact Hty| |exact Hpar|].
  - rewrite Hfmt. destruct (truthy (PartitionData.onPart self)); [by rewrite <- Hmp|].
    rewrite <- Hmp.
    destruct (String.eqb _ "tmpfs").
    + apply new_request_in_tree in Hmk as [_ ->]. reflexivity.
    + apply bind_inv in Hmk as (wc & [] & _ & Hmk).
      apply new_request_in_tree in Hmk as [_ ->]. reflexivity.
  - intros Hon. rewrite Hon in Hmk.
    destruct (String.eqb _ "tmpfs").
    + by apply new_request_in_tree in Hmk as [? _].
    + apply bind_inv in Hmk as (wc & [] & _ & Hmk).
      by apply new_request_in_tree in Hmk as [? _].
Qed.

Lemma raid_encrypted_wrapped {E : Engine} self w w' :
  RaidData.execute self w = (w', inr tt) →
  RaidData.format self = true →
  RaidData.encrypted self = true →
  encryptionPassphrase w'
  = (if truthy (RaidData.passphrase self)
        && negb (truthy_opt (encryptionPassphrase w))
     then Some (RaidData.passphrase self) else encryptionPassphrase w)
  ∧ wrapped_with_passphrase (tree w') (RaidData.preexist self)
      (RaidData.passphrase self) (RaidData.cipher self)
      (RaidData.backuppassphrase self) (RaidData.final_mountpoint self).
Proof.
  intros Hrun Hformat Henc. unfold RaidData.execute in Hrun.
  apply bind_inv in Hrun as (wg & dt & Hg & Hrun). run in Hg.
  injection Hg as <- <-.
  apply bind_inv in Hrun as (w0 & [] & H0 & Hrun). run in H0. simplify_eq.
  apply bind_inv in Hrun as (w2 & [ty mp] & H2 & Hrun).
  pose proof (keeps_raid_classify encryptionPassphrase ltac:(reflexivity) self
                (RaidData.devicename self (tree w)) (set_doAutoPart false w)) as Hp2.
  rewrite H2 in Hp2. simpl in Hp2.
  apply raid_classify_mountpoint in H2 as Hmp.
  destruct (negb _ && _); [discriminate|].
  rewrite Hformat in Hrun. cbn [negb] in Hrun.
  unfold RaidData.formatted in Hrun.
  apply bind_inv in Hrun as (w3 & raidmems & H3 & Hrun).
  pose proof (keeps_forM id (RaidData.members self)
                (get_member (RaidData.lineno self) "mdmember" "RAID member"
                            "RAID specification")
                (λ a, keeps_get_member id _ _ _ _ a) w2) as Hw3.
  rewrite H3 in Hw3. simpl in Hw3. subst w3.
  destruct (negb (truthy_opt _)); [discriminate|].
  rewrite Henc in Hrun.
  apply encrypted_tail in Hrun
    as (Hpass & w4 & target & cert & luksdev & Hmk & Hdevs & Hty & Hfmt & Hpar);
    [|keeps_auto].
  split; [by rewrite Hpass, Hp2|].
  assert (RaidData.preexist self = false →
          target ∈ devices (tree w4) ∧ fmt_mountpoint (dev_format target) = mp)
    as Hnew.
  { intros Hpre. rewrite Hpre in Hmk.
    apply bind_inv in Hmk as (w5 & dt & H5 & Hmk). run in H5. simplify_eq.
    destruct (truthy _ && bool_decide _); [discriminate|].
    apply bind_inv in Hmk as (wa & [] & Hdel & Hmk).
    destruct (newMDArray_error _ _ _ _); [discriminate|].
    apply new_request_in_tree in Hmk as [? ->]. done. }
  eapply wrapped_of_tail; [exact Hdevs|exact Hty| |exact Hpar|].
  - rewrite Hfmt, <- Hmp. destruct (RaidData.preexist self); [reflexivity|].
    by destruct Hnew.
  - intros Hpre. by destruct Hnew.
Qed.

Lemma lv_encrypted_wrapped {E : Engine} self w w' :
  LogVolData.execute self w = (w', inr tt) →
  LogVolData.format self = true →
  LogVolData.encrypted self = true →
  encryptionPassphrase w'
  = (if truthy (LogVolData.passphrase self)
        && negb (truthy_opt (encryptionPassphrase w))
     then Some (LogVolData.passphrase self) else encryptionPassphrase w)
  ∧ wrapped_with_passphrase (tree w') (LogVolData.preexist self)
      (LogVolData.passphrase self) (LogVolData.cipher self)
      (LogVolData.backuppassphrase self)
      (LogVolData.l_mountpoint (LogVolData.classify self w)).
Proof.
  intros Hrun Hformat Henc. unfold LogVolData.execute in Hrun.
  apply bind_inv in Hrun as (w0 & [] & H0 & Hrun). run in H0. simplify_eq.
  apply bind_inv in Hrun as (w1 & w1' & H1 & Hrun). run in H1. simplify_eq.
  cbn [id] in Hrun.
  change (LogVolData.classify self (set_doAutoPart false w))
    with (LogVolData.classify self w) in Hrun.
  destruct (negb _ && _); [discriminate|].
  destruct (getDeviceByName _ _) as [vg|]; [|discriminate].
  apply bind_inv in Hrun as (w2 & pool & H2 & Hrun).
  assert (keeps id
    (if LogVolData.thin_volume self
     then match getDeviceByName (tree (set_doAutoPart false w))
                  (LogVolData.lv_name vg (LogVolData.pool_name self)) with
          | Some p => mret (Some p)
          | None => raise (KickstartValueError (LogVolData.lineno self)
               ("No thin pool exists with the name " +:+ dq
                +:+ LogVolData.pool_name self +:+ dq
                +:+ ". Specify thin pools before thin volumes."))
          end
     else mret None : KS (option Device))) as Hk by keeps_auto.
  specialize (Hk (set_doAutoPart false w)). rewrite H2 in Hk. simpl in Hk. subst w2.
  rewrite Hformat in Hrun. cbn [negb] in Hrun.
  unfold LogVolData.formatted in Hrun.
  apply bind_inv in Hrun as (w3 & [] & H3 & Hrun).
  pose proof (keeps_lv_check_new id self vg (LogVolData.classify self w)
                (set_doAutoPart false w)) as Hw3.
  rewrite H3 in Hw3. simpl in Hw3. subst w3.
  destruct (negb (truthy_opt _) && _); [discriminate|].
  rewrite Henc in Hrun.
  apply encrypted_tail in Hrun
    as (Hpass & w4 & target & cert & luksdev & Hmk & Hdevs & Hty & Hfmt & Hpar);
    [|keeps_auto].
  split; [exact Hpass|].
  assert (LogVolData.preexist self = false →
          target ∈ devices (tree w4)
          ∧ fmt_mountpoint (dev_format target)
            = LogVolData.l_mountpoint (LogVolData.classify self w))
    as Hnew.
  { intros Hpre. rewrite Hpre in Hmk.
    apply bind_inv in Hmk as (wc & [] & _ & Hmk).
    apply new_request_in_tree in Hmk as [? ->]. done. }
  eapply wrapped_of_tail; [exact Hdevs|exact Hty| |exact Hpar|].
  - rewrite Hfmt. destruct (LogVolData.preexist self); [reflexivity|].
    by destruct Hnew.
  - intros Hpre. by destruct Hnew.
Qed.



(** The same for a device that exists already: after
    [part /home --size=100 --encrypted --passphrase=abc123], the request
    [part /data --onpart=sda1 --encrypted] returns, the default is still
    [abc123], and the existing partition [sda1] has taken a LUKS format
    with the empty passphrase and the path of the partition. *)
Example existing_partition_is_wrapped_with_its_own_passphrase :
  let w1 := (PartitionData.execute (E:=sample_engine)
               (part_encrypted "/home" 100 "abc123") sample_world).1 in
  let run := PartitionData.execute (E:=sample_engine)
               (part_onpart_encrypted "/data" "sda1") w1 in
  run.2 = inr tt
  ∧ encryptionPassphrase run.1 = Some "abc123"
  ∧ map (λ d, (dev_name d, fmt_passphrase (dev_format d), fmt_device (dev_format d)))
        (filter (λ d, bool_decide (fmt_type (dev_format d) = Some "luks"))
                (devices (tree run.1)))
    = [("sda1", "", "/dev/sda1"); ("req5", "abc123", "")].
Proof. vm_compute. repeat split; reflexivity. Qed.


(** ** Claiming a mount point *)

(** What [destroyDevice] does to the tree. *)
Lemma destroyDevice_run d w :
  destroyDevice d w
  = if negb (isleaf (tree w) d)
    then (w, inl (ValueError "Cannot destroy non-leaf device"))
    else (set_tree
            (mkTree (filter (λ x, dev_id x ≠ dev_id d) (devices (tree w)))
                    (actions (tree w)
                     ++ (if fmt_exists (dev_format d)
                            && bool_decide (is_Some (fmt_type (dev_format d)))
                         then [ActionDestroyFormat (dev_id d)] else [])
                     ++ [ActionDestroyDevice (dev_id d)])
                    (next_id (tree w))) w,
          inr tt).
Proof.
  unfold destroyDevice, registerAction. run.
  destruct (negb (isleaf (tree w) d)); [reflexivity|].
  destruct (fmt_exists (dev_format d) && _); run; cbn;
    rewrite <- ?app_assoc; reflexivity.
Qed.

(** The block that deletes the old claimant of a mount point: nothing
    happens for the empty mount point and for one nobody claims (the
    [KeyError] is passed over); the claimant the engine's dictionary
    holds is destroyed otherwise. *)
Lemma delete_old_claimant_run mp w :
  delete_old_claimant mp w
  = if truthy mp
    then match mountpoints (tree w) mp with
         | Some device => destroyDevice device w
         | None => (w, inr tt)
         end
    else (w, inr tt).
Proof.
  unfold delete_old_claimant. run. destruct (truthy mp); [|reflexivity].
  destruct (mountpoints (tree w) mp) as [d|]; [|reflexivity].
  rewrite destroyDevice_run. by destruct (negb _).
Qed.

Lemma claims_empty d : claims "" d = false.
Proof.
  unfold claims. destruct (fmt_mountable _); [|reflexivity]. simpl.
  destruct (fmt_mountpoint (dev_format d)); reflexivity.
Qed.

Lemma claims_mountpoint mp d : claims mp d = true → fmt_mountpoint (dev_format d) = mp.
Proof.
  unfold claims. intros H. apply andb_true_iff in H as [_ H].
  by apply String.eqb_eq in H.
Qed.

(** The only claimant of a mount point is gone when the devices of its
    identity are. *)
Lemma claimants_after_destroy (ds : list Device) mp d :
  length (filter (λ x, claims mp x) ds) ≤ 1 →
  last (filter (λ x, claims mp x) ds) = Some d →
  filter (λ x, claims mp x) (filter (λ x, dev_id x ≠ dev_id d) ds) = [].
Proof.
  intros Hone Hlast.
  assert (filter (λ x, claims mp x) ds = [d]) as Hd.
  { destruct (filter (λ x, claims mp x) ds) as [|a [|b l]]; simplify_eq/=; [done|lia]. }
  clear Hone Hlast. induction ds as [|x ds IH]; [done|].
  rewrite filter_cons in Hd. rewrite filter_cons.
  destruct (decide (claims mp x)) as [Hx|Hx].
  - injection Hd as -> Hd. destruct (decide (dev_id d ≠ dev_id d)); [done|].
    clear IH. induction ds as [|y ds IH]; [done|].
    rewrite filter_cons in Hd. rewrite filter_cons.
    destruct (decide (claims mp y)); [done|].
    destruct (decide (dev_id y ≠ dev_id d)); [|by apply IH].
    rewrite filter_cons_False by done. by apply IH.
  - destruct (decide (dev_id x ≠ dev_id d)); [|by apply IH].
    rewrite filter_cons_False by done. by apply IH.
Qed.

Lemma claimants_filter_le (ds : list Device) mp (P : Device → Prop)
    `{!∀ x, Decision (P x)} :
  length (filter (λ x, claims mp x) (filter P ds))
  ≤ length (filter (λ x, claims mp x) ds).
Proof.
  induction ds as [|x ds IH]; [done|].
  rewrite (filter_cons P). destruct (decide (P x)).
  - rewrite !filter_cons. destruct (decide (claims mp x)); simpl; lia.
  - rewrite filter_cons. destruct (decide (claims mp x)); simpl; lia.
Qed.

(** A device that takes a format without mount point claims nothing. *)
Lemma claimants_after_reformat (ds : list Device) mp i fmt :
  fmt_mountpoint fmt = "" →
  length (filter (λ x, claims mp x)
            (map (λ d, if bool_decide (dev_id d = i) then set_dev_format fmt d else d) ds))
  ≤ length (filter (λ x, claims mp x) ds).
Proof.
  intros Hfmt. induction ds as [|x ds IH]; [done|]. cbn [map].
  rewrite !filter_cons. case_bool_decide.
  - assert (claims mp (set_dev_format fmt x) = false) as Hno.
    { unfold claims. cbn. rewrite Hfmt. by rewrite andb_false_r. }
    destruct (decide (claims mp (set_dev_format fmt x))) as [Hc|_];
      [by rewrite Hno in Hc|].
    destruct (decide (claims mp x)); simpl; lia.
  - destruct (decide (claims mp x)); simpl; lia.
Qed.

(** The tree the encryption layer leaves over a new request. *)
Lemma luks_wrap_new_tree {E : Engine} target fmt passphrase cipher escrowcert backup
    w w' :
  luks_wrap false target fmt passphrase cipher escrowcert backup w = (w', inr tt) →
  ∃ cert luksdev post,
    devices (tree w')
    = map (λ d, if bool_decide (dev_id d = dev_id target)
                then set_dev_format (getFormat_luks passphrase "" cipher cert backup) d
                else d)
          (devices (tree w)) ++ [luksdev]
    ∧ dev_id luksdev = S (next_id (tree w))
    ∧ dev_format luksdev = dev_format target
    ∧ actions (tree w') = actions (tree w) ++ post.
Proof.
  unfold luks_wrap. intros Hrun.
  apply bind_inv in Hrun as (w1 & cert & Hcert & Hrun).
  pose proof (keeps_getEscrowCertificate tree ltac:(reflexivity) escrowcert w) as Ht.
  rewrite Hcert in Ht. simpl in Ht.
  apply bind_inv in Hrun as (w2 & luksdev & Hluks & Hrun).
  unfold update_device, newDevice, nextID in Hluks. run in Hluks.
  cbn in Hluks. simplify_eq.
  rewrite createDevice_run in Hrun. simplify_eq. cbn. rewrite Ht.
  exists cert. eexists. eexists. split; [reflexivity|]. split; [reflexivity|].
  split; reflexivity.
Qed.

Lemma reformat_ids (ds : list Device) i fmt :
  map dev_id (map (λ d, if bool_decide (dev_id d = i) then set_dev_format fmt d else d) ds)
  = map dev_id ds.
Proof.
  induction ds as [|x ds IH]; [done|]. cbn [map]. rewrite IH.
  by case_bool_decide.
Qed.

(** The deletion of the old claimant, when it returns: the counter is
    where it was, no mount point has more claimants than before, and the
    mount point itself has none left; nothing at all changes when nobody
    claimed it, and the claimant is destroyed and gone otherwise. *)
Lemma delete_old_claimant_returns mp w wa :
  delete_old_claimant mp w = (wa, inr tt) →
  next_id (tree wa) = next_id (tree w)
  ∧ (∀ mp', length (claimants (tree wa) mp') ≤ length (claimants (tree w) mp'))
  ∧ (unique_claims (tree w) → claimants (tree wa) mp = [])
  ∧ (mp = "" ∨ mountpoints (tree w) mp = None → wa = w)
  ∧ (∀ d, mp ≠ "" → mountpoints (tree w) mp = Some d →
          devices (tree wa) = filter (λ x, dev_id x ≠ dev_id d) (devices (tree w))
          ∧ ∃ pre, actions (tree wa)
                   = actions (tree w) ++ pre ++ [ActionDestroyDevice (dev_id d)]
                   ∧ ∀ a, a ∈ pre → a = ActionDestroyFormat (dev_id d)).
Proof.
  rewrite delete_old_claimant_run. intros Hrun.
  assert (Hnone : mp = "" ∨ mountpoints (tree w) mp = None → claimants (tree w) mp = []).
  { intros [->|Hn].
    - unfold claimants. induction (devices (tree w)) as [|x ds IH]; [done|].
      rewrite filter_cons_False; [exact IH|]. cbn beta. rewrite claims_empty. exact id.
    - by apply last_None in Hn. }
  destruct (truthy mp) eqn:Hmp.
  - apply truthy_true in Hmp.
    destruct (mountpoints (tree w) mp) as [d|] eqn:Hd.
    + rewrite destroyDevice_run in Hrun. destruct (negb _); [discriminate|].
      simplify_eq. cbn. split; [reflexivity|]. split.
      { intros mp'. apply claimants_filter_le. }
      split.
      { intros Huniq. apply claimants_after_destroy; [apply Huniq|exact Hd]. }
      split; [intros [?|?]; done|].
      intros d' _ [= <-]. split; [reflexivity|]. eexists. split; [reflexivity|].
      intros a Ha. destruct (fmt_exists _ && _).
      * by apply list_elem_of_singleton in Ha.
      * by apply elem_of_nil in Ha.
    + simplify_eq. split; [reflexivity|]. split; [done|].
      split; [intros _; apply Hnone; by right|]. split; [done|]. intros d' _ [=].
  - simplify_eq. assert (mp = "") as ->.
    { destruct mp; [done|discriminate]. }
    split; [reflexivity|]. split; [done|].
    split; [intros _; apply Hnone; by left|]. split; [done|]. intros d' Hne. done.
Qed.

(** The creation of a new request with format [fmt], and its encryption
    when asked for, when they return: the creation of the request, which
    takes the identity the counter held, is the first action registered;
    the devices that were there stay, by identity and in order, and the
    new ones follow them; a mount point gains at most one claimant, and
    none unless it is the mount point of [fmt]; and a device of the tree
    holds [fmt]. *)
Lemma create_request_returns {E : Engine} ty name fmt parents size pe args
    (encrypted : bool) passphrase cipher escrowcert backup wa w' :
  (target ← (request ← newDevice ty name fmt parents size pe args;
             createDevice request;; mret request);
   if encrypted
   then remember_passphrase passphrase;;
        luks_wrap false target fmt passphrase cipher escrowcert backup
   else mret tt) wa = (w', inr tt) →
  (∃ post, actions (tree w')
           = actions (tree wa) ++ ActionCreateDevice (next_id (tree wa)) :: post)
  ∧ (∃ extra, map dev_id (devices (tree w'))
              = map dev_id (devices (tree wa)) ++ next_id (tree wa) :: extra
              ∧ ∀ i, i ∈ extra → next_id (tree wa) < i)
  ∧ (∀ mp, length (claimants (tree w') mp)
           ≤ length (claimants (tree wa) mp)
             + (if String.eqb (fmt_mountpoint fmt) mp then 1 else 0))
  ∧ ∃ x, x ∈ devices (tree w') ∧ next_id (tree wa) ≤ dev_id x ∧ dev_format x = fmt.
Proof.
  intros Hrun.
  apply bind_inv in Hrun as (w1 & target & Htarget & Hrun).
  apply bind_inv in Htarget as (wb & request & Hnew & Htarget).
  rewrite newDevice_run in Hnew.
  apply bind_inv in Htarget as (wc & [] & Hcreate & Htarget).
  rewrite createDevice_run in Hcreate. run in Htarget. simplify_eq.
  set (n := next_id (tree wa)) in *.
  match goal with H : context [mret ?r] |- _ => set (request := r) in * end
  || match goal with H : context [luks_wrap false ?r] |- _ => set (request := r) in * end
  || idtac.
  assert (Hclaim : ∀ mp (x : Device), dev_format x = fmt →
            length (filter (λ d, claims mp d) [x])
            ≤ (if String.eqb (fmt_mountpoint fmt) mp then 1 else 0)).
  { intros mp x Hx. rewrite filter_cons. destruct (decide (claims mp x)) as [Hc|Hc].
    - apply Is_true_true, claims_mountpoint in Hc. rewrite Hx in Hc. rewrite Hc.
      by rewrite String.eqb_refl.
    - simpl. lia. }
  destruct encrypted.
  - apply bind_inv in Hrun as (w2 & [] & Hrem & Hrun).
    rewrite remember_passphrase_run in Hrem.
    assert (tree w2 = mkTree
              (devices (tree wa) ++
                 [{| dev_id := n; dev_type := ty; dev_name := name n;
                     dev_req_name := if bool_decide (ty = PartitionDevice)
                                     then Some (name n) else None;
                     dev_path := "/dev/" +:+ name n; dev_format := fmt;
                     dev_parents := map dev_id parents; dev_exists := false;
                     dev_size := size; dev_currentSize := 0;
                     dev_protected := false; dev_partitionable := false;
                     dev_partitioned := false; dev_peSize := pe;
                     dev_reserved_space := 0; dev_reserved_percent := 0;
                     dev_args := args |}])
              (actions (tree wa) ++ ActionCreateDevice n
                 :: (if bool_decide (is_Some (fmt_type fmt))
                     then [ActionCreateFormat n None] else []))
              (S n)) as Ht2.
    { injection Hrem as <-. by destruct (truthy passphrase && _). }
    clear Hrem.
    apply luks_wrap_new_tree in Hrun
      as (cert & luksdev & post & Hdev & Hid & Hfmt & Hact).
    rewrite Ht2 in Hdev, Hid, Hact. cbn in Hdev, Hid, Hfmt, Hact.
    split; [|split; [|split]].
    + eexists. rewrite Hact, <- app_assoc. reflexivity.
    + exists [dev_id luksdev]. split.
      * rewrite Hdev, map_app, reformat_ids, map_app. cbn. by rewrite <- app_assoc.
      * intros i ->%list_elem_of_singleton. rewrite Hid. lia.
    + intros mp. unfold claimants. rewrite Hdev.
      rewrite map_app, !filter_app, !length_app.
      pose proof (claimants_after_reformat (devices (tree wa)) mp n
                    (getFormat_luks passphrase "" cipher cert backup) eq_refl) as H1.
      pose proof (Hclaim mp luksdev Hfmt) as H2.
      cbn [map]. rewrite bool_decide_true by done.
      rewrite (filter_cons_False _ (set_dev_format _ _)); [simpl in *; lia|].
      unfold claims. cbn. rewrite andb_false_r. cbn. exact id.
    + exists luksdev. split; [|split; [rewrite Hid; lia|exact Hfmt]]. rewrite Hdev.
      apply elem_of_app. right. by apply list_elem_of_singleton.
  - run in Hrun. simplify_eq. cbn.
    split; [|split; [|split]].
    + eexists. reflexivity.
    + exists []. split; [by rewrite map_app|]. intros i Hi. by apply elem_of_nil in Hi.
    + intros mp. unfold claimants. cbn. rewrite filter_app, length_app.
      pose proof (Hclaim mp _ (eq_refl : dev_format
        {| dev_id := n; dev_type := ty; dev_name := name n;
           dev_req_name := if bool_decide (ty = PartitionDevice)
                           then Some (name n) else None;
           dev_path := "/dev/" +:+ name n; dev_format := fmt;
           dev_parents := map dev_id parents; dev_exists := false;
           dev_size := size; dev_currentSize := 0;
           dev_protected := false; dev_partitionable := false;
           dev_partitioned := false; dev_peSize := pe;
           dev_reserved_space := 0; dev_reserved_percent := 0;
           dev_args := args |} = fmt)) as H2.
      lia.
    + eexists. split; [apply elem_of_app; right; by apply list_elem_of_singleton|].
      split; reflexivity.
Qed.

Lemma mountpoints_Some t mp d :
  mountpoints t mp = Some d → mp ≠ "" ∧ d ∈ devices t.
Proof.
  unfold mountpoints, claimants. intros Hd.
  assert (d ∈ filter (λ x, claims mp x) (devices t)) as Hin.
  { apply last_Some in Hd as [l ->]. apply elem_of_app. right.
    by apply list_elem_of_singleton. }
  apply list_elem_of_filter in Hin as [Hc Hin]. split; [|exact Hin].
  intros ->. rewrite claims_empty in Hc. exact Hc.
Qed.

(** The shared text of the handlers of a new request: the old claimant of
    the mount point is deleted, the request is created with a format that
    holds the mount point, and encrypted when asked for. *)
Lemma claim_then_create {E : Engine} mp ty name fmt parents size pe args
    (encrypted : bool) passphrase cipher escrowcert backup w wa w' :
  delete_old_claimant mp w = (wa, inr tt) →
  (target ← (request ← newDevice ty name fmt parents size pe args;
             createDevice request;; mret request);
   if encrypted
   then remember_passphrase passphrase;;
        luks_wrap false target fmt passphrase cipher escrowcert backup
   else mret tt) wa = (w', inr tt) →
  fmt_mountpoint fmt = mp →
  claimed_anew mp (tree w) (tree w').
Proof.
  intros Hdel Hcreate Hfmt.
  apply delete_old_claimant_returns in Hdel
    as (Hnext & Hle & Hzero & Hsame & Hdestroy).
  apply create_request_returns in Hcreate
    as ((post & Hact) & (extra & Hids & Hextra) & Hcount & (x & Hx & Hxid & Hxfmt)).
  rewrite Hnext in Hact, Hids, Hextra, Hxid.
  unfold claimed_anew. split; [|split].
  - destruct (mountpoints (tree w) mp) as [d|] eqn:Hd.
    + apply mountpoints_Some in Hd as Hd'. destruct Hd' as [Hne Hin].
      destruct (Hdestroy d Hne eq_refl) as (Hdev & pre & Hpre & Hfmts).
      split.
      * exists pre, post. split; [|exact Hfmts].
        rewrite Hact, Hpre, <- !app_assoc. reflexivity.
      * intros Hcounter y Hy Heq.
        assert (dev_id y ∈ map dev_id (devices (tree w'))) as Hiny.
        { apply list_elem_of_fmap. by exists y. }
        rewrite Hids in Hiny. specialize (Hcounter d Hin).
        apply elem_of_app in Hiny as [Hiny|Hiny].
        -- rewrite Hdev in Hiny. apply list_elem_of_fmap in Hiny as (z & Hz & Hzin).
           apply list_elem_of_filter in Hzin as [Hzne _]. congruence.
        -- apply elem_of_cons in Hiny as [Hn|Hn]; [lia|].
           apply Hextra in Hn. lia.
    + rewrite (Hsame (or_intror eq_refl)) in Hact, Hids. split.
      * by exists post.
      * rewrite Hids. by eexists.
  - exists x. split; [exact Hx|]. split; [exact Hxid|]. by rewrite Hxfmt.
  - intros Huniq mp'. specialize (Hcount mp'). rewrite Hfmt in Hcount.
    destruct (String.eqb_spec mp mp') as [Heq|Hne].
    + rewrite <- Heq in *. rewrite (Hzero Huniq) in Hcount. simpl in Hcount. lia.
    + specialize (Hle mp'). specialize (Huniq mp'). lia.
Qed.

(** The partition handler on a new, formatted partition that is not a
    tmpfs mount. *)
Lemma part_claims_anew {E : Engine} self w w' :
  PartitionData.execute self w = (w', inr tt) →
  PartitionData.format self = true →
  PartitionData.onPart self = "" →
  String.eqb (PartitionData.fstype self) "tmpfs" = false →
  claimed_anew (PartitionData.final_mountpoint self) (tree w) (tree w').
Proof.
  intros Hrun Hformat Hon Htmpfs. unfold PartitionData.execute in Hrun.
  apply bind_inv in Hrun as (w0 & [] & H0 & Hrun). run in H0. simplify_eq.
  apply bind_inv in Hrun as (w1 & disk & H1 & Hrun).
  pose proof (keeps_part_bios_disk id self (set_doAutoPart false w)) as Hw1.
  rewrite H1 in Hw1. simpl in Hw1. subst w1.
  apply bind_inv in Hrun as (w2 & l & H2 & Hrun).
  pose proof (keeps_part_classify tree ltac:(reflexivity) self
                (set_doAutoPart false w)) as Ht2.
  rewrite H2 in Ht2. simpl in Ht2.
  apply part_classify_mountpoint in H2 as Hmp.
  rewrite Hformat in Hrun. cbn [negb] in Hrun.
  unfold PartitionData.formatted in Hrun.
  destruct (negb (truthy_opt _)); [discriminate|].
  apply bind_inv in Hrun as (w3 & parents & H3 & Hrun).
  pose proof (keeps_part_disk_parents id self disk w2) as Hw3.
  rewrite H3 in Hw3. simpl in Hw3. subst w3.
  rewrite Hon, Htmpfs in Hrun. cbn [truthy String.eqb negb] in Hrun.
  apply bind_inv in Hrun as (w4 & target & Hmk & Htail).
  apply bind_inv in Hmk as (wa & [] & Hdel & Hmk).
  rewrite <- Hmp, <- Ht2.
  eapply (claim_then_create (PartitionData.l_mountpoint l) _ _ _ _ _ _ _
            (PartitionData.encrypted self));
    [exact Hdel|rewrite (bind_inr _ _ _ _ _ Hmk); exact Htail|reflexivity].
Qed.

(** The logical-volume handler on a new, formatted volume. *)
Lemma lv_claims_anew {E : Engine} self w w' :
  LogVolData.execute self w = (w', inr tt) →
  LogVolData.format self = true →
  LogVolData.preexist self = false →
  claimed_anew (LogVolData.l_mountpoint (LogVolData.classify self w))
               (tree w) (tree w').
Proof.
  intros Hrun Hformat Hpre. unfold LogVolData.execute in Hrun.
  apply bind_inv in Hrun as (w0 & [] & H0 & Hrun). run in H0. simplify_eq.
  apply bind_inv in Hrun as (w1 & w1' & H1 & Hrun). run in H1. simplify_eq.
  cbn [id] in Hrun.
  change (LogVolData.classify self (set_doAutoPart false w))
    with (LogVolData.classify self w) in Hrun.
  destruct (negb _ && _); [discriminate|].
  destruct (getDeviceByName _ _) as [vg|]; [|discriminate].
  apply bind_inv in Hrun as (w2 & pool & H2 & Hrun).
  assert (keeps id
    (if LogVolData.thin_volume self
     then match getDeviceByName (tree (set_doAutoPart false w))
                  (LogVolData.lv_name vg (LogVolData.pool_name self)) with
          | Some p => mret (Some p)
          | None => raise (KickstartValueError (LogVolData.lineno self)
               ("No thin pool exists with the name " +:+ dq
                +:+ LogVolData.pool_name self +:+ dq
                +:+ ". Specify thin pools before thin volumes."))
          end
     else mret None : KS (option Device))) as Hk by keeps_auto.
  specialize (Hk (set_doAutoPart false w)). rewrite H2 in Hk. simpl in Hk. subst w2.
  rewrite Hformat in Hrun. cbn [negb] in Hrun.
  unfold LogVolData.formatted in Hrun.
  apply bind_inv in Hrun as (w3 & [] & H3 & Hrun).
  pose proof (keeps_lv_check_new id self vg (LogVolData.classify self w)
                (set_doAutoPart false w)) as Hw3.
  rewrite H3 in Hw3. simpl in Hw3. subst w3.
  destruct (negb (truthy_opt _) && _); [discriminate|].
  rewrite Hpre in Hrun.
  apply bind_inv in Hrun as (w4 & target & Hmk & Htail).
  apply bind_inv in Hmk as (wa & [] & Hdel & Hmk).
  change (tree w) with (tree (set_doAutoPart false w)).
  eapply (claim_then_create (LogVolData.l_mountpoint (LogVolData.classify self w))
            _ _ _ _ _ _ _ (LogVolData.encrypted self));
    [exact Hdel|rewrite (bind_inr _ _ _ _ _ Hmk); exact Htail|reflexivity].
Qed.

(** The raid handler on a new, formatted array. *)
Lemma raid_claims_anew {E : Engine} self w w' :
  RaidData.execute self w = (w', inr tt) →
  RaidData.format self = true →
  RaidData.preexist self = false →
  claimed_anew (RaidData.final_mountpoint self) (tree w) (tree w').
Proof.
  intros Hrun Hformat Hpre. unfold RaidData.execute in Hrun.
  apply bind_inv in Hrun as (wg & dt & Hg & Hrun). run in Hg.
  injection Hg as <- <-.
  apply bind_inv in Hrun as (w0 & [] & H0 & Hrun). run in H0. simplify_eq.
  apply bind_inv in Hrun as (w2 & [ty mp] & H2 & Hrun).
  pose proof (keeps_raid_classify tree ltac:(reflexivity) self
                (RaidData.devicename self (tree w)) (set_doAutoPart false w)) as Ht2.
  rewrite H2 in Ht2. simpl in Ht2.
  apply raid_classify_mountpoint in H2 as Hmp.
  destruct (negb _ && _); [discriminate|].
  rewrite Hformat in Hrun. cbn [negb] in Hrun.
  unfold RaidData.formatted in Hrun.
  apply bind_inv in Hrun as (w3 & raidmems & H3 & Hrun).
  pose proof (keeps_forM id (RaidData.members self)
                (get_member (RaidData.lineno self) "mdmember" "RAID member"
                            "RAID specification")
                (λ a, keeps_get_member id _ _ _ _ a) w2) as Hw3.
  rewrite H3 in Hw3. simpl in Hw3. subst w3.
  destruct (negb (truthy_opt _)); [discriminate|].
  rewrite Hpre in Hrun.
  apply bind_inv in Hrun as (w4 & target & Hmk & Htail).
  apply bind_inv in Hmk as (w5 & dt & H5 & Hmk). run in H5. simplify_eq.
  destruct (truthy _ && _); [discriminate|].
  apply bind_inv in Hmk as (wa & [] & Hdel & Hmk).
  destruct (newMDArray_error _ _ _ _); [discriminate|].
  rewrite <- Ht2.
  eapply (claim_then_create (RaidData.final_mountpoint self) _ _ _ _ _ _ _
            (RaidData.encrypted self));
    [exact Hdel|rewrite (bind_inr _ _ _ _ _ Hmk); exact Htail|reflexivity].
Qed.

(** A request that is created and not encrypted, in the words of the
    shared text. *)
Lemma create_plain ty name fmt parents size pe args wa w' :
  (request ← newDevice ty name fmt parents size pe args;
   createDevice request) wa = (w', inr tt) →
  (target ← (request ← newDevice ty name fmt parents size pe args;
             createDevice request;; mret request);
   mret tt) wa = (w', inr tt).
Proof.
  intros H. apply bind_inv in H as (wb & r & Hn & Hc).
  assert ((request ← newDevice ty name fmt parents size pe args;
           createDevice request;; mret request) wa = (w', inr r)) as Hinner.
  { rewrite (bind_inr _ _ _ _ _ Hn), (bind_inr _ _ _ _ _ Hc). reflexivity. }
  rewrite (bind_inr _ _ _ _ _ Hinner). reflexivity.
Qed.

(** The btrfs handler on a new volume. *)
Lemma btrfs_claims_anew {E : Engine} self w w' :
  BTRFSData.execute self w = (w', inr tt) →
  BTRFSData.preexist self = false →
  claimed_anew (BTRFSData.final_mountpoint self) (tree w) (tree w').
Proof.
  intros Hrun Hpre. unfold BTRFSData.execute in Hrun.
  apply bind_inv in Hrun as (w0 & [] & H0 & Hrun). run in H0. simplify_eq.
  apply bind_inv in Hrun as (w1 & members & H1 & Hrun).
  pose proof (keeps_forM id (BTRFSData.devices self)
                (get_member (BTRFSData.lineno self) "btrfs" "BTRFS partition"
                            "BTRFS volume specification")
                (λ a, keeps_get_member id _ _ _ _ a) (set_doAutoPart false w)) as Hw1.
  rewrite H1 in Hw1. simpl in Hw1. subst w1.
  destruct (bool_decide _ && _); [discriminate|].
  fold (BTRFSData.final_mountpoint self) in Hrun.
  destruct (negb _ && _); [discriminate|].
  apply bind_inv in Hrun as (wa & [] & Hdel & Hrun).
  rewrite Hpre in Hrun.
  change (tree w) with (tree (set_doAutoPart false w)).
  eapply (claim_then_create (BTRFSData.final_mountpoint self) _ _ _ _ _ _ _
            false "" "" "" false);
    [exact Hdel|apply create_plain; exact Hrun|reflexivity].
Qed.

(** The deletion of the old claimant never fails for want of one: with no
    claimant it returns and changes nothing; with one it destroys it, and
    raises only when the engine refuses to destroy a device that still
    has children. *)
Lemma delete_old_claimant_total mp w :
  match mountpoints (tree w) mp with
  | None => delete_old_claimant mp w = (w, inr tt)
  | Some d =>
    if isleaf (tree w) d
    then ∃ wa, delete_old_claimant mp w = (wa, inr tt)
    else delete_old_claimant mp w = (w, inl (ValueError "Cannot destroy non-leaf device"))
  end.
Proof.
  rewrite delete_old_claimant_run.
  destruct (mountpoints (tree w) mp) as [d|] eqn:Hd.
  - apply mountpoints_Some in Hd as [Hne _]. apply truthy_true in Hne. rewrite Hne.
    rewrite destroyDevice_run. destruct (isleaf (tree w) d); simpl; eauto.
  - by destruct (truthy mp).
Qed.

(** C5, as the code has it: the handlers of a new partition that is not a
    tmpfs mount, of a new raid array, of a new logical volume and of a
    new btrfs volume, when they return, have claimed the mount point of
    the request anew.  If a device claimed it, the destruction of that
    device is registered, after that of its existing format at most, and
    at once after it the creation of the new device, and the old device
    is gone from the tree; if none did, or the mount point is empty, the
    creation of the new device is the first thing registered and every
    device stays.  A device that is new holds the mount point, and if no
    mount point had two claimants before, none has after.  The deletion
    of the old claimant does not fail for want of a claimant.  The
    handler of a new tmpfs partition is not among them: it does not look
    for a claimant at all. *)
Theorem new_request_claims_its_mount_point {E : Engine} :
  (∀ self w w',
      PartitionData.execute self w = (w', inr tt) →
      PartitionData.format self = true →
      PartitionData.onPart self = "" →
      String.eqb (PartitionData.fstype self) "tmpfs" = false →
      claimed_anew (PartitionData.final_mountpoint self) (tree w) (tree w'))
  ∧ (∀ self w w',
        RaidData.execute self w = (w', inr tt) →
        RaidData.format self = true →
        RaidData.preexist self = false →
        claimed_anew (RaidData.final_mountpoint self) (tree w) (tree w'))
  ∧ (∀ self w w',
        LogVolData.execute self w = (w', inr tt) →
        LogVolData.format self = true →
        LogVolData.preexist self = false →
        claimed_anew (LogVolData.l_mountpoint (LogVolData.classify self w))
                     (tree w) (tree w'))
  ∧ (∀ self w w',
        BTRFSData.execute self w = (w', inr tt) →
        BTRFSData.preexist self = false →
        claimed_anew (BTRFSData.final_mountpoint self) (tree w) (tree w'))
  ∧ (∀ mp w,
        match mountpoints (tree w) mp with
        | None => delete_old_claimant mp w = (w, inr tt)
        | Some d =>
          if isleaf (tree w) d
          then ∃ wa, delete_old_claimant mp w = (wa, inr tt)
          else delete_old_claimant mp w
               = (w, inl (ValueError "Cannot destroy non-leaf device"))
        end).
Proof.
  split; [exact part_claims_anew|].
  split; [exact raid_claims_anew|].
  split; [exact lv_claims_anew|].
  split; [exact btrfs_claims_anew|].
  exact delete_old_claimant_total.
Qed.

(** A new tmpfs partition asks for a mount point that a partition
    created just before holds: the handler returns, destroys nothing,
    and two devices claim the mount point. *)
Lemma tmpfs_request_keeps_the_prior_claimant :
  let first := PartitionData.execute (E:=sample_engine) (part "/data" 100) sample_world in
  let second := PartitionData.execute (E:=sample_engine)
                  (part_fstype "/data" "tmpfs" 10) first.1 in
  first.2 = inr tt
  ∧ map dev_name (claimants (tree first.1) "/data") = ["req5"]
  ∧ second.2 = inr tt
  ∧ map (λ d, (dev_name d, dev_type d)) (claimants (tree second.1) "/data")
    = [("req5", PartitionDevice); ("req6", TmpFSDevice)]
  ∧ actions (tree second.1)
    = [ActionCreateDevice 5; ActionCreateFormat 5 None;
       ActionCreateDevice 6; ActionCreateFormat 6 None]
  ∧ ¬ unique_claims (tree second.1).
Proof.
  intros first second.
  split; [vm_compute; reflexivity|].
  split; [vm_compute; reflexivity|].
  split; [vm_compute; reflexivity|].
  split; [vm_compute; reflexivity|].
  split; [vm_compute; reflexivity|].
  intros Huniq. specialize (Huniq "/data").
  assert (length (claimants (tree second.1) "/data") = 2) as Hlen
    by (vm_compute; reflexivity).
  rewrite Hlen in Huniq. lia.
Qed.

(** Two partitions ask for the same mount point one after the other: the
    second handler claims it anew. *)
Lemma new_request_claims_its_mount_point_witness :
  claimed_anew
    (PartitionData.final_mountpoint (part "/data" 200))
    (tree (PartitionData.execute (E:=sample_engine) (part "/data" 100) sample_world).1)
    (tree (PartitionData.execute (E:=sample_engine) (part "/data" 200)
             (PartitionData.execute (E:=sample_engine) (part "/data" 100)
                sample_world).1).1).
Proof.
  destruct (new_request_claims_its_mount_point (E:=sample_engine)) as (Hpart & _).
  assert (Hrun : PartitionData.execute (E:=sample_engine) (part "/data" 200)
                   (PartitionData.execute (E:=sample_engine) (part "/data" 100)
                      sample_world).1
                 = ((PartitionData.execute (E:=sample_engine) (part "/data" 200)
                       (PartitionData.execute (E:=sample_engine) (part "/data" 100)
                          sample_world).1).1, inr tt))
    by (vm_compute; reflexivity).
  exact (Hpart _ _ _ Hrun eq_refl eq_refl eq_refl).
Defined.

(** ** The certificate cache *)

(** The runs of [getEscrowCertificate], case by case. *)
Lemma getEscrowCertificate_run {E : Engine} url w :
  getEscrowCertificate url w
  = if negb (truthy url) then (w, inr None)
    else match escrowCertificates w !! url with
         | Some c => (w, inr (Some c))
         | None =>
           if negb (startswith url "/") && negb (startswith url "file:")
              && negb nm_is_connected
           then (w, inl (KickstartError
                           ("Escrow certificate " +:+ url +:+ " requires the network.")))
           else match urlopen url with
                | inl e => (w, inl (KickstartError
                    ("The following error was encountered while downloading the escrow certificate:"
                     +:+ nl +:+ nl +:+ e)))
                | inr (inl e) => (w, inl e)
                | inr (inr c) =>
                  (set_escrowCertificates (<[url := c]> (escrowCertificates w)) w,
                   inr (Some c))
                end
         end.
Proof.
  unfold getEscrowCertificate. destruct (negb (truthy url)); [reflexivity|].
  run. destruct (escrowCertificates w !! url); [reflexivity|].
  destruct (negb (startswith url "/") && negb (startswith url "file:")
            && negb nm_is_connected); [reflexivity|].
  by destruct (urlopen url) as [e|[e|c]].
Qed.

(** A certificate that [getEscrowCertificate] has returned is in the
    cache under its URL, nothing else of the state has changed, and every
    later call for that URL returns the same certificate from the cache
    and changes nothing, whatever the network and the server then do. *)
Theorem getEscrowCertificate_caches {E : Engine} url w w' c :
  getEscrowCertificate url w = (w', inr (Some c)) →
  escrowCertificates w' !! url = Some c
  ∧ (w' = w ∨ w' = set_escrowCertificates (<[url := c]> (escrowCertificates w)) w)
  ∧ ∀ E' : Engine, getEscrowCertificate (E:=E') url w' = (w', inr (Some c)).
Proof.
  rewrite getEscrowCertificate_run. intros Hrun.
  destruct (negb (truthy url)) eqn:Hurl; [discriminate|].
  assert (escrowCertificates w' !! url = Some c
          ∧ (w' = w ∨ w' = set_escrowCertificates (<[url := c]> (escrowCertificates w)) w))
    as [Hc Hw].
  { destruct (escrowCertificates w !! url) as [c0|] eqn:Hc0.
    - simplify_eq. split; [exact Hc0|by left].
    - destruct (negb _ && negb _ && negb _); [discriminate|].
      destruct (urlopen url) as [e|[e|c1]]; [discriminate..|]. simplify_eq.
      split; [apply lookup_insert_eq|by right]. }
  split; [exact Hc|]. split; [exact Hw|].
  intros E'. by rewrite getEscrowCertificate_run, Hurl, Hc.
Qed.

Lemma getEscrowCertificate_caches_witness :
  escrowCertificates
    (getEscrowCertificate (E:=sample_engine) "http://ks/escrow.pem" sample_world).1
  !! "http://ks/escrow.pem" = Some "certificate of http://ks/escrow.pem".
Proof.
  assert (Hrun : getEscrowCertificate (E:=sample_engine) "http://ks/escrow.pem" sample_world
                 = ((getEscrowCertificate (E:=sample_engine) "http://ks/escrow.pem"
                       sample_world).1,
                    inr (Some "certificate of http://ks/escrow.pem")))
    by (vm_compute; reflexivity).
  exact (proj1 (getEscrowCertificate_caches _ _ _ _ Hrun)).
Defined.

(** [getEscrowCertificate] returns no certificate for the empty URL only,
    and then touches nothing.  A run that fails has left the whole state,
    the cache with it, as it was, and was asked for a URL that is not in
    the cache; it fails in one of three ways: with the [KickstartError]
    that the certificate requires the network, with the [KickstartError]
    that reports the [URLGrabError] of the download, or, when the file
    was opened and reading it raised, with the exception of the read,
    which is raised as it is, whatever its kind.  A URL that is not in
    the cache and is neither an absolute path nor a [file:] URL fails in
    the first way whenever the network is down; an absolute path or a
    [file:] URL is opened without a look at the network. *)
Theorem getEscrowCertificate_failures {E : Engine} url w :
  (getEscrowCertificate url w = (w, inr None) ↔ url = "")
  ∧ (∀ w' r, getEscrowCertificate url w = (w', inr r) → r = None → w' = w)
  ∧ (∀ w' e, getEscrowCertificate url w = (w', inl e) →
             w' = w ∧ escrowCertificates w !! url = None
             ∧ (e = KickstartError
                      ("Escrow certificate " +:+ url +:+ " requires the network.")
                ∨ (∃ msg, urlopen url = inl msg
                          ∧ e = KickstartError
                                  ("The following error was encountered while downloading the escrow certificate:"
                                   +:+ nl +:+ nl +:+ msg))
                ∨ urlopen url = inr (inl e)))
  ∧ (url ≠ "" → escrowCertificates w !! url = None →
     startswith url "/" = false → startswith url "file:" = false →
     nm_is_connected = false →
     getEscrowCertificate url w
     = (w, inl (KickstartError
                  ("Escrow certificate " +:+ url +:+ " requires the network."))))
  ∧ (url ≠ "" → escrowCertificates w !! url = None →
     startswith url "/" = true ∨ startswith url "file:" = true →
     (∀ c, urlopen url = inr (inr c) →
           getEscrowCertificate url w
           = (set_escrowCertificates (<[url := c]> (escrowCertificates w)) w,
              inr (Some c)))
     ∧ (∀ e, urlopen url = inr (inl e) → getEscrowCertificate url w = (w, inl e))).
Proof.
  rewrite getEscrowCertificate_run.
  split; [|split; [|split; [|split]]].
  - split.
    + intros Hrun. destruct (negb (truthy url)) eqn:Hurl.
      * apply negb_true_iff in Hurl. destruct (String.eqb_spec url ""); [done|].
        by apply truthy_true in n; congruence.
      * destruct (escrowCertificates w !! url); [discriminate|].
        destruct (negb _ && negb _ && negb _); [discriminate|].
        destruct (urlopen url) as [e|[e|c]]; discriminate.
    + by intros ->.
  - intros w' r Hrun ->. destruct (negb (truthy url)); [by simplify_eq|].
    destruct (escrowCertificates w !! url); [discriminate|].
    destruct (negb _ && negb _ && negb _); [discriminate|].
    destruct (urlopen url) as [e|[e|c]]; discriminate.
  - intros w' e Hrun. destruct (negb (truthy url)); [discriminate|].
    destruct (escrowCertificates w !! url); [discriminate|].
    destruct (negb _ && negb _ && negb _).
    { simplify_eq. split; [done|]. split; [done|]. by left. }
    destruct (urlopen url) as [e0|[e0|c]]; [| |discriminate]; simplify_eq;
      (split; [done|]; split; [done|]; right); [left; eauto|by right].
  - intros Hurl Hc Hs Hf Hn. apply truthy_true in Hurl.
    by rewrite Hurl, Hc, Hs, Hf, Hn.
  - intros Hurl Hc Hlocal. apply truthy_true in Hurl. split.
    + intros c Hopen. rewrite Hurl, Hc, Hopen. simpl.
      by destruct Hlocal as [-> | ->]; rewrite ?andb_false_r.
    + intros e Hopen. rewrite Hurl, Hc, Hopen. simpl.
      by destruct Hlocal as [-> | ->]; rewrite ?andb_false_r.
Qed.

(** ** Aliases *)

(** [lookupAlias] returns the first device, in the order of the tree,
    that was requested under the alias, and nothing exactly when no
    device was. *)
Theorem lookupAlias_first_match (t : DeviceTree) alias :
  (∀ d, lookupAlias t alias = Some d ↔
        ∃ pre post, devices t = pre ++ d :: post
                    ∧ dev_req_name d = Some alias
                    ∧ ∀ x, x ∈ pre → dev_req_name x ≠ Some alias)
  ∧ (lookupAlias t alias = None ↔
     ∀ x, x ∈ devices t → dev_req_name x ≠ Some alias).
Proof.
  unfold lookupAlias. induction (devices t) as [|x ds [IH1 IH2]]; simpl.
  - split.
    + intros d. split; [discriminate|]. intros (pre & post & H & _).
      by destruct pre.
    + split; [|done]. intros _ x Hx. by apply elem_of_nil in Hx.
  - case_bool_decide as Hx; simpl.
    + split.
      * intros d. split.
        -- intros [= <-]. exists [], ds. split; [done|]. split; [done|].
           intros y Hy. by apply elem_of_nil in Hy.
        -- intros (pre & post & Heq & Hd & Hpre). destruct pre as [|y pre].
           ++ by simplify_eq/=.
           ++ simplify_eq/=. exfalso. apply (Hpre y); [left|done].
      * split; [discriminate|]. intros H. exfalso. apply (H x); [left|done].
    + split.
      * intros d. rewrite IH1. split.
        -- intros (pre & post & -> & Hd & Hpre). exists (x :: pre), post.
           split; [done|]. split; [done|].
           intros y [->|Hy]%elem_of_cons; [done|by apply Hpre].
        -- intros (pre & post & Heq & Hd & Hpre). destruct pre as [|y pre].
           ++ simplify_eq/=.
           ++ simplify_eq/=. exists pre, post. split; [done|]. split; [done|].
              intros z Hz. apply Hpre. by right.
      * rewrite IH2. split.
        -- intros H y [->|Hy]%elem_of_cons; [done|by apply H].
        -- intros H y Hy. apply H. by right.
Qed.

(** ** Removing the format of an existing device *)

Lemma remove_first_length leaf deps :
  length (remove_first leaf deps) ≤ length deps.
Proof.
  induction deps as [|d deps IH]; simpl; [lia|].
  case_bool_decide; simpl; lia.
Qed.

Lemma remove_first_length_lt leaf deps :
  (∃ d, d ∈ deps ∧ dev_id d = dev_id leaf) →
  length (remove_first leaf deps) < length deps.
Proof.
  induction deps as [|d deps IH]; simpl; intros (x & Hx & Hid).
  - by apply elem_of_nil in Hx.
  - case_bool_decide as Hd; simpl; [lia|].
    apply elem_of_cons in Hx as [->|Hx]; [done|].
    assert (length (remove_first leaf deps) < length deps) by (apply IH; eauto). lia.
Qed.

Lemma remove_first_subseteq leaf deps : remove_first leaf deps ⊆ deps.
Proof.
  induction deps as [|d deps IH]; simpl; [done|].
  case_bool_decide.
  - intros x Hx. by right.
  - intros x [->|Hx]%elem_of_cons; [left|right; by apply IH].
Qed.

Lemma remove_all_length leaves deps :
  length (foldl (λ ds leaf, remove_first leaf ds) deps leaves) ≤ length deps.
Proof.
  revert deps. induction leaves as [|l leaves IH]; intros deps; simpl; [lia|].
  etrans; [apply IH|apply remove_first_length].
Qed.

Lemma remove_all_subseteq leaves deps :
  foldl (λ ds leaf, remove_first leaf ds) deps leaves ⊆ deps.
Proof.
  revert deps. induction leaves as [|l leaves IH]; intros deps; simpl; [done|].
  etrans; [apply IH|apply remove_first_subseteq].
Qed.

Lemma remove_all_self deps :
  foldl (λ ds leaf, remove_first leaf ds) deps deps = [].
Proof.
  induction deps as [|d deps IH]; simpl; [done|].
  by rewrite bool_decide_true.
Qed.

Lemma filter_empty_iff {A} (P : A → Prop) `{∀ x, Decision (P x)} (l : list A) :
  filter P l = [] ↔ ∀ x, x ∈ l → ¬ P x.
Proof.
  induction l as [|y l IH]; simpl.
  - split; [|done]. intros _ x Hx. by apply elem_of_nil in Hx.
  - rewrite filter_cons. destruct (decide (P y)) as [Hy|Hy].
    + split; [discriminate|]. intros H0. exfalso. apply (H0 y); [left|done].
    + rewrite IH. split.
      * intros H0 x [->|Hx]%elem_of_cons; [done|by apply H0].
      * intros H0 x Hx. apply H0. by right.
Qed.

(** [destroyDevice] raises nothing but the [ValueError] of the engine. *)
Lemma destroyDevice_raises d w w' e :
  destroyDevice d w = (w', inl e) →
  w' = w ∧ e = ValueError "Cannot destroy non-leaf device".
Proof.
  rewrite destroyDevice_run. destruct (negb _); intros H; by simplify_eq.
Qed.

Lemma forM_destroy_raises ds w w' e :
  forM ds destroyDevice w = (w', inl e) →
  e = ValueError "Cannot destroy non-leaf device".
Proof.
  revert w. induction ds as [|d ds IH]; intros w; simpl; [discriminate|].
  rewrite bind_run. destruct (destroyDevice d w) as [w1 [e1|[]]] eqn:Hd.
  - intros [= <- <-]. by apply destroyDevice_raises in Hd as [_ ->].
  - rewrite bind_run. destruct (forM ds destroyDevice w1) as [w2 [e2|r]] eqn:Hds.
    + intros [= <- <-]. by eapply IH.
    + discriminate.
Qed.

(** A round that finds no leaf changes nothing, so every later round
    finds none either: the loop does not end, whatever the fuel. *)
Lemma removeExistingFormat_loop_stuck fuel deps w :
  deps ≠ [] →
  (∀ d, d ∈ deps → isleaf (tree w) d = false) →
  removeExistingFormat_loop fuel deps w = (w, inl NonTermination).
Proof.
  intros Hne Hstuck. induction fuel as [|fuel IH]; destruct deps as [|d deps]; try done.
  cbn [removeExistingFormat_loop]. rewrite bind_run. cbn [gets].
  assert (filter (λ x, isleaf (tree w) x) (d :: deps) = []) as ->.
  { apply filter_empty_iff. intros x Hx.
    rewrite (Hstuck x Hx). exact id. }
  rewrite bind_run. simpl. exact IH.
Qed.

(** With as much fuel as there are dependents the loop runs out of it
    only from a round that found no leaf. *)
Lemma removeExistingFormat_loop_diverges fuel deps w w' :
  length deps ≤ fuel →
  removeExistingFormat_loop fuel deps w = (w', inl NonTermination) →
  ∃ deps', deps' ≠ [] ∧ deps' ⊆ deps
           ∧ ∀ d, d ∈ deps' → isleaf (tree w') d = false.
Proof.
  revert deps w. induction fuel as [|fuel IH]; intros deps w Hlen Hrun.
  - destruct deps; [discriminate|simpl in Hlen; lia].
  - destruct deps as [|d deps]; [discriminate|].
    cbn [removeExistingFormat_loop] in Hrun. rewrite bind_run in Hrun. cbn [gets] in Hrun.
    destruct (filter (λ x, isleaf (tree w) x) (d :: deps)) as [|l leaves] eqn:Hleaves.
    + assert (∀ x, x ∈ d :: deps → isleaf (tree w) x = false) as Hstuck.
      { intros x Hx. pose proof (proj1 (filter_empty_iff _ _) Hleaves x Hx) as Hn.
        destruct (isleaf (tree w) x) eqn:Hleaf; [|done].
        exfalso. apply Hn. simpl. by rewrite Hleaf. }
      rewrite bind_run in Hrun. simpl in Hrun.
      rewrite removeExistingFormat_loop_stuck in Hrun by done. simplify_eq.
      exists (d :: deps). done.
    + rewrite bind_run in Hrun.
      destruct (forM (l :: leaves) destroyDevice w) as [w1 [e|r]] eqn:Hdestroy.
      * simplify_eq. by apply forM_destroy_raises in Hdestroy.
      * assert (l ∈ d :: deps) as Hl.
        { assert (l ∈ filter (λ x, isleaf (tree w) x) (d :: deps)) as Hin
            by (rewrite Hleaves; left).
          by apply list_elem_of_filter in Hin as [_ ?]. }
        apply IH in Hrun as (deps' & Hne & Hsub & Hstuck).
        -- exists deps'. split; [done|]. split; [|done].
           etrans; [exact Hsub|apply remove_all_subseteq].
        -- cbn [foldl].
           pose proof (remove_all_length leaves (remove_first l (d :: deps))).
           pose proof (remove_first_length_lt l (d :: deps)
                         (ex_intro _ l (conj Hl eq_refl))).
           simpl in *. lia.
Qed.

(** [removeExistingFormat] does not end exactly when it comes to a round
    in which dependents are left and none of them is a leaf: if that is
    so at the start it registers nothing and never returns, and whenever
    it does not return such dependents remain in the state it has
    reached.  An error it raises is the engine's refusal to destroy. *)
Theorem removeExistingFormat_divergence {E : Engine} device w :
  (deviceDeps (tree w) device ≠ [] →
   (∀ d, d ∈ deviceDeps (tree w) device → isleaf (tree w) d = false) →
   removeExistingFormat device w = (w, inl NonTermination))
  ∧ (∀ w', removeExistingFormat device w = (w', inl NonTermination) →
           ∃ deps, deps ≠ [] ∧ deps ⊆ deviceDeps (tree w) device
                   ∧ ∀ d, d ∈ deps → isleaf (tree w') d = false)
  ∧ (∀ w' e, removeExistingFormat device w = (w', inl e) →
             e = NonTermination ∨ e = ValueError "Cannot destroy non-leaf device").
Proof.
  unfold removeExistingFormat. split; [|split].
  - intros Hne Hstuck. rewrite bind_run. cbn [gets]. rewrite bind_run.
    by rewrite removeExistingFormat_loop_stuck.
  - intros w' Hrun. rewrite bind_run in Hrun. cbn [gets] in Hrun.
    rewrite bind_run in Hrun.
    destruct (removeExistingFormat_loop _ _ w) as [w1 [e|[]]] eqn:Hloop.
    + simplify_eq. by apply removeExistingFormat_loop_diverges in Hloop.
    + discriminate.
  - intros w' e Hrun. rewrite bind_run in Hrun. cbn [gets] in Hrun.
    rewrite bind_run in Hrun.
    destruct (removeExistingFormat_loop _ _ w) as [w1 [e1|[]]] eqn:Hloop;
      [|discriminate].
    simplify_eq. clear -Hloop.
    revert Hloop. generalize (deviceDeps (tree w) device) at 2. intros deps.
    generalize (length (deviceDeps (tree w) device)). intros fuel.
    revert deps w. induction fuel as [|fuel IH]; intros deps w Hloop.
    + destruct deps; [discriminate|]. simpl in Hloop. run in Hloop.
      simplify_eq. by left.
    + destruct deps as [|d deps]; [discriminate|].
      cbn [removeExistingFormat_loop] in Hloop. rewrite bind_run in Hloop.
      cbn [gets] in Hloop. rewrite bind_run in Hloop.
      destruct (forM _ destroyDevice w) as [w2 [e2|r]] eqn:Hd.
      * simplify_eq. right. by eapply forM_destroy_raises.
      * by eapply IH.
Qed.

Lemma set_tree_set_tree t t' w : set_tree t' (set_tree t w) = set_tree t' w.
Proof. by destruct w. Qed.

Lemma set_tree_same w : set_tree (tree w) w = w.
Proof. by destruct w. Qed.

Lemma filter_all {A} (P : A → Prop) `{∀ x, Decision (P x)} (l : list A) :
  (∀ x, x ∈ l → P x) → filter P l = l.
Proof.
  induction l as [|y l IH]; intros Hall; [done|].
  rewrite filter_cons_True by (apply Hall; left).
  f_equal. apply IH. intros x Hx. apply Hall. by right.
Qed.

Lemma isleaf_filter (P : Device → Prop) `{∀ x, Decision (P x)} ds acts n acts' n' d :
  isleaf (mkTree ds acts n) d = true →
  isleaf (mkTree (filter P ds) acts' n') d = true.
Proof.
  unfold isleaf, getChildren. cbn [devices].
  rewrite !bool_decide_eq_true, !filter_empty_iff.
  intros Hleaf x [_ Hx]%list_elem_of_filter. by apply Hleaf.
Qed.

(** Destroying leaves one after the other: each is still a leaf when its
    turn comes, so all of them go. *)
Lemma forM_destroy_leaves ds w :
  (∀ d, d ∈ ds → isleaf (tree w) d = true) →
  ∃ r, forM ds destroyDevice w
       = (set_tree
            (mkTree (filter (λ x, dev_id x ∉ map dev_id ds) (devices (tree w)))
                    (actions (tree w)
                     ++ concat (map (λ d,
                          (if fmt_exists (dev_format d)
                              && bool_decide (is_Some (fmt_type (dev_format d)))
                           then [ActionDestroyFormat (dev_id d)] else [])
                          ++ [ActionDestroyDevice (dev_id d)]) ds))
                    (next_id (tree w))) w,
          inr r).
Proof.
  revert w. induction ds as [|d ds IH]; intros w Hleaves.
  - exists []. simpl. rewrite app_nil_r.
    rewrite (filter_all _ (devices (tree w))).
    + by destruct w as [? ? ? ? ? [] ? ? ?].
    + intros x _ Hx. by apply elem_of_nil in Hx.
  - simpl. rewrite bind_run, destroyDevice_run.
    rewrite (Hleaves d) by left. cbn [negb].
    set (w1 := set_tree _ w).
    destruct (IH w1) as [r Hr].
    { intros d' Hd'. unfold w1. cbn [tree set_tree].
      destruct w as [? ? ? ? ? [devs acts n] ? ? ?]. cbn.
      eapply (isleaf_filter _ devs acts n). apply (Hleaves d'). by right. }
    rewrite bind_run, Hr. exists (() :: r). unfold w1.
    rewrite set_tree_set_tree. cbn [tree set_tree devices actions next_id].
    destruct w as [? ? ? ? ? [devs acts n] ? ? ?]. cbn.
    rewrite list_filter_filter, <- !app_assoc.
    rewrite (list_filter_iff _ (λ x, dev_id x ∉ dev_id d :: map dev_id ds) devs);
      [reflexivity|].
    intros x. rewrite not_elem_of_cons. tauto.
Qed.

(** When every dependent of the device is a leaf, [removeExistingFormat]
    returns after one round: the dependents are destroyed in the order
    the engine lists them, each after its existing format, then the
    destruction of the device's own format is registered; the dependents
    leave the tree and nothing else of the state changes. *)
Theorem removeExistingFormat_destroys_leaves {E : Engine} device w :
  (∀ d, d ∈ deviceDeps (tree w) device → isleaf (tree w) d = true) →
  removeExistingFormat device w
  = (set_tree
       (mkTree (filter (λ x, dev_id x ∉ map dev_id (deviceDeps (tree w) device))
                       (devices (tree w)))
               (actions (tree w)
                ++ concat (map (λ d,
                     (if fmt_exists (dev_format d)
                         && bool_decide (is_Some (fmt_type (dev_format d)))
                      then [ActionDestroyFormat (dev_id d)] else [])
                     ++ [ActionDestroyDevice (dev_id d)])
                     (deviceDeps (tree w) device))
                ++ [ActionDestroyFormat (dev_id device)])
               (next_id (tree w))) w,
     inr tt).
Proof.
  intros Hleaves. unfold removeExistingFormat. rewrite bind_run. cbn [gets].
  rewrite bind_run.
  destruct (deviceDeps (tree w) device) as [|d deps] eqn:Hdeps.
  - simpl. unfold registerAction. run.
    rewrite (filter_all _ (devices (tree w))); [reflexivity|].
    intros x _ Hx. by apply elem_of_nil in Hx.
  - cbn [length removeExistingFormat_loop]. rewrite bind_run. cbn [gets].
    assert (filter (λ x, isleaf (tree w) x) (d :: deps) = d :: deps) as ->.
    { apply filter_all. intros x Hx. by rewrite (Hleaves x Hx). }
    destruct (forM_destroy_leaves (d :: deps) w Hleaves) as [r Hr].
    rewrite bind_run, Hr, remove_all_self.
    assert (∀ w0, removeExistingFormat_loop (length deps) [] w0 = (w0, inr tt)) as ->
      by (intros w0; by destruct (length deps)).
    unfold registerAction. run. rewrite set_tree_set_tree.
    cbn [tree set_tree devices actions next_id].
    destruct w as [? ? ? ? ? [devs acts n] ? ? ?]. cbn. by rewrite <- app_assoc.
Qed.

Lemma removeExistingFormat_destroys_leaves_witness :
  map dev_name
      (devices (tree (removeExistingFormat (E:=sample_engine)
                        (existing_device 3 LVMVolumeGroupDevice "sys"
                                         (existing_format None false) [2] 80000)
                        sample_world).1))
  = ["sda"; "sda1"; "sda2"; "sys"].
Proof.
  rewrite (removeExistingFormat_destroys_leaves (E:=sample_engine)).
  - vm_compute. reflexivity.
  - intros d Hd. vm_compute in Hd. apply list_elem_of_singleton in Hd. subst d.
    vm_compute. reflexivity.
Defined.

Lemma removeExistingFormat_divergence_witness :
  removeExistingFormat (E:=sample_engine)
    (existing_device 2 PartitionDevice "sda2" (existing_format (Some "lvmpv") false)
                     [0] 80000)
    sample_world
  = (sample_world, inl NonTermination).
Proof.
  apply (proj1 (removeExistingFormat_divergence (E:=sample_engine) _ _)).
  - vm_compute. discriminate.
  - intros d Hd. vm_compute in Hd. apply list_elem_of_singleton in Hd. subst d.
    vm_compute. reflexivity.
Defined.

(** ** The boot loader *)

Lemma list_remove_first pre x l :
  x ∉ pre → list_remove x (pre ++ x :: l) = pre ++ l.
Proof.
  induction pre as [|y pre IH]; simpl; intros Hx.
  - by rewrite String.eqb_refl.
  - apply not_elem_of_cons in Hx as [Hne Hx].
    destruct (String.eqb_spec y x); [congruence|]. by rewrite IH.
Qed.

(** Removing from a list, while walking over a copy of it, every element
    that fails a test leaves the elements that pass it, in order. *)
Lemma remove_while_iterating (bad : string → bool) pre l :
  (∀ x, x ∈ pre → bad x = false) →
  foldl (λ order drive, if bad drive then list_remove drive order else order)
        (pre ++ l) l
  = pre ++ filter (λ x, bad x = false) l.
Proof.
  revert pre. induction l as [|x l IH]; intros pre Hpre; simpl; [done|].
  destruct (bad x) eqn:Hx.
  - rewrite list_remove_first.
    + rewrite IH by done. by rewrite filter_cons_False by congruence.
    + intros Hin. specialize (Hpre x Hin). congruence.
  - rewrite filter_cons_True by done.
    rewrite (cons_middle x pre l), app_assoc. rewrite IH.
    + by rewrite <- app_assoc.
    + intros y [Hy| ->%list_elem_of_singleton]%elem_of_app; [by apply Hpre|done].
Qed.

(** The boot loader handler with a location to install to: the settings
    are stored, then the boot drive is chosen. *)
Lemma bootloader_execute_run {E : Engine} self w loc :
  bootloader_location self = Some loc → loc ≠ "" →
  Bootloader.execute self w
  = if truthy (Bootloader.bootDrive self) then
      if (1 <? Z.of_nat (size (list_to_set
                                 (deviceMatches (Bootloader.bootDrive self))
                               : gset string)))%Z
      then (bootloader_stored self loc w,
            inl (KickstartValueError (Bootloader.lineno self)
                   ("Too many values provided for boot drive: "
                    +:+ Bootloader.bootDrive self)))
      else if Bootloader.no_match (Bootloader.bootDrive self)
                (list_to_set (bootloader_disk_names (tree w)))
      then (bootloader_stored self loc w,
            inl (KickstartValueError (Bootloader.lineno self)
                   ("Requested boot drive " +:+ Bootloader.bootDrive self
                    +:+ " doesn't exist or cannot be used")))
      else (bootloader_finish self (bootloader_stored self loc w)
              (resolveDevice (tree w) (Bootloader.bootDrive self)), inr tt)
    else match bootloader_disk_names (tree w) with
         | n :: _ => (bootloader_finish self (bootloader_stored self loc w)
                        (resolveDevice (tree w) n), inr tt)
         | [] => (bootloader_stored self loc w, inl IndexError)
         end.
Proof.
  intros Hloc Hne.
  unfold Bootloader.execute. unfold bootloader_location in Hloc.
  cbv zeta in *.
  set (loc' := if String.eqb (if imageInstall && isS390 then "none"
                              else Bootloader.location self) "none"
               then None
               else if String.eqb (if imageInstall && isS390 then "none"
                                   else Bootloader.location self) "partition"
                    then Some "boot"
                    else Some (if imageInstall && isS390 then "none"
                               else Bootloader.location self)) in *.
  rewrite Hloc. destruct loc as [|a loc]; [done|].
  destruct w as [da ep ec aps cfg t [sk ba pw epw ps tm dor s1d] lbo onp].
  pose proof (remove_while_iterating
                (λ drive, Bootloader.no_match drive
                            (list_to_set (bootloader_disk_names t)))
                [] (Bootloader.driveorder self)
                ltac:(intros x Hx; by apply elem_of_nil in Hx)) as Hfilter.
  cbn [app] in Hfilter.
  unfold bootloader_stored, bootloader_finish.
  destruct (truthy (Bootloader.appendLine self)),
    (truthy (Bootloader.password self)), (Bootloader.isCrypted self),
    (Bootloader.timeout self);
    cbv beta iota zeta delta
      [mbind mret ST_bind ST_ret raise gets modify fst snd
       doAutoPart encryptionPassphrase escrowCertificates autoPartSettings
       config leavebootorder ksdata_onPart set_leavebootorder
       tree bootloader set_bootloader skip_bootloader boot_args bl_password
       bl_encrypted_password preferred_stage1_type bl_timeout disk_order
       stage1_disk];
    cbn [andb negb]; fold (bootloader_disk_names t); rewrite Hfilter;
    (destruct (truthy (Bootloader.bootDrive self));
     [ destruct (1 <? _)%Z; [reflexivity|];
       destruct (Bootloader.no_match (Bootloader.bootDrive self) _); [reflexivity|];
       destruct (Bootloader.leavebootorder self); reflexivity
     | destruct (bootloader_disk_names t); [reflexivity|];
       destruct (Bootloader.leavebootorder self); reflexivity ]).
Qed.

Lemma bootloader_finish_keeps self w1 drive :
  tree (bootloader_finish self w1 drive) = tree w1
  ∧ disk_order (bootloader (bootloader_finish self w1 drive))
    = disk_order (bootloader w1).
Proof.
  unfold bootloader_finish. cbv zeta.
  destruct (Bootloader.leavebootorder self); by destruct w1.
Qed.

(** With a location to install to, [Bootloader.execute] stores as the
    drive order the drives of the command's [driveorder], in order and
    as often as given, for which [deviceMatches] finds a usable disk, and
    drops every other one; this is so on every run, failing or not.  So
    each drive of the stored order has a match among the usable disks. *)
Theorem bootloader_drive_order {E : Engine} self w loc :
  bootloader_location self = Some loc → loc ≠ "" →
  disk_order (bootloader (Bootloader.execute self w).1)
  = filter (λ drive, Bootloader.no_match drive
                       (list_to_set (bootloader_disk_names (tree w))) = false)
           (Bootloader.driveorder self)
  ∧ ∀ drive, drive ∈ disk_order (bootloader (Bootloader.execute self w).1) →
             drive ∈ Bootloader.driveorder self
             ∧ ∃ name, name ∈ deviceMatches drive
                       ∧ name ∈ bootloader_disk_names (tree w).
Proof.
  intros Hloc Hne.
  assert (disk_order (bootloader (Bootloader.execute self w).1)
          = disk_order (bootloader (bootloader_stored self loc w))) as Heq.
  { rewrite (bootloader_execute_run self w loc Hloc Hne).
    destruct (truthy _); [destruct (1 <? _)%Z; [done|];
                          destruct (Bootloader.no_match _ _); [done|]|
                          destruct (bootloader_disk_names _); [done|]];
      apply bootloader_finish_keeps. }
  rewrite Heq. change (disk_order (bootloader (bootloader_stored self loc w)))
    with (filter (λ drive, Bootloader.no_match drive
                             (list_to_set (bootloader_disk_names (tree w))) = false)
                 (Bootloader.driveorder self)).
  split; [reflexivity|].
  intros drive [Hmatch Hin]%list_elem_of_filter. split; [exact Hin|].
  unfold Bootloader.no_match in Hmatch. apply bool_decide_eq_false in Hmatch.
  apply set_choose_L in Hmatch as [name Hname].
  apply elem_of_intersection in Hname as [H1 H2].
  exists name. by rewrite !elem_of_list_to_set in H1, H2.
Qed.

Lemma bootloader_drive_order_witness :
  disk_order
    (bootloader
       (Bootloader.execute (E:=sample_engine)
          (Bootloader.mk 7 "mbr" "" "" false None ["sdb"; "sda"; "sdb"] "" false)
          sample_world).1)
  = ["sda"].
Proof.
  destruct (bootloader_drive_order (E:=sample_engine)
              (Bootloader.mk 7 "mbr" "" "" false None ["sdb"; "sda"; "sdb"] "" false)
              sample_world "mbr" eq_refl ltac:(discriminate)) as [-> _].
  vm_compute. reflexivity.
Defined.

(** The outcomes of [Bootloader.execute].  Without a location to install
    to ([none], an empty one, or an image install on s390) it marks the
    boot loader as skipped, checks nothing and returns.  With one, the
    tree stays as it is and the handler returns exactly when the boot
    drive it was given has at most one match and that match is a usable
    disk, or, given none, when there is a usable disk; it raises only
    [KickstartValueError]s of its own line and, exactly when it was given
    no boot drive and there is no usable disk, the uncaught [IndexError]
    of [disk_names[0]].  Off s390 that cannot happen in a state that has
    an eligible disk, which is what [doKickstartStorage] checks first. *)
Theorem bootloader_outcomes {E : Engine} self w :
  (bootloader_location self = None ∨ bootloader_location self = Some "" →
   Bootloader.execute self w
   = (let b := bootloader w in
      set_bootloader (mkBootLoader true (boot_args b) (bl_password b)
                        (bl_encrypted_password b) (preferred_stage1_type b)
                        (bl_timeout b) (disk_order b) (stage1_disk b)) w,
      inr tt))
  ∧ (∀ loc, bootloader_location self = Some loc → loc ≠ "" →
       tree (Bootloader.execute self w).1 = tree w
       ∧ (returned (Bootloader.execute self w).2 ↔
          if truthy (Bootloader.bootDrive self)
          then size (list_to_set (deviceMatches (Bootloader.bootDrive self))
                     : gset string) ≤ 1
               ∧ Bootloader.no_match (Bootloader.bootDrive self)
                   (list_to_set (bootloader_disk_names (tree w))) = false
          else bootloader_disk_names (tree w) ≠ [])
       ∧ ((Bootloader.execute self w).2 = inl IndexError ↔
          Bootloader.bootDrive self = "" ∧ bootloader_disk_names (tree w) = [])
       ∧ ∀ e, (Bootloader.execute self w).2 = inl e →
              e = IndexError
              ∨ ∃ msg, e = KickstartValueError (Bootloader.lineno self) msg)
  ∧ (isS390 = false → eligible_disks w ≠ [] →
     (Bootloader.execute self w).2 ≠ inl IndexError).
Proof.
  assert (Hskip : bootloader_location self = None ∨ bootloader_location self = Some "" →
    Bootloader.execute self w
    = (let b := bootloader w in
       set_bootloader (mkBootLoader true (boot_args b) (bl_password b)
                         (bl_encrypted_password b) (preferred_stage1_type b)
                         (bl_timeout b) (disk_order b) (stage1_disk b)) w,
       inr tt)).
  { unfold Bootloader.execute, bootloader_location. cbv zeta.
    intros [-> | ->]; reflexivity. }
  assert (Hgo : ∀ loc, bootloader_location self = Some loc → loc ≠ "" →
       tree (Bootloader.execute self w).1 = tree w
       ∧ (returned (Bootloader.execute self w).2 ↔
          if truthy (Bootloader.bootDrive self)
          then size (list_to_set (deviceMatches (Bootloader.bootDrive self))
                     : gset string) ≤ 1
               ∧ Bootloader.no_match (Bootloader.bootDrive self)
                   (list_to_set (bootloader_disk_names (tree w))) = false
          else bootloader_disk_names (tree w) ≠ [])
       ∧ ((Bootloader.execute self w).2 = inl IndexError ↔
          Bootloader.bootDrive self = "" ∧ bootloader_disk_names (tree w) = [])
       ∧ ∀ e, (Bootloader.execute self w).2 = inl e →
              e = IndexError
              ∨ ∃ msg, e = KickstartValueError (Bootloader.lineno self) msg).
  { intros loc Hloc Hne.
    rewrite (bootloader_execute_run self w loc Hloc Hne).
    assert (tree (bootloader_stored self loc w) = tree w) as Htree by reflexivity.
    destruct (truthy (Bootloader.bootDrive self)) eqn:Hdrive.
    - apply truthy_true in Hdrive.
      destruct (1 <? _)%Z eqn:Hmany; [|destruct (Bootloader.no_match _ _) eqn:Hno];
        cbn [fst snd].
      + apply Z.ltb_lt in Hmany.
        split; [exact Htree|]. split; [|split].
        * split; [intros [? [=]]|intros [? _]; lia].
        * split; [discriminate|]. by intros [? _].
        * intros e [= <-]. right. eauto.
      + split; [exact Htree|]. split; [|split].
        * split; [intros [? [=]]|intros [_ [=]]].
        * split; [discriminate|]. by intros [? _].
        * intros e [= <-]. right. eauto.
      + apply Z.ltb_ge in Hmany.
        split; [by rewrite (proj1 (bootloader_finish_keeps _ _ _))|].
        split; [|split].
        * split; [intros _; split; [lia|done]|intros _; by eexists].
        * split; [discriminate|]. by intros [? _].
        * discriminate.
    - assert (Bootloader.bootDrive self = "") as Hempty.
      { destruct (String.eqb_spec (Bootloader.bootDrive self) ""); [done|].
        by apply truthy_true in n; congruence. }
      destruct (bootloader_disk_names (tree w)) as [|n names]; cbn [fst snd].
      + split; [exact Htree|]. split; [|split].
        * split; [intros [? [=]]|done].
        * done.
        * intros e [= <-]. by left.
      + split; [by rewrite (proj1 (bootloader_finish_keeps _ _ _))|].
        split; [|split].
        * split; [done|intros _; by eexists].
        * split; [discriminate|]. by intros [_ [=]].
        * discriminate. }
  split; [exact Hskip|]. split; [exact Hgo|].
  intros Hs390 Hdisks.
  assert (bootloader_disk_names (tree w) ≠ []) as Hnames.
  { unfold bootloader_disk_names. rewrite Hs390. cbn [negb orb].
    unfold eligible_disks in Hdisks. intros Hnil. apply Hdisks.
    apply fmap_nil_inv in Hnil.
    rewrite <- Hnil. apply list_filter_iff. intros d. by rewrite andb_true_r. }
  destruct (bootloader_location self) as [[|a loc]|] eqn:Hloc.
  - rewrite Hskip by (by right). discriminate.
  - destruct (Hgo (String a loc) eq_refl ltac:(discriminate)) as (_ & _ & Hidx & _).
    intros Hbad. apply Hidx in Hbad as [_ Hnil]. done.
  - rewrite Hskip by (by left). discriminate.
Qed.

(** ** Automatic partitioning *)

(** [AutoPart.execute] without [--autopart] does nothing.  When it
    returns after it was asked to partition, automatic partitioning is
    switched on and the tree is the one the engine's pass made; with
    [--encrypted] the default passphrase is the command's own, whatever
    it was before and even when the command's is empty, and the cipher
    and the backup flag are the command's; without it they are as they
    were; the partitioning type is the command's when there is one. *)
Theorem autopart_execute_settings {E : Engine} self w w' :
  AutoPart.execute self w = (w', inr tt) →
  if AutoPart.autopart self then
    doAutoPart w' = true
    ∧ encryptionPassphrase w'
      = (if AutoPart.encrypted self then Some (AutoPart.passphrase self)
         else encryptionPassphrase w)
    ∧ encryptedAutoPart (autoPartSettings w')
      = (AutoPart.encrypted self || encryptedAutoPart (autoPartSettings w))
    ∧ encryptionCipher (autoPartSettings w')
      = (if AutoPart.encrypted self then AutoPart.cipher self
         else encryptionCipher (autoPartSettings w))
    ∧ autoPartAddBackupPassphrase (autoPartSettings w')
      = (if AutoPart.encrypted self then AutoPart.backuppassphrase self
         else autoPartAddBackupPassphrase (autoPartSettings w))
    ∧ autoPartType (autoPartSettings w')
      = (if AutoPart.type self is Some ty then Some ty
         else autoPartType (autoPartSettings w))
    ∧ (AutoPart.encrypted self = true →
       autoPartEscrowCert (autoPartSettings w')
       = (if truthy (AutoPart.escrowcert self)
          then escrowCertificates w' !! AutoPart.escrowcert self else None))
  else w' = w.
Proof.
  unfold AutoPart.execute. destruct (AutoPart.autopart self); simpl.
  2:{ by intros [= ->]. }
  intros Hrun.
  apply bind_inv in Hrun as (w1 & [] & H1 & Hrun). run in H1. simplify_eq.
  apply bind_inv in Hrun as (w2 & [] & H2 & Hrun). run in H2. simplify_eq.
  apply bind_inv in Hrun as (w3 & [] & H3 & Hrun).
  apply bind_inv in Hrun as (w4 & [] & H4 & Hrun).
  unfold engine_pass in Hrun. run in Hrun. cbn [id] in Hrun.
  destruct (doAutoPartition w4) as [e|t] eqn:Hpass; [discriminate|]. simplify_eq.
  assert (w4 = match AutoPart.type self with
               | Some ty => set_autoPartSettings
                   (mkAutoPart (encryptedAutoPart (autoPartSettings w3))
                      (encryptionCipher (autoPartSettings w3))
                      (autoPartEscrowCert (autoPartSettings w3))
                      (autoPartAddBackupPassphrase (autoPartSettings w3))
                      (Some ty)) w3
               | None => w3
               end) as ->.
  { destruct (AutoPart.type self); run in H4; by simplify_eq. }
  clear H4 Hpass.
  destruct (AutoPart.encrypted self).
  - apply bind_inv in H3 as (w5 & [] & H5 & H3). run in H5. simplify_eq.
    apply bind_inv in H3 as (w6 & [] & H6 & H3). run in H6. simplify_eq.
    apply bind_inv in H3 as (w7 & [] & H7 & H3). run in H7. simplify_eq.
    apply bind_inv in H3 as (w8 & cert & H8 & H3). run in H3. simplify_eq.
    rewrite getEscrowCertificate_run in H8.
    assert (cert = (if truthy (AutoPart.escrowcert self)
                    then escrowCertificates w8 !! AutoPart.escrowcert self
                    else None)
            ∧ doAutoPart w8 = true
            ∧ encryptionPassphrase w8 = Some (AutoPart.passphrase self)
            ∧ autoPartSettings w8
              = mkAutoPart true (AutoPart.cipher self)
                  (autoPartEscrowCert (autoPartSettings w))
                  (autoPartAddBackupPassphrase (autoPartSettings w))
                  (autoPartType (autoPartSettings w)))
      as (-> & Hd & Hp & Hs).
    { destruct (truthy (AutoPart.escrowcert self)); cbn [negb] in H8.
      - destruct (escrowCertificates _ !! _) as [c|] eqn:Hc.
        + simplify_eq. rewrite <- Hc. by destruct w.
        + destruct (negb _ && negb _ && negb _); [discriminate|].
          destruct (urlopen _) as [e|[e|c]]; [discriminate..|]. simplify_eq.
          cbn. rewrite lookup_insert_eq. by destruct w.
      - simplify_eq. by destruct w. }
    destruct (AutoPart.type self), w8;
      cbn in *; rewrite ?Hs; cbn; repeat split; auto.
  - run in H3. simplify_eq.
    destruct (AutoPart.type self), w; cbn; repeat split; auto; discriminate.
Qed.

Lemma autopart_execute_settings_witness :
  encryptionPassphrase
    (AutoPart.execute (E:=sample_engine)
       (AutoPart.mk true true "" "aes" "" false None)
       (set_encryptionPassphrase (Some "abc123") sample_world)).1
  = Some "".
Proof.
  assert (Hrun : AutoPart.execute (E:=sample_engine)
                   (AutoPart.mk true true "" "aes" "" false None)
                   (set_encryptionPassphrase (Some "abc123") sample_world)
                 = ((AutoPart.execute (E:=sample_engine)
                       (AutoPart.mk true true "" "aes" "" false None)
                       (set_encryptionPassphrase (Some "abc123") sample_world)).1,
                    inr tt))
    by (vm_compute; reflexivity).
  exact (proj1 (proj2 (autopart_execute_settings _ _ _ Hrun))).
Defined.

(** ** The commands that hold a list of sub-items *)

(** A loop raises what the first failing round raises, in the state that
    round left; nothing after it runs. *)
Lemma forM_first_failure {S A B} (f : A → ST S B) pre x post s s1 rs s2 e :
  forM pre f s = (s1, inr rs) → f x s1 = (s2, inl e) →
  forM (pre ++ x :: post) f s = (s2, inl e).
Proof.
  revert s rs. induction pre as [|y pre IH]; intros s rs Hpre Hx; simpl in *.
  - run in Hpre. simplify_eq. by rewrite bind_run, Hx.
  - apply bind_inv in Hpre as (s' & b & Hy & Hpre).
    apply bind_inv in Hpre as (s'' & bs & Hpre & Hret). run in Hret. simplify_eq.
    rewrite bind_run, Hy, bind_run. by rewrite (IH _ _ Hpre Hx).
Qed.

(** The five commands that hold a list of sub-items ([part], [raid],
    [volgroup], [logvol], [btrfs]) run the handlers of their sub-items in
    the order of the list and stop at the first one that fails: the
    command raises what that handler raised, in the state that handler
    left, so no later sub-item has run and the finalizing pass of the
    engine ([doPartitioning] for [part], [growLVM] for [logvol]) has not
    run.  When all sub-items have returned, that pass runs once, on the
    state they left, if there was a sub-item at all; for an empty list
    nothing happens. *)
Theorem list_commands_stop_at_first_failure {E : Engine} :
  (∀ pre x post w w1 rs w2 e,
      forM pre PartitionData.execute w = (w1, inr rs) →
      PartitionData.execute x w1 = (w2, inl e) →
      Partition_execute (pre ++ x :: post) w = (w2, inl e))
  ∧ (∀ pre x post w w1 rs w2 e,
        forM pre RaidData.execute w = (w1, inr rs) →
        RaidData.execute x w1 = (w2, inl e) →
        Raid_execute (pre ++ x :: post) w = (w2, inl e))
  ∧ (∀ pre x post w w1 rs w2 e,
        forM pre VolGroupData.execute w = (w1, inr rs) →
        VolGroupData.execute x w1 = (w2, inl e) →
        VolGroup_execute (pre ++ x :: post) w = (w2, inl e))
  ∧ (∀ pre x post w w1 rs w2 e,
        forM pre LogVolData.execute w = (w1, inr rs) →
        LogVolData.execute x w1 = (w2, inl e) →
        LogVol_execute (pre ++ x :: post) w = (w2, inl e))
  ∧ (∀ pre x post w w1 rs w2 e,
        forM pre BTRFSData.execute w = (w1, inr rs) →
        BTRFSData.execute x w1 = (w2, inl e) →
        BTRFS_execute (pre ++ x :: post) w = (w2, inl e))
  ∧ (∀ ps w w1 rs,
        forM ps PartitionData.execute w = (w1, inr rs) →
        Partition_execute ps w
        = if bool_decide (ps = []) then (w, inr tt)
          else match doPartitioning (tree w1) with
               | inl e => (w1, inl e)
               | inr t => (set_tree t w1, inr tt)
               end)
  ∧ (∀ lvs w w1 rs,
        forM lvs LogVolData.execute w = (w1, inr rs) →
        LogVol_execute lvs w
        = if bool_decide (lvs = []) then (w, inr tt)
          else match growLVM (tree w1) with
               | inl e => (w1, inl e)
               | inr t => (set_tree t w1, inr tt)
               end).
Proof.
  repeat split.
  - intros * Hpre Hx. unfold Partition_execute.
    by rewrite bind_run, (forM_first_failure _ _ _ _ _ _ _ _ _ Hpre Hx).
  - intros * Hpre Hx. unfold Raid_execute.
    by rewrite bind_run, (forM_first_failure _ _ _ _ _ _ _ _ _ Hpre Hx).
  - intros * Hpre Hx. unfold VolGroup_execute.
    by rewrite bind_run, (forM_first_failure _ _ _ _ _ _ _ _ _ Hpre Hx).
  - intros * Hpre Hx. unfold LogVol_execute.
    by rewrite bind_run, (forM_first_failure _ _ _ _ _ _ _ _ _ Hpre Hx).
  - intros * Hpre Hx. unfold BTRFS_execute.
    by rewrite bind_run, (forM_first_failure _ _ _ _ _ _ _ _ _ Hpre Hx).
  - intros ps w w1 rs Hps. unfold Partition_execute. rewrite bind_run, Hps.
    destruct ps as [|p ps].
    + simpl in Hps. run in Hps. by simplify_eq.
    + rewrite bool_decide_true by done. rewrite bool_decide_false by done.
      unfold engine_pass. run. cbn [id]. by destruct (doPartitioning (tree w1)).
  - intros lvs w w1 rs Hlvs. unfold LogVol_execute. rewrite bind_run, Hlvs.
    destruct lvs as [|l lvs].
    + simpl in Hlvs. run in Hlvs. by simplify_eq.
    + rewrite bool_decide_true by done. rewrite bool_decide_false by done.
      unfold engine_pass. run. cbn [id]. by destruct (growLVM (tree w1)).
Qed.

(** ** Registered actions are never dropped *)

Lemma preserves_try_except {S A} (P : S → Prop) (m : ST S A) h :
  preserves P m → (∀ e k, h e = Some k → preserves P k) →
  preserves P (try_except m h).
Proof.
  intros Hm Hh s Hs. unfold try_except. specialize (Hm s Hs).
  destruct (m s) as [s1 [e|a]]; simpl in *; [|exact Hm].
  destruct (h e) as [k|] eqn:Hk; simpl; [|exact Hm].
  by apply (Hh _ _ Hk).
Qed.

Lemma preserves_gets {S A} (P : S → Prop) (g : S → A) : preserves P (gets g).
Proof. intros s H. exact H. Qed.

Lemma registered_of_keeps {A} l (m : KS A) :
  keeps tree m → preserves (registered l) m.
Proof. intros H. apply (keeps_preserves_of tree (λ t, l `prefix_of` actions t)), H. Qed.

Create HintDb kept_db.

(** One step of a proof that a computation drops no action. *)
Ltac kept_step :=
  lazymatch goal with
  | |- preserves _ (mret _) => apply preserves_ret
  | |- preserves _ (raise _) => apply preserves_raise
  | |- preserves _ (gets _) => apply preserves_gets
  | |- preserves _ (modify _) => let H := fresh in intros ? H; exact H
  | |- preserves _ (mbind _ _) => apply preserves_bind; [|intros]
  | |- preserves _ (try_except _ _) => apply preserves_try_except; [|intros]
  | |- preserves _ (forM _ _) => apply preserves_forM; intros
  | |- preserves _ (if ?b then _ else _) => destruct b
  | |- preserves _ (match ?x with _ => _ end) => destruct x
  | |- _ => fail "no step"
  end.

Ltac kept_auto :=
  repeat first
    [ solve [ eauto with kept_db nocore ]
    | progress simplify_eq/=
    | match goal with
      | H : match ?e with _ => _ end = Some _ |- preserves _ _ => destruct e
      end
    | kept_step ].

Lemma kept_registerAction l a : preserves (registered l) (registerAction a).
Proof. intros w Hw. unfold registered in *. cbn. by apply prefix_app_r. Qed.
#[global] Hint Resolve kept_registerAction : kept_db.

Lemma kept_createDevice l d : preserves (registered l) (createDevice d).
Proof. unfold createDevice. kept_auto. Qed.
#[global] Hint Resolve kept_createDevice : kept_db.

Lemma kept_destroyDevice l d : preserves (registered l) (destroyDevice d).
Proof.
  intros w Hw. rewrite destroyDevice_run. destruct (negb _); [exact Hw|].
  unfold registered in *. cbn. by apply prefix_app_r.
Qed.
#[global] Hint Resolve kept_destroyDevice : kept_db.

Lemma kept_update_device l i g : preserves (registered l) (update_device i g).
Proof. intros w Hw. exact Hw. Qed.
#[global] Hint Resolve kept_update_device : kept_db.

Lemma kept_set_mount l dev mp opts : preserves (registered l) (set_mount dev mp opts).
Proof. intros w Hw. exact Hw. Qed.
#[global] Hint Resolve kept_set_mount : kept_db.

Lemma kept_newDevice l ty name fmt parents size pe args :
  preserves (registered l) (newDevice ty name fmt parents size pe args).
Proof. intros w Hw. exact Hw. Qed.
#[global] Hint Resolve kept_newDevice : kept_db.

Lemma kept_nextID l : preserves (registered l) nextID.
Proof. intros w Hw. exact Hw. Qed.
#[global] Hint Resolve kept_nextID : kept_db.

Lemma kept_removeExistingFormat_loop l fuel deps :
  preserves (registered l) (removeExistingFormat_loop fuel deps).
Proof.
  revert deps. induction fuel as [|fuel IH]; intros [|d deps]; simpl; kept_auto.
Qed.
#[global] Hint Resolve kept_removeExistingFormat_loop : kept_db.

Lemma kept_removeExistingFormat {E : Engine} l device :
  preserves (registered l) (removeExistingFormat device).
Proof. unfold removeExistingFormat. kept_auto. Qed.
#[global] Hint Resolve kept_removeExistingFormat : kept_db.

Lemma kept_getEscrowCertificate {E : Engine} l url :
  preserves (registered l) (getEscrowCertificate url).
Proof. apply registered_of_keeps. keeps_auto. Qed.
#[global] Hint Resolve kept_getEscrowCertificate : kept_db.

Lemma kept_get_member {E : Engine} l lineno expected what spec member :
  preserves (registered l) (get_member lineno expected what spec member).
Proof. apply registered_of_keeps. keeps_auto. Qed.
#[global] Hint Resolve kept_get_member : kept_db.

Lemma kept_newActionResizeFormat {E : Engine} l dev size :
  preserves (registered l) (newActionResizeFormat dev size).
Proof. apply registered_of_keeps. keeps_auto. Qed.
#[global] Hint Resolve kept_newActionResizeFormat : kept_db.

Lemma kept_newActionResizeDevice {E : Engine} l dev size :
  preserves (registered l) (newActionResizeDevice dev size).
Proof. apply registered_of_keeps. keeps_auto. Qed.
#[global] Hint Resolve kept_newActionResizeDevice : kept_db.

Lemma kept_invalid_target_size {A} l lineno size dev e (k : KS A) :
  invalid_target_size lineno size dev e = Some k → preserves (registered l) k.
Proof. destruct e; simpl; intros; simplify_eq. apply preserves_raise. Qed.
#[global] Hint Resolve kept_invalid_target_size : kept_db.

Lemma kept_createFormat l device fmt : preserves (registered l) (createFormat device fmt).
Proof. unfold createFormat. kept_auto. Qed.
#[global] Hint Resolve kept_createFormat : kept_db.

Lemma kept_resize_noformat {E : Engine} l lineno dev size :
  preserves (registered l) (resize_noformat lineno dev size).
Proof. unfold resize_noformat. kept_auto. Qed.
#[global] Hint Resolve kept_resize_noformat : kept_db.

Lemma kept_delete_old_claimant l mp : preserves (registered l) (delete_old_claimant mp).
Proof. unfold delete_old_claimant. kept_auto. Qed.
#[global] Hint Resolve kept_delete_old_claimant : kept_db.

Lemma kept_remember_passphrase l p : preserves (registered l) (remember_passphrase p).
Proof. apply registered_of_keeps. keeps_auto. Qed.
#[global] Hint Resolve kept_remember_passphrase : kept_db.

Lemma kept_luks_wrap {E : Engine} l pre target fmt p c e b :
  preserves (registered l) (luks_wrap pre target fmt p c e b).
Proof. unfold luks_wrap. kept_auto. Qed.
#[global] Hint Resolve kept_luks_wrap : kept_db.

Lemma kept_part_execute {E : Engine} l self :
  preserves (registered l) (PartitionData.execute self).
Proof.
  assert (preserves (registered l) (PartitionData.bios_disk self))
    by (apply registered_of_keeps; keeps_auto).
  assert (preserves (registered l) (PartitionData.classify self))
    by (apply registered_of_keeps; keeps_auto).
  assert (∀ disk, preserves (registered l) (PartitionData.disk_parents self disk))
    by (intros; apply registered_of_keeps; keeps_auto).
  unfold PartitionData.execute, PartitionData.noformat, PartitionData.formatted.
  kept_auto.
Qed.

Lemma kept_raid_execute {E : Engine} l self :
  preserves (registered l) (RaidData.execute self).
Proof.
  assert (∀ devname, preserves (registered l) (RaidData.classify self devname))
    by (intros; apply registered_of_keeps; keeps_auto).
  unfold RaidData.execute, RaidData.noformat, RaidData.formatted.
  kept_auto.
Qed.

Lemma kept_volgroup_execute {E : Engine} l self :
  preserves (registered l) (VolGroupData.execute self).
Proof. unfold VolGroupData.execute. kept_auto. Qed.

Lemma kept_lv_execute {E : Engine} l self :
  preserves (registered l) (LogVolData.execute self).
Proof.
  assert (∀ vg loc, preserves (registered l) (LogVolData.check_new self vg loc))
    by (intros; apply registered_of_keeps; keeps_auto).
  unfold LogVolData.execute, LogVolData.noformat, LogVolData.formatted.
  kept_auto.
Qed.

Lemma kept_btrfs_execute {E : Engine} l self :
  preserves (registered l) (BTRFSData.execute self).
Proof. unfold BTRFSData.execute. kept_auto. Qed.

(** No handler of a sub-item ever drops or reorders an action that is
    registered: on every run of the handler of a partition, raid,
    volume-group, logical-volume or btrfs request, failing or not, the
    actions registered before the run are still there, in their order,
    and what the run registered comes after them. *)
Theorem handlers_keep_registered_actions {E : Engine} w :
  (∀ self, actions (tree w)
           `prefix_of` actions (tree (PartitionData.execute self w).1))
  ∧ (∀ self, actions (tree w)
             `prefix_of` actions (tree (RaidData.execute self w).1))
  ∧ (∀ self, actions (tree w)
             `prefix_of` actions (tree (VolGroupData.execute self w).1))
  ∧ (∀ self, actions (tree w)
             `prefix_of` actions (tree (LogVolData.execute self w).1))
  ∧ (∀ self, actions (tree w)
             `prefix_of` actions (tree (BTRFSData.execute self w).1)).
Proof.
  repeat split; intros self.
  - exact (kept_part_execute (actions (tree w)) self w (reflexivity _)).
  - exact (kept_raid_execute (actions (tree w)) self w (reflexivity _)).
  - exact (kept_volgroup_execute (actions (tree w)) self w (reflexivity _)).
  - exact (kept_lv_execute (actions (tree w)) self w (reflexivity _)).
  - exact (kept_btrfs_execute (actions (tree w)) self w (reflexivity _)).
Qed.

(** ** Volume groups *)

(** The member loop changes nothing; it raises a [KickstartValueError]
    of the command's line or returns, member by member, the devices the
    members stand for, each of the membership format. *)
Lemma member_loop_outcome {E : Engine} lineno expected what spec ms w :
  ∃ r, forM ms (get_member lineno expected what spec) w = (w, r)
       ∧ (∀ e, r = inl e → ∃ msg, e = KickstartValueError lineno msg)
       ∧ (∀ devs, r = inr devs →
            Forall2 (λ m d, member_device w m = Some d
                            ∧ fmt_type (dev_format d) = Some expected) ms devs).
Proof.
  induction ms as [|m ms (r & Hr & Herr & Hok)]; simpl.
  - eexists. split; [reflexivity|]. split; [discriminate|].
    intros devs [= <-]. constructor.
  - rewrite bind_run, get_member_run.
    destruct (member_device w m) as [dev|] eqn:Hdev.
    + case_bool_decide as Hty.
      * rewrite bind_run, Hr. destruct r as [e|devs].
        -- eexists. split; [reflexivity|]. split; [|discriminate].
           intros e' [= <-]. by apply Herr.
        -- eexists. split; [reflexivity|]. split; [discriminate|].
           intros devs' [= <-]. constructor; [done|]. by apply Hok.
      * eexists. split; [reflexivity|]. split; [|discriminate].
        intros e [= <-]. eauto.
    + eexists. split; [reflexivity|]. split; [|discriminate].
      intros e [= <-]. eauto.
Qed.

(** A run of [VolGroupData.execute] that fails has changed nothing but
    the flag of automatic partitioning, which it switched off: the tree
    and the table of names are as they were, whichever check failed; and
    what it raised is a [KickstartValueError] of its line.  The same
    holds of a run that returns for a volume group that exists already
    or is not to be formatted: the handler only checks that it exists. *)
Theorem volgroup_failure_changes_nothing {E : Engine} self w :
  (∀ w' e, VolGroupData.execute self w = (w', inl e) →
           w' = set_doAutoPart false w
           ∧ ∃ msg, e = KickstartValueError (VolGroupData.lineno self) msg)
  ∧ (∀ w', VolGroupData.execute self w = (w', inr tt) →
           negb (VolGroupData.format self) || VolGroupData.preexist self = true →
           w' = set_doAutoPart false w
           ∧ VolGroupData.vgname self ≠ ""
           ∧ is_Some (getDeviceByName (tree w) (VolGroupData.vgname self))).
Proof.
  unfold VolGroupData.execute.
  destruct (member_loop_outcome (VolGroupData.lineno self) "lvmpv" "Physical Volume"
              "Volume Group specification" (VolGroupData.physvols self)
              (set_doAutoPart false w)) as (r & Hr & Herr & _).
  split.
  - intros w' e Hrun. rewrite bind_run in Hrun. cbn [modify] in Hrun.
    rewrite bind_run, Hr in Hrun. destruct r as [e'|pvs].
    { simplify_eq. split; [done|]. by apply Herr. }
    destruct (bool_decide (length pvs = 0) && negb (VolGroupData.preexist self));
      [run in Hrun; simplify_eq; eauto|].
    destruct (negb (bool_decide (VolGroupData.pesize self
                                 ∈ getPossiblePhysicalExtents)));
      [run in Hrun; simplify_eq; eauto|].
    rewrite bind_run in Hrun. cbn [gets] in Hrun.
    destruct (negb (VolGroupData.format self) || VolGroupData.preexist self).
    + destruct (negb (truthy (VolGroupData.vgname self)));
        [run in Hrun; simplify_eq; eauto|].
      destruct (getDeviceByName _ _); run in Hrun; [discriminate|simplify_eq; eauto].
    + destruct (bool_decide (VolGroupData.vgname self ∈ _));
        [run in Hrun; simplify_eq; eauto|].
      exfalso. revert Hrun. unfold newDevice, nextID, createDevice, registerAction,
        update_device. run.
      repeat case_match; discriminate.
  - intros w' Hrun Hex. rewrite bind_run in Hrun. cbn [modify] in Hrun.
    rewrite bind_run, Hr in Hrun. destruct r as [e'|pvs]; [discriminate|].
    destruct (bool_decide (length pvs = 0) && negb (VolGroupData.preexist self));
      [discriminate|].
    destruct (negb (bool_decide (VolGroupData.pesize self
                                 ∈ getPossiblePhysicalExtents)));
      [discriminate|].
    rewrite bind_run in Hrun. cbn [gets] in Hrun. rewrite Hex in Hrun.
    destruct (negb (truthy (VolGroupData.vgname self))) eqn:Hname; [discriminate|].
    apply negb_false_iff, truthy_true in Hname.
    cbn [tree set_doAutoPart] in Hrun.
    destruct (getDeviceByName _ _) eqn:Hvg; [|discriminate].
    run in Hrun. simplify_eq. split; [done|]. split; [done|]. by eexists.
Qed.

Lemma update_fresh (ds : list Device) i (g : Device → Device) :
  (∀ d, d ∈ ds → dev_id d < i) →
  map (λ d, if bool_decide (dev_id d = i) then g d else d) ds = ds.
Proof.
  intros Hfresh. induction ds as [|d ds IH]; simpl; [done|].
  rewrite bool_decide_false.
  - f_equal. apply IH. intros x Hx. apply Hfresh. by right.
  - specialize (Hfresh d ltac:(left)). lia.
Qed.

Lemma update_ids (ds : list Device) i (g : Device → Device) :
  (∀ d, dev_id (g d) = dev_id d) →
  map dev_id (map (λ d, if bool_decide (dev_id d = i) then g d else d) ds)
  = map dev_id ds.
Proof.
  intros Hg. induction ds as [|d ds IH]; simpl; [done|].
  rewrite IH. by destruct (bool_decide _); rewrite ?Hg.
Qed.

(** When [VolGroupData.execute] returns for a volume group that is to be
    created, every listed physical volume stood for a device formatted
    as [lvmpv] and there was at least one, the extent size is one the
    engine allows and no volume group had the name; the tree has one more
    device, the new volume group, which comes last, has the identity the
    counter held, the physical volumes as parents and the extent size
    asked for, and carries the reserved space asked for or, when none was
    asked for, the reserved percentage; and [ksdata.onPart] maps the name
    asked for to the name the engine gave the group. *)
Theorem volgroup_creates_group {E : Engine} self w w' :
  VolGroupData.execute self w = (w', inr tt) →
  VolGroupData.format self = true →
  VolGroupData.preexist self = false →
  ∃ pvs request,
    Forall2 (λ m d, member_device w m = Some d
                    ∧ fmt_type (dev_format d) = Some "lvmpv")
            (VolGroupData.physvols self) pvs
    ∧ pvs ≠ []
    ∧ VolGroupData.pesize self ∈ getPossiblePhysicalExtents
    ∧ (VolGroupData.vgname self ∉ map dev_name (vgs (tree w)))
    ∧ last (devices (tree w')) = Some request
    ∧ map dev_id (devices (tree w')) = map dev_id (devices (tree w)) ++ [dev_id request]
    ∧ (ids_from_counter (tree w) → devices (tree w') = devices (tree w) ++ [request])
    ∧ dev_id request = next_id (tree w)
    ∧ dev_type request = LVMVolumeGroupDevice
    ∧ dev_parents request = map dev_id pvs
    ∧ dev_peSize request = (VolGroupData.pesize self # 1024)%Q
    ∧ dev_reserved_space request
      = (if truthyZ (VolGroupData.reserved_space self)
         then VolGroupData.reserved_space self else 0%Z)
    ∧ dev_reserved_percent request
      = (if truthyZ (VolGroupData.reserved_space self) then 0%Z
         else VolGroupData.reserved_percent self)
    ∧ ksdata_onPart w'
      = <[VolGroupData.vgname self := dev_name request]> (ksdata_onPart w).
Proof.
  unfold VolGroupData.execute. intros Hrun Hformat Hpre.
  destruct (member_loop_outcome (VolGroupData.lineno self) "lvmpv" "Physical Volume"
              "Volume Group specification" (VolGroupData.physvols self)
              (set_doAutoPart false w)) as (r & Hr & _ & Hok).
  rewrite bind_run in Hrun. cbn [modify] in Hrun.
  rewrite bind_run, Hr in Hrun. destruct r as [e'|pvs]; [discriminate|].
  specialize (Hok pvs eq_refl).
  rewrite Hformat, Hpre in Hrun. cbn [negb orb andb] in Hrun.
  rewrite andb_true_r in Hrun.
  case_bool_decide as Hlen; [discriminate|].
  case_bool_decide as Hpe; [|discriminate]. cbn [negb] in Hrun.
  rewrite bind_run in Hrun. cbn [gets tree set_doAutoPart] in Hrun.
  case_bool_decide as Hname; [discriminate|].
  rewrite bind_run, newDevice_run in Hrun.
  rewrite bind_run, createDevice_run in Hrun.
  exists pvs.
  assert (pvs ≠ []) as Hne by (intros ->; by apply Hlen).
  unfold update_device in Hrun.
  destruct (truthyZ (VolGroupData.reserved_space self)) eqn:Hrs;
    [|destruct (truthyZ (VolGroupData.reserved_percent self)) eqn:Hrp];
    run in Hrun; cbn in Hrun; simplify_eq; cbn;
    rewrite ?map_app; cbn; rewrite ?bool_decide_true by done;
    (eexists; split; [exact Hok|]; split; [exact Hne|]; split; [exact Hpe|];
     split; [exact Hname|]; split; [by rewrite last_snoc|];
     split; [by rewrite ?map_app, ?update_ids|];
     split; [intros Hids; by rewrite ?update_fresh|]; cbn;
     repeat split; try reflexivity).
  all: try (symmetry; apply Z.eqb_eq; by apply negb_false_iff).
Qed.

Lemma volgroup_creates_group_witness :
  ∃ request,
    last (devices (tree (VolGroupData.execute (E:=sample_engine)
                           (volgroup_of "data" ["sda2"]) sample_world).1))
    = Some request
    ∧ dev_type request = LVMVolumeGroupDevice.
Proof.
  assert (Hrun : VolGroupData.execute (E:=sample_engine)
                   (volgroup_of "data" ["sda2"]) sample_world
                 = ((VolGroupData.execute (E:=sample_engine)
                       (volgroup_of "data" ["sda2"]) sample_world).1, inr tt))
    by (vm_compute; reflexivity).
  destruct (volgroup_creates_group _ _ _ Hrun eq_refl eq_refl)
    as (pvs & request & _ & _ & _ & _ & Hlast & _ & _ & _ & Hty & _).
  exists request. split; [exact Hlast|exact Hty].
Defined.

(** ** Logical volumes *)

Lemma Qltb_lt a b : Qltb a b = true ↔ (a < b)%Q.
Proof. unfold Qltb, Qlt. apply Z.ltb_lt. Qed.

(** What a run of [LogVolData.execute] that returns has checked.  The
    mount point is empty or absolute; the volume group, looked up under
    the name [ksdata.onPart] records for it, exists, and so does the
    thin pool of a thin volume; a volume that is not to be formatted has
    a name and exists, as does one that is to be formatted where it is;
    a volume that is to be created has a name no device of the group
    has, a size that is not zero and, unless it may grow, not below the
    extent size of the group when no percentage is given, and a
    percentage above 0 and at most 100 when one is; and unless it is a
    thin pool its file-system type is one the engine supports. *)
Theorem logvol_success_requires {E : Engine} self w w' :
  LogVolData.execute self w = (w', inr tt) →
  let l := LogVolData.classify self w in
  (LogVolData.l_mountpoint l = "" ∨ not_absolute (LogVolData.l_mountpoint l) = false)
  ∧ ∃ vg,
      getDeviceByName (tree w)
        (default (LogVolData.vgname self) (ksdata_onPart w !! LogVolData.vgname self))
      = Some vg
      ∧ (LogVolData.thin_volume self = true →
         is_Some (getDeviceByName (tree w)
                    (LogVolData.lv_name vg (LogVolData.pool_name self))))
      ∧ (LogVolData.format self = false ∨ LogVolData.preexist self = true →
         is_Some (getDeviceByName (tree w)
                    (LogVolData.lv_name vg (LogVolData.name self))))
      ∧ (LogVolData.format self = false → LogVolData.name self ≠ "")
      ∧ (LogVolData.format self = true → LogVolData.preexist self = false →
         getDeviceByName (tree w) (LogVolData.lv_name vg (LogVolData.name self)) = None
         ∧ (if (LogVolData.percent self =? 0)%Z
            then LogVolData.l_size l ≠ 0%Z
                 ∧ (LogVolData.l_grow l = true
                    ∨ ¬ (inject_Z (LogVolData.l_size l * 1024) < dev_peSize vg)%Q)
            else (0 < LogVolData.percent self ≤ 100)%Z))
      ∧ (LogVolData.format self = true → LogVolData.thin_pool self = false →
         truthy_opt (format_type (LogVolData.l_type l)) = true).
Proof.
  intros Hrun l. unfold LogVolData.execute in Hrun.
  apply bind_inv in Hrun as (w0 & [] & H0 & Hrun). run in H0. simplify_eq.
  apply bind_inv in Hrun as (w1 & w1' & H1 & Hrun). run in H1. simplify_eq.
  cbn [id] in Hrun.
  change (LogVolData.classify self (set_doAutoPart false w)) with l in Hrun.
  change (tree (set_doAutoPart false w)) with (tree w) in Hrun.
  change (ksdata_onPart (set_doAutoPart false w)) with (ksdata_onPart w) in Hrun.
  destruct (negb (String.eqb (LogVolData.l_mountpoint l) "")
            && not_absolute (LogVolData.l_mountpoint l)) eqn:Hmp; [discriminate|].
  split.
  { apply andb_false_iff in Hmp as [Hmp|Hmp]; [left|by right].
    apply negb_false_iff in Hmp. by apply String.eqb_eq. }
  destruct (getDeviceByName (tree w) _) as [vg|] eqn:Hvg; [|discriminate].
  exists vg. split; [reflexivity|].
  apply bind_inv in Hrun as (w2 & pool & H2 & Hrun).
  assert (w2 = set_doAutoPart false w
          ∧ (LogVolData.thin_volume self = true →
             is_Some (getDeviceByName (tree w)
                        (LogVolData.lv_name vg (LogVolData.pool_name self)))))
    as [-> Hpool].
  { destruct (LogVolData.thin_volume self).
    - destruct (getDeviceByName (tree w) (LogVolData.lv_name vg _)) eqn:Hp;
        run in H2; simplify_eq. split; [done|]. intros _. by eexists.
    - run in H2. simplify_eq. split; [done|]. discriminate. }
  split; [exact Hpool|].
  destruct (LogVolData.format self) eqn:Hformat; cbn [negb] in Hrun.
  - unfold LogVolData.formatted in Hrun.
    apply bind_inv in Hrun as (w3 & [] & H3 & Hrun).
    pose proof (keeps_lv_check_new id self vg l (set_doAutoPart false w)) as Hw3.
    rewrite H3 in Hw3. simpl in Hw3. subst w3.
    destruct (negb (truthy_opt _) && negb (LogVolData.thin_pool self)) eqn:Hty;
      [discriminate|].
    assert (LogVolData.thin_pool self = false →
            truthy_opt (format_type (LogVolData.l_type l)) = true) as Hsupported.
    { intros Hthin. rewrite Hthin in Hty. cbn in Hty. rewrite andb_true_r in Hty.
      by apply negb_false_iff in Hty. }
    unfold LogVolData.check_new in H3.
    destruct (LogVolData.preexist self) eqn:Hpre; cbn [negb] in H3.
    + split; [|split; [discriminate|split; [discriminate|by intros _]]].
      intros _. apply bind_inv in Hrun as (w4 & target & Ht & _).
      apply bind_inv in Ht as (w5 & dt & H5 & Ht). run in H5. simplify_eq.
      cbn [tree set_doAutoPart] in Ht.
      destruct (getDeviceByName (tree w)
                  (LogVolData.lv_name vg (LogVolData.name self)));
        [by eexists|discriminate].
    + split; [by intros [|]|]. split; [discriminate|].
      split; [|by intros _].
      intros _ _. run in H3. cbn [tree set_doAutoPart] in H3.
      case_bool_decide as Hused; [discriminate|].
      split.
      { destruct (getDeviceByName (tree w)
                    (LogVolData.lv_name vg (LogVolData.name self))); [|done].
        exfalso. apply Hused. by eexists. }
      unfold truthyZ in H3.
      destruct (LogVolData.percent self =? 0)%Z eqn:Hpc; cbn [negb] in H3.
      * destruct (LogVolData.l_size l =? 0)%Z eqn:Hsz; cbn [negb] in H3;
          [discriminate|].
        apply Z.eqb_neq in Hsz. split; [exact Hsz|].
        destruct (negb (LogVolData.l_grow l) && Qltb _ _) eqn:Hq; [discriminate|].
        apply andb_false_iff in Hq as [Hq|Hq].
        -- left. by apply negb_false_iff in Hq.
        -- right. intros Hlt. apply Qltb_lt in Hlt. congruence.
      * destruct ((LogVolData.percent self <=? 0)%Z || (100 <? LogVolData.percent self)%Z)
          eqn:Hrange; [discriminate|].
        apply orb_false_iff in Hrange as [Hlo Hhi].
        apply Z.leb_gt in Hlo. apply Z.ltb_ge in Hhi. lia.
  - split; [|split; [|split; [discriminate|discriminate]]].
    + intros _. unfold LogVolData.noformat in Hrun.
      destruct (negb (truthy (LogVolData.name self))); [discriminate|].
      apply bind_inv in Hrun as (w4 & dt & H4 & Hrun). run in H4. simplify_eq.
      cbn [tree set_doAutoPart] in Hrun.
      destruct (getDeviceByName (tree w)
                  (LogVolData.lv_name vg (LogVolData.name self)));
        [by eexists|discriminate].
    + intros _. unfold LogVolData.noformat in Hrun.
      destruct (negb (truthy (LogVolData.name self))) eqn:Hname; [discriminate|].
      by apply negb_false_iff, truthy_true in Hname.
Qed.

Lemma logvol_success_requires_witness :
  ∃ vg, @getDeviceByName sample_engine (tree sample_world)
          (default "sys" (ksdata_onPart sample_world !! "sys")) = Some vg.
Proof.
  assert (Hrun : LogVolData.execute (E:=sample_engine)
                   (lv "/var" "sys" "var" 4096 true false false) sample_world
                 = ((LogVolData.execute (E:=sample_engine)
                       (lv "/var" "sys" "var" 4096 true false false) sample_world).1,
                    inr tt))
    by (vm_compute; reflexivity).
  destruct (logvol_success_requires _ _ _ Hrun) as (_ & vg & Hvg & _).
  exists vg. exact Hvg.
Defined.

(** ** Glob expansion at parse time *)

(** The expansion loop changes nothing; it fails at the first spec
    without a match, and otherwise returns what it was given followed by
    the matches of every spec, spec by spec. *)
Lemma expand_specs_run {E : Engine} {S : Type} lineno msg acc specs (s : S) :
  expand_specs lineno msg acc specs s
  = (s, match List.find (λ spec, bool_decide (deviceMatches spec = [])) specs with
        | Some spec => inl (KickstartValueError lineno (msg spec))
        | None => inr (acc ++ concat (map deviceMatches specs))
        end).
Proof.
  revert acc. induction specs as [|spec specs IH]; intros acc; simpl.
  - by rewrite app_nil_r.
  - case_bool_decide as Hm.
    + rewrite bool_decide_false by done. rewrite IH.
      destruct (List.find _ specs); [done|]. by rewrite app_assoc.
    + by rewrite bool_decide_true.
Qed.

Lemma find_none_iff {A} (f : A → bool) (l : list A) :
  List.find f l = None ↔ ∀ x, x ∈ l → f x = false.
Proof.
  split.
  - intros Hf x Hx. apply list_elem_of_In in Hx. by apply (find_none f l Hf).
  - induction l as [|a l IH]; simpl; intros Hall; [done|].
    rewrite (Hall a) by left. apply IH. intros x Hx. apply Hall. by right.
Qed.

(** The run of [ClearPart.parse] in closed form. *)
Lemma clearpart_parse_run {E : Engine} NONE (self : ClearPartCommand.t) :
  let missing := List.find (λ spec, bool_decide (deviceMatches spec = [])) in
  let typed := if ClearPartCommand.type self is None
               then ClearPartCommand.set_type (Some NONE) self else self in
  let expanded := ClearPartCommand.set_drives
                    (concat (map deviceMatches (ClearPartCommand.drives self)))
                    typed in
  ClearPartCommand.parse NONE self
  = match missing (ClearPartCommand.drives self),
          missing (ClearPartCommand.devices self) with
    | Some spec, _ =>
      (typed, inl (KickstartValueError (ClearPartCommand.lineno self)
                     ("Specified nonexistent disk " +:+ spec
                      +:+ " in clearpart command")))
    | None, Some spec =>
      (expanded, inl (KickstartValueError (ClearPartCommand.lineno self)
                        ("Specified nonexistent device " +:+ spec
                         +:+ " in clearpart device list")))
    | None, None =>
      (ClearPartCommand.set_devices
         (concat (map deviceMatches (ClearPartCommand.devices self))) expanded,
       inr tt)
    end.
Proof.
  intros missing typed expanded.
  unfold ClearPartCommand.parse.
  rewrite bind_run. cbn [gets id].
  rewrite bind_run.
  assert ((if bool_decide (ClearPartCommand.type self = None)
           then modify (ClearPartCommand.set_type (Some NONE)) else mret tt) self
          = (typed, inr tt)) as ->.
  { subst typed. by destruct (ClearPartCommand.type self). }
  rewrite bind_run, expand_specs_run.
  fold (missing (ClearPartCommand.drives self)).
  destruct (missing (ClearPartCommand.drives self)); [done|].
  rewrite app_nil_l, bind_run. cbn [modify].
  rewrite bind_run, expand_specs_run.
  fold (missing (ClearPartCommand.devices self)). fold expanded.
  by destruct (missing (ClearPartCommand.devices self)).
Qed.

(** [ClearPart.parse] replaces the drive and device specs of the command
    by their matches, spec by spec in the order given, and a type that
    was not given by [CLEARPART_TYPE_NONE].  It returns exactly when
    every spec of both lists has a match.  The drives are expanded first:
    a drive spec without a match is reported, as a [KickstartValueError]
    of the command's line that names the first such spec, with the lists
    as they were; a device spec without a match is reported after the
    drives have been replaced by their matches. *)
Theorem clearpart_parse_expands {E : Engine} NONE (self : ClearPartCommand.t) :
  let missing := List.find (λ spec, bool_decide (deviceMatches spec = [])) in
  let typed := if ClearPartCommand.type self is None
               then ClearPartCommand.set_type (Some NONE) self else self in
  let expanded := ClearPartCommand.set_drives
                    (concat (map deviceMatches (ClearPartCommand.drives self)))
                    typed in
  ClearPartCommand.parse NONE self
  = match missing (ClearPartCommand.drives self),
          missing (ClearPartCommand.devices self) with
    | Some spec, _ =>
      (typed, inl (KickstartValueError (ClearPartCommand.lineno self)
                     ("Specified nonexistent disk " +:+ spec
                      +:+ " in clearpart command")))
    | None, Some spec =>
      (expanded, inl (KickstartValueError (ClearPartCommand.lineno self)
                        ("Specified nonexistent device " +:+ spec
                         +:+ " in clearpart device list")))
    | None, None =>
      (ClearPartCommand.set_devices
         (concat (map deviceMatches (ClearPartCommand.devices self))) expanded,
       inr tt)
    end
  ∧ (returned (ClearPartCommand.parse NONE self).2 ↔
     ∀ spec, spec ∈ ClearPartCommand.drives self ++ ClearPartCommand.devices self →
             deviceMatches spec ≠ []).
Proof.
  intros missing typed expanded.
  pose proof (clearpart_parse_run NONE self) as Hrun. cbv zeta in Hrun.
  fold missing in Hrun. fold typed in Hrun. fold expanded in Hrun.
  split; [exact Hrun|].
  rewrite Hrun. split.
  - intros [[] Hr] spec [Hin|Hin]%elem_of_app.
    + destruct (missing (ClearPartCommand.drives self)) eqn:Hd; [discriminate|].
      apply find_none_iff with (x := spec) in Hd; [|done].
      by apply bool_decide_eq_false in Hd.
    + destruct (missing (ClearPartCommand.drives self)); [discriminate|].
      destruct (missing (ClearPartCommand.devices self)) eqn:Hd; [discriminate|].
      apply find_none_iff with (x := spec) in Hd; [|done].
      by apply bool_decide_eq_false in Hd.
  - intros Hall.
    assert (missing (ClearPartCommand.drives self) = None) as ->.
    { apply find_none_iff. intros x Hx. apply bool_decide_eq_false, Hall.
      apply elem_of_app. by left. }
    assert (missing (ClearPartCommand.devices self) = None) as ->.
    { apply find_none_iff. intros x Hx. apply bool_decide_eq_false, Hall.
      apply elem_of_app. by right. }
    by eexists.
Qed.

(** [IgnoreDisk.parse] replaces the specs of [--drives] and of
    [--only-use] by their matches, spec by spec in the order given, and
    returns exactly when every spec of both lists has a match.  The first
    spec without a match is reported as a [KickstartValueError] of the
    command's line, with the same message for both lists; a failure in
    [--only-use] comes after [--drives] was replaced. *)
Theorem ignoredisk_parse_expands {E : Engine} (self : IgnoreDisk.t) :
  let missing := List.find (λ spec, bool_decide (deviceMatches spec = [])) in
  let expanded := IgnoreDisk.mk (IgnoreDisk.lineno self)
                    (concat (map deviceMatches (IgnoreDisk.ignoredisk self)))
                    (IgnoreDisk.onlyuse self) in
  IgnoreDisk.parse self
  = match missing (IgnoreDisk.ignoredisk self),
          missing (IgnoreDisk.onlyuse self) with
    | Some spec, _ =>
      (self, inl (KickstartValueError (IgnoreDisk.lineno self)
                    ("Specified nonexistent disk " +:+ spec
                     +:+ " in ignoredisk command")))
    | None, Some spec =>
      (expanded, inl (KickstartValueError (IgnoreDisk.lineno self)
                        ("Specified nonexistent disk " +:+ spec
                         +:+ " in ignoredisk command")))
    | None, None =>
      (IgnoreDisk.mk (IgnoreDisk.lineno self)
         (concat (map deviceMatches (IgnoreDisk.ignoredisk self)))
         (concat (map deviceMatches (IgnoreDisk.onlyuse self))),
       inr tt)
    end
  ∧ (returned (IgnoreDisk.parse self).2 ↔
     ∀ spec, spec ∈ IgnoreDisk.ignoredisk self ++ IgnoreDisk.onlyuse self →
             deviceMatches spec ≠ []).
Proof.
  intros missing expanded.
  assert (Hrun : IgnoreDisk.parse self
    = match missing (IgnoreDisk.ignoredisk self),
            missing (IgnoreDisk.onlyuse self) with
      | Some spec, _ =>
        (self, inl (KickstartValueError (IgnoreDisk.lineno self)
                      ("Specified nonexistent disk " +:+ spec
                       +:+ " in ignoredisk command")))
      | None, Some spec =>
        (expanded, inl (KickstartValueError (IgnoreDisk.lineno self)
                          ("Specified nonexistent disk " +:+ spec
                           +:+ " in ignoredisk command")))
      | None, None =>
        (IgnoreDisk.mk (IgnoreDisk.lineno self)
           (concat (map deviceMatches (IgnoreDisk.ignoredisk self)))
           (concat (map deviceMatches (IgnoreDisk.onlyuse self))),
         inr tt)
      end).
  { unfold IgnoreDisk.parse.
    rewrite bind_run. cbn [gets id].
    rewrite bind_run, expand_specs_run.
    fold (missing (IgnoreDisk.ignoredisk self)).
    destruct (missing (IgnoreDisk.ignoredisk self)); [done|].
    rewrite app_nil_l, bind_run. cbn [modify].
    rewrite bind_run, expand_specs_run.
    fold (missing (IgnoreDisk.onlyuse self)). fold expanded.
    by destruct (missing (IgnoreDisk.onlyuse self)). }
  split; [exact Hrun|].
  rewrite Hrun. split.
  - intros [[] Hr] spec [Hin|Hin]%elem_of_app.
    + destruct (missing (IgnoreDisk.ignoredisk self)) eqn:Hd; [discriminate|].
      apply find_none_iff with (x := spec) in Hd; [|done].
      by apply bool_decide_eq_false in Hd.
    + destruct (missing (IgnoreDisk.ignoredisk self)); [discriminate|].
      destruct (missing (IgnoreDisk.onlyuse self)) eqn:Hd; [discriminate|].
      apply find_none_iff with (x := spec) in Hd; [|done].
      by apply bool_decide_eq_false in Hd.
  - intros Hall.
    assert (missing (IgnoreDisk.ignoredisk self) = None) as ->.
    { apply find_none_iff. intros x Hx. apply bool_decide_eq_false, Hall.
      apply elem_of_app. by left. }
    assert (missing (IgnoreDisk.onlyuse self) = None) as ->.
    { apply find_none_iff. intros x Hx. apply bool_decide_eq_false, Hall.
      apply elem_of_app. by right. }
    by eexists.
Qed.

Lemma elem_of_expansion {E : Engine} name specs :
  name ∈ concat (map deviceMatches specs)
  ↔ ∃ spec, spec ∈ specs ∧ name ∈ deviceMatches spec.
Proof.
  induction specs as [|spec specs IH]; simpl.
  - split; [by intros ?%elem_of_nil|by intros (? & ?%elem_of_nil & _)].
  - rewrite elem_of_app, IH. split.
    + intros [Hname|(spec' & Hspec & Hname)].
      * exists spec. split; [left|done].
      * exists spec'. split; [by right|done].
    + intros (spec' & [->|Hspec]%elem_of_cons & Hname); [by left|right; eauto].
Qed.

Lemma clearpart_execute_run {E : Engine} self w :
  ClearPart.execute self w
  = let w1 := set_config
                (mkConfig (ClearPart.type self) (ClearPart.drives self)
                   (ClearPart.devices self)
                   (if ClearPart.initAll self then ClearPart.initAll self
                    else initializeDisks (config w))) w in
    match clearPartitions (config w1) (tree w1) with
    | inl e => (w1, inl e)
    | inr t => (set_tree t w1, inr tt)
    end.
Proof.
  unfold ClearPart.execute, engine_pass. cbv zeta.
  rewrite bind_run. cbn [modify]. rewrite bind_run. cbn [gets id].
  by destruct (clearPartitions _ _).
Qed.

(** A [clearpart] command that was parsed and is then executed, whether
    the engine's clearing pass then succeeds or not, leaves in the
    configuration as the disks to clear exactly the matches of the drive
    specs of the command, and as the devices to clear exactly the matches
    of its device specs; the type is the one given, or
    [CLEARPART_TYPE_NONE]; and disk initialization is switched on by
    [--initlabel] and never switched off. *)
Theorem clearpart_clears_the_matches {E : Engine} NONE self self' w :
  ClearPartCommand.parse NONE self = (self', inr tt) →
  let w' := (ClearPart.execute (ClearPartCommand.parsed NONE self') w).1 in
  (∀ name, name ∈ clearPartDisks (config w')
           ↔ ∃ spec, spec ∈ ClearPartCommand.drives self
                     ∧ name ∈ deviceMatches spec)
  ∧ (∀ name, name ∈ clearPartDevices (config w')
             ↔ ∃ spec, spec ∈ ClearPartCommand.devices self
                       ∧ name ∈ deviceMatches spec)
  ∧ clearPartType (config w') = default NONE (ClearPartCommand.type self)
  ∧ initializeDisks (config w')
    = (ClearPartCommand.initAll self || initializeDisks (config w)).
Proof.
  intros Hparse w'.
  assert (config w'
          = mkConfig (default NONE (ClearPartCommand.type self))
              (concat (map deviceMatches (ClearPartCommand.drives self)))
              (concat (map deviceMatches (ClearPartCommand.devices self)))
              (ClearPartCommand.initAll self || initializeDisks (config w)))
    as Hcfg.
  { subst w'. rewrite clearpart_execute_run. cbv zeta.
    assert (ClearPartCommand.parsed NONE self'
            = ClearPart.mk (default NONE (ClearPartCommand.type self))
                (concat (map deviceMatches (ClearPartCommand.drives self)))
                (concat (map deviceMatches (ClearPartCommand.devices self)))
                (ClearPartCommand.initAll self)) as ->.
    { pose proof (clearpart_parse_run NONE self) as Hrun. cbv zeta in Hrun.
      rewrite Hrun in Hparse.
      destruct (List.find _ (ClearPartCommand.drives self)); [discriminate|].
      destruct (List.find _ (ClearPartCommand.devices self)); [discriminate|].
      injection Hparse as <-.
      by destruct self as [? [] ? ? ?]. }
    destruct (clearPartitions _ _); cbn;
      by destruct (ClearPartCommand.initAll self). }
  rewrite Hcfg. cbn. split; [|split; [|done]].
  - intros name. apply elem_of_expansion.
  - intros name. apply elem_of_expansion.
Qed.

Lemma clearpart_clears_the_matches_witness :
  "sda1" ∈ clearPartDisks
             (config (ClearPart.execute (E:=sample_engine)
                        (ClearPartCommand.parsed 0
                           (ClearPartCommand.mk 3 (Some 0%Z) ["sda"; "sda1"; "sda2"] []
                              true))
                        sample_world).1).
Proof.
  assert (Hparse : ClearPartCommand.parse (E:=sample_engine) 0
                     (ClearPartCommand.mk 3 None ["sda*"] [] true)
                   = (ClearPartCommand.mk 3 (Some 0%Z) ["sda"; "sda1"; "sda2"] []
                        true, inr tt))
    by (vm_compute; reflexivity).
  apply (proj1 (clearpart_clears_the_matches (E:=sample_engine) 0 _ _
                  sample_world Hparse)).
  exists "sda*". split; [left|].
  assert (deviceMatches (E:=sample_engine) "sda*" = ["sda"; "sda1"; "sda2"]) as ->
    by (vm_compute; reflexivity).
  right. left.
Defined.

(** ** The disk space the requests may use *)

Lemma foldl_add_if {A} (p : A → bool) (f : A → Z) (l : list A) (a : Z) :
  foldl (λ acc x, if p x then (acc + f x)%Z else acc) a l
  = (a + foldr Z.add 0 (map f (filter (λ x, p x = true) l)))%Z.
Proof.
  revert a. induction l as [|x l IH]; intros a; simpl; [lia|].
  rewrite IH. destruct (p x) eqn:Hp.
  - rewrite filter_cons_True by done. simpl. lia.
  - rewrite filter_cons_False by congruence. done.
Qed.

Lemma sum_filter_le {A} (P : A → Prop) `{∀ x, Decision (P x)} (f : A → Z) l :
  (∀ x, x ∈ l → (0 ≤ f x)%Z) →
  (0 ≤ foldr Z.add 0 (map f (filter P l)) ≤ foldr Z.add 0 (map f l))%Z.
Proof.
  induction l as [|x l IH]; intros Hpos; simpl; [lia|].
  assert (0 ≤ f x)%Z by (apply Hpos; left).
  assert (0 ≤ foldr Z.add 0 (map f (filter P l)) ≤ foldr Z.add 0 (map f l))%Z
    by (apply IH; intros y Hy; apply Hpos; by right).
  destruct (decide (P x)).
  - rewrite filter_cons_True by done. simpl. lia.
  - rewrite filter_cons_False by done. lia.
Qed.

(** [getAvailableDiskSpace] is the sum of the sizes of the disks that
    count: every disk when the list of disks to clear is empty, the disks
    named in it otherwise.  So a list that names no disk of the machine
    gives 0, not the space of all disks; and when no disk has a negative
    size the result lies between 0 and the size of all disks together. *)
Theorem getAvailableDiskSpace_counts (w : World) :
  let total (l : list Device) := foldr Z.add 0%Z (map dev_size l) in
  getAvailableDiskSpace w
  = total (filter (λ d, clearPartDisks (config w) = []
                        ∨ dev_name d ∈ clearPartDisks (config w))
                  (disks (tree w)))
  ∧ (clearPartDisks (config w) = [] →
     getAvailableDiskSpace w = total (disks (tree w)))
  ∧ (clearPartDisks (config w) ≠ [] →
     (∀ d, d ∈ disks (tree w) → dev_name d ∉ clearPartDisks (config w)) →
     getAvailableDiskSpace w = 0%Z)
  ∧ ((∀ d, d ∈ disks (tree w) → (0 ≤ dev_size d)%Z) →
     (0 ≤ getAvailableDiskSpace w ≤ total (disks (tree w)))%Z).
Proof.
  intros total.
  assert (getAvailableDiskSpace w
          = total (filter (λ d, clearPartDisks (config w) = []
                                ∨ dev_name d ∈ clearPartDisks (config w))
                          (disks (tree w)))) as Hsum.
  { unfold getAvailableDiskSpace.
    rewrite (foldl_add_if
               (λ disk, negb (bool_decide (clearPartDisks (config w) ≠ []))
                        || bool_decide (dev_name disk ∈ clearPartDisks (config w)))).
    rewrite Z.add_0_l. unfold total. do 2 f_equal.
    apply list_filter_iff. intros d.
    rewrite orb_true_iff, negb_true_iff, bool_decide_eq_false, bool_decide_eq_true.
    split; (intros [Hnil|Hin]; [left|by right]).
    - by apply dec_stable.
    - by intros ?. }
  split; [exact Hsum|]. rewrite Hsum. split; [|split].
  - intros Hnil. f_equal. apply filter_all. intros d _. by left.
  - intros Hne Hnone.
    assert (filter (λ d, clearPartDisks (config w) = []
                         ∨ dev_name d ∈ clearPartDisks (config w))
                   (disks (tree w)) = []) as ->; [|done].
    apply filter_empty_iff. intros d Hd [Hnil|Hin]; [done|by apply (Hnone d)].
  - intros Hpos. by apply sum_filter_le.
Qed.

(** ** The firewall *)

Lemma elem_of_map_prefix (p x : string) (l : list string) :
  p +:+ x ∈ map (λ y, p +:+ y) l ↔ x ∈ l.
Proof.
  rewrite list_elem_of_fmap. split.
  - intros (y & Heq & Hy).
    assert (x = y) as ->; [|done].
    induction p as [|c p IH]; simpl in Heq; [done|]. injection Heq as Heq. auto.
  - intros Hx. eauto.
Qed.

(** [Firewall.execute] raises a [KickstartError], and runs nothing, when
    the firewall tool is missing on the target; otherwise it runs the
    tool once, in the target, and raises what that run raises.  The
    arguments start with [--disabled] when the firewall was disabled and
    with [--enabled] otherwise, also when neither was asked for, and hold
    no other of the two.  The ssh service is opened exactly when it is
    listed as a service or when neither its removal nor the port
    [22:tcp] is; and every listed device, port and service is passed
    on. *)
Theorem firewall_execute_opens_ssh {H : Host} (self : Firewall.t) (s : Installer) :
  let cmd := "/usr/bin/firewall-offline-cmd" in
  let args := Firewall.args self in
  Firewall.execute self s
  = (if path_exists (syscalls s) (ROOT_PATH +:+ cmd)
     then (log_call (Exec cmd args ROOT_PATH) s,
           match exec_result (syscalls s) cmd args ROOT_PATH with
           | inl e => inl e
           | inr _ => inr tt
           end)
     else (s, inl (KickstartError (cmd +:+ " is missing. Cannot setup firewall."))))
  ∧ head args = Some (if bool_decide (Firewall.enabled self = Some false)
                      then "--disabled" else "--enabled")
  ∧ ("--disabled" ∈ args ↔ Firewall.enabled self = Some false)
  ∧ ("--enabled" ∈ args ↔ Firewall.enabled self ≠ Some false)
  ∧ ("--service=ssh" ∈ args ↔
     "ssh" ∈ Firewall.services self
     ∨ (("ssh" ∉ Firewall.remove_services self)
        ∧ ("22:tcp" ∉ Firewall.ports self)))
  ∧ (∀ dev, ("--trust=" +:+ dev) ∈ args ↔ dev ∈ Firewall.trusts self)
  ∧ (∀ port, ("--port=" +:+ port) ∈ args ↔ port ∈ Firewall.ports self)
  ∧ (∀ service, ("--remove-service=" +:+ service) ∈ args
                ↔ service ∈ Firewall.remove_services self).
Proof.
  intros cmd args.
  assert (Hother : ∀ (x p : string) (l : list string),
             (∀ y, p +:+ y ≠ x) → x ∈ map (λ y, p +:+ y) l ↔ False).
  { intros x p l Hne. split; [|done].
    intros (y & Heq & _)%list_elem_of_fmap. by apply (Hne y). }
  split; [|split; [|split; [|split; [|split; [|split; [|split]]]]]].
  - unfold Firewall.execute. cbv zeta. rewrite bind_run. cbn [gets].
    destruct (path_exists _ _); cbn [negb]; [|done].
    rewrite bind_run. unfold execWithRedirect.
    by destruct (exec_result _ _ _ _).
  - subst args. unfold Firewall.args. by case_bool_decide.
  - subst args. unfold Firewall.args.
    rewrite !elem_of_app.
    rewrite (Hother "--disabled" "--trust=") by (intros y; discriminate).
    rewrite (Hother "--disabled" "--port=") by (intros y; discriminate).
    rewrite (Hother "--disabled" "--remove-service=") by (intros y; discriminate).
    rewrite (Hother "--disabled" "--service=") by (intros y; discriminate).
    case_bool_decide as He;
      destruct (negb _ && negb _ && negb _);
      rewrite ?elem_of_cons, ?elem_of_nil; intuition (discriminate || congruence).
  - subst args. unfold Firewall.args.
    rewrite !elem_of_app.
    rewrite (Hother "--enabled" "--trust=") by (intros y; discriminate).
    rewrite (Hother "--enabled" "--port=") by (intros y; discriminate).
    rewrite (Hother "--enabled" "--remove-service=") by (intros y; discriminate).
    rewrite (Hother "--enabled" "--service=") by (intros y; discriminate).
    case_bool_decide as He;
      destruct (negb _ && negb _ && negb _);
      rewrite ?elem_of_cons, ?elem_of_nil; intuition (discriminate || congruence).
  - subst args. unfold Firewall.args.
    rewrite !elem_of_app.
    rewrite (Hother "--service=ssh" "--trust=") by (intros y; discriminate).
    rewrite (Hother "--service=ssh" "--port=") by (intros y; discriminate).
    rewrite (Hother "--service=ssh" "--remove-service=") by (intros y; discriminate).
    change "--service=ssh" with ("--service=" +:+ "ssh") at 4.
    rewrite (elem_of_map_prefix "--service=" "ssh").
    destruct (bool_decide (Firewall.enabled self = Some false));
      repeat case_bool_decide; cbn [negb andb];
      rewrite ?elem_of_cons, ?elem_of_nil; intuition (discriminate || congruence).
  - intros dev. subst args. unfold Firewall.args.
    rewrite !elem_of_app, (elem_of_map_prefix "--trust=").
    rewrite (Hother _ "--port=") by (intros y; discriminate).
    rewrite (Hother _ "--remove-service=") by (intros y; discriminate).
    rewrite (Hother _ "--service=") by (intros y; discriminate).
    destruct (bool_decide (Firewall.enabled self = Some false));
      destruct (negb _ && negb _ && negb _);
      rewrite ?elem_of_cons, ?elem_of_nil; intuition (discriminate || congruence).
  - intros port. subst args. unfold Firewall.args.
    rewrite !elem_of_app, (elem_of_map_prefix "--port=").
    rewrite (Hother _ "--trust=") by (intros y; discriminate).
    rewrite (Hother _ "--remove-service=") by (intros y; discriminate).
    rewrite (Hother _ "--service=") by (intros y; discriminate).
    destruct (bool_decide (Firewall.enabled self = Some false));
      destruct (negb _ && negb _ && negb _);
      rewrite ?elem_of_cons, ?elem_of_nil; intuition (discriminate || congruence).
  - intros service. subst args. unfold Firewall.args.
    rewrite !elem_of_app, (elem_of_map_prefix "--remove-service=").
    rewrite (Hother _ "--trust=") by (intros y; discriminate).
    rewrite (Hother _ "--port=") by (intros y; discriminate).
    rewrite (Hother _ "--service=") by (intros y; discriminate).
    destruct (bool_decide (Firewall.enabled self = Some false));
      destruct (negb _ && negb _ && negb _);
      rewrite ?elem_of_cons, ?elem_of_nil; intuition (discriminate || congruence).
Qed.

(** ** The time service *)

Lemma list_remove_last x l : x ∉ l → list_remove x (l ++ [x]) = l.
Proof.
  intros Hx. rewrite (list_remove_first l x []) by done. apply app_nil_r.
Qed.

Lemma filter_list_remove (x : string) l :
  filter (λ y, y ≠ x) (list_remove x l) = filter (λ y, y ≠ x) l.
Proof.
  induction l as [|y l IH]; simpl; [done|].
  destruct (String.eqb_spec y x) as [->|Hne].
  - by rewrite filter_cons_False by (by intros ?).
  - by rewrite !filter_cons_True, IH by done.
Qed.

Lemma filter_snoc_self (x : string) l :
  filter (λ y, y ≠ x) (l ++ [x]) = filter (λ y, y ≠ x) l.
Proof.
  rewrite filter_app, filter_cons_False by (by intros ?).
  by rewrite filter_nil, app_nil_r.
Qed.

Ltac installer_simpl :=
  cbn [syscalls packageList services_enabled services_disabled log_call
       set_packageList set_services_enabled Timezone.nontp
       Timezone._added_chrony Timezone._enabled_chrony andb negb fst snd].

Ltac installer_step := run; installer_simpl.

(** [Timezone.setup] never raises, starts or stops the time service at
    most once and makes no other call, and leaves the list of disabled
    services and the [--nontp] option as they are.  Of the package list
    it touches only the time package and of the enabled services only
    the time service: every other entry stays, in its place.  With NTP
    in use the time package is in the package list afterwards; and with
    [--nontp] a time package the command did not add itself is not
    removed. *)
Theorem timezone_setup_touches_only_ntp {H : Host} (self : Timezone.t) (s : Installer) :
  ∃ self',
    (Timezone.setup self s).2 = inr self'
    ∧ Timezone.nontp self' = Timezone.nontp self
    ∧ (syscalls (Timezone.setup self s).1 = syscalls s
       ∨ syscalls (Timezone.setup self s).1
         = syscalls s ++ [if Timezone.nontp self then StopService NTP_SERVICE
                          else StartService NTP_SERVICE])
    ∧ services_disabled (Timezone.setup self s).1 = services_disabled s
    ∧ filter (λ p, p ≠ NTP_PACKAGE) (packageList (Timezone.setup self s).1)
      = filter (λ p, p ≠ NTP_PACKAGE) (packageList s)
    ∧ filter (λ p, p ≠ NTP_SERVICE) (services_enabled (Timezone.setup self s).1)
      = filter (λ p, p ≠ NTP_SERVICE) (services_enabled s)
    ∧ (Timezone.nontp self = false →
       NTP_PACKAGE ∈ packageList (Timezone.setup self s).1)
    ∧ (Timezone._added_chrony self = false →
       packageList (Timezone.setup self s).1 = packageList s
       ∨ Timezone.nontp self = false).
Proof.
  destruct s as [calls pkgs enabled disabled].
  destruct self as [nontp added en].
  unfold Timezone.setup.
  cbn [Timezone.nontp Timezone._added_chrony Timezone._enabled_chrony].
  destruct nontp; installer_step.
  - destruct (service_running calls NTP_SERVICE
              && can_touch_runtime_system "stop NTP service"); installer_step;
      (destruct added; installer_step;
       [destruct (bool_decide (NTP_PACKAGE ∈ pkgs)); installer_step|]);
      (destruct en; installer_step;
       [destruct (bool_decide (NTP_SERVICE ∈ enabled)); installer_step|]);
      eexists; (split; [reflexivity|]); installer_simpl;
      rewrite ?filter_list_remove;
      repeat split; auto; try discriminate.
  - destruct (negb (service_running calls NTP_SERVICE)
              && can_touch_runtime_system "start NTP service"); installer_step;
      (destruct (bool_decide (NTP_PACKAGE ∈ pkgs)) eqn:Hp; installer_step);
      (destruct (bool_decide (NTP_SERVICE ∈ enabled)); installer_step;
       [|destruct (bool_decide (NTP_SERVICE ∈ disabled)); installer_step]);
      eexists; (split; [reflexivity|]); installer_simpl;
      rewrite ?filter_snoc_self;
      repeat split; auto;
      intros _; try (by apply bool_decide_eq_true in Hp);
      apply elem_of_app; right; left.
Qed.

(** Setting up with NTP in use and then again with [--nontp] undoes
    what the first run did to the kickstart data: a command that had
    added nothing yet leaves, after the two runs, the package list and
    the lists of enabled and disabled services as they were at the
    start, and is again marked as having added nothing. *)
Theorem timezone_setup_round_trip {H : Host} (self : Timezone.t) (s : Installer) :
  Timezone.nontp self = false →
  Timezone._added_chrony self = false →
  Timezone._enabled_chrony self = false →
  ∃ self1 self2,
    (Timezone.setup self s).2 = inr self1
    ∧ let r2 := Timezone.setup
                  (Timezone.mk true (Timezone._added_chrony self1)
                     (Timezone._enabled_chrony self1))
                  (Timezone.setup self s).1 in
      r2.2 = inr self2
      ∧ packageList r2.1 = packageList s
      ∧ services_enabled r2.1 = services_enabled s
      ∧ services_disabled r2.1 = services_disabled s
      ∧ Timezone._added_chrony self2 = false
      ∧ Timezone._enabled_chrony self2 = false.
Proof.
  destruct s as [calls pkgs enabled disabled].
  destruct self as [nontp added en]. cbn. intros -> -> ->.
  unfold Timezone.setup.
  cbn [Timezone.nontp Timezone._added_chrony Timezone._enabled_chrony].
  installer_step.
  destruct (negb (service_running calls NTP_SERVICE)
            && can_touch_runtime_system "start NTP service"); installer_step;
    (destruct (bool_decide (NTP_PACKAGE ∈ pkgs)) eqn:Hp; installer_step);
    (destruct (bool_decide (NTP_SERVICE ∈ enabled)) eqn:He; installer_step;
     [|destruct (bool_decide (NTP_SERVICE ∈ disabled)); installer_step]);
    eexists; eexists; (split; [reflexivity|]); installer_step;
    (destruct (service_running _ NTP_SERVICE
               && can_touch_runtime_system "stop NTP service"));
    installer_step;
    rewrite ?bool_decide_true by (apply elem_of_app; right; left);
    installer_step;
    try apply bool_decide_eq_false in Hp; try apply bool_decide_eq_false in He;
    rewrite ?list_remove_last by assumption;
    repeat split; reflexivity.
Qed.

Lemma timezone_setup_round_trip_witness :
  packageList
    (Timezone.setup (H:=sample_host) (Timezone.mk true true true)
       (Timezone.setup (H:=sample_host) (Timezone.mk false false false)
          (installer_of ["vim"])).1).1
  = ["vim"].
Proof.
  destruct (timezone_setup_round_trip (H:=sample_host)
              (Timezone.mk false false false) (installer_of ["vim"])
              eq_refl eq_refl eq_refl)
    as (self1 & self2 & H1 & _ & Hpkgs & _).
  injection H1 as <-. exact Hpkgs.
Defined.

(** ** Joining a realm *)

Lemma split_on_cons sep s : ∃ first rest, split_on sep s = first :: rest.
Proof.
  induction s as [|c s (first & rest & IH)]; simpl; [by eauto|].
  destruct (Ascii.eqb c sep); [by eauto|]. rewrite IH. eauto.
Qed.

Lemma add_required_omap packages lines :
  Realm.add_required packages lines = packages ++ omap required_package lines.
Proof.
  unfold Realm.add_required. revert packages.
  induction lines as [|line lines IH]; intros packages; simpl.
  - by rewrite app_nil_r.
  - rewrite IH. unfold required_package.
    destruct (split_once ":" line) as [key [value|]]; [|done].
    destruct (String.eqb (strip key) "required-package"); [|done].
    by rewrite <- app_assoc.
Qed.

Lemma log_call_neq c s : log_call c s ≠ s.
Proof.
  intros Heq. apply (f_equal (λ s, length (syscalls s))) in Heq.
  cbn in Heq. rewrite length_app in Heq. cbn in Heq. lia.
Qed.

(** [Realm.setup] does nothing without a realm to join.  With one it
    runs [realm discover] once, on the options and the realm given, and
    never raises.  When the command cannot be started the object stays as
    it is.  Otherwise the stripped first line of the output becomes the
    discovered realm, and the packages are [realmd] followed, in the
    order of the output, by the stripped value of every later line whose
    part before the first colon is, once stripped, [required-package];
    what the object held as packages before is dropped. *)
Theorem realm_setup_outcome {H : Host} (self : Realm.t) (s : Installer) :
  let argv := ["realm"; "discover"; "--verbose"] ++ Realm.discover_options self
              ++ [Realm.join_realm self] in
  (Realm.join_realm self = "" → Realm.setup self s = (s, inr self))
  ∧ (Realm.join_realm self ≠ "" →
     (Realm.setup self s).1 = log_call (Popen argv) s
     ∧ match popen_result (syscalls s) argv with
       | None => (Realm.setup self s).2 = inr self
       | Some (output, _, _) =>
         ∃ first rest,
           split_on (ascii_of_nat 10) output = first :: rest
           ∧ (Realm.setup self s).2
             = inr (Realm.mk (Realm.join_realm self) (Realm.discover_options self)
                      (Realm.join_args self)
                      ("realmd" :: omap required_package rest) (strip first))
       end).
Proof.
  intros argv. unfold Realm.setup. split.
  - by intros ->.
  - intros Hne. apply truthy_true in Hne. rewrite Hne. cbn [negb].
    fold argv. rewrite bind_run. unfold popen.
    destruct (popen_result (syscalls s) argv) as [[[output err] rc]|]; [|done].
    split; [by destruct (split_on _ output)|].
    destruct (split_on_cons (ascii_of_nat 10) output) as (first & rest & ->).
    exists first, rest. split; [done|]. cbn.
    by rewrite add_required_omap.
Qed.

Lemma pw_args_existsb join_args :
  Realm.pw_args join_args
  = if existsb (λ arg, startswith arg "--no-password"
                       || startswith arg "--one-time-password") join_args
    then [] else ["--no-password"].
Proof.
  induction join_args as [|arg join_args IH]; simpl; [done|].
  by destruct (startswith arg "--no-password"
               || startswith arg "--one-time-password").
Qed.

Lemma realm_execute_run {H : Host} (self : Realm.t) (s : Installer) :
  Realm.execute self s
  = if truthy (Realm.discovered self)
    then (log_call
            (Popen (["realm"; "join"; "--install"; ROOT_PATH; "--verbose"]
                    ++ Realm.pw_args (Realm.join_args self)
                    ++ Realm.join_args self)) s, inr tt)
    else (s, inr tt).
Proof. unfold Realm.execute. by destruct (truthy _). Qed.

(** [Realm.execute] never raises, whatever becomes of the command it
    runs.  Without a discovered realm it runs nothing.  With one it runs
    [realm join] once, for installation into the target, on the join
    arguments of the command, in front of which it puts [--no-password]
    exactly when none of them starts with [--no-password] or with
    [--one-time-password]. *)
Theorem realm_execute_join {H : Host} (self : Realm.t) (s : Installer) :
  (Realm.execute self s).2 = inr tt
  ∧ (Realm.discovered self = "" → (Realm.execute self s).1 = s)
  ∧ (Realm.discovered self ≠ "" →
     (Realm.execute self s).1
     = log_call
         (Popen (["realm"; "join"; "--install"; ROOT_PATH; "--verbose"]
                 ++ (if existsb (λ arg, startswith arg "--no-password"
                                        || startswith arg "--one-time-password")
                                (Realm.join_args self)
                     then [] else ["--no-password"])
                 ++ Realm.join_args self)) s).
Proof.
  rewrite realm_execute_run. split; [by destruct (truthy _)|]. split.
  - by intros ->.
  - intros Hne. apply truthy_true in Hne. by rewrite Hne, pw_args_existsb.
Qed.

(** A realm is joined only after it was discovered: for a command that
    has discovered nothing yet, [Realm.execute] after [Realm.setup] runs
    nothing exactly when there is no realm to join, or [realm discover]
    could not be started, or the first line of its output is empty or
    blank. *)
Theorem realm_join_only_after_discovery {H : Host} (self : Realm.t) (s : Installer) :
  Realm.discovered self = "" →
  ∃ self1,
    (Realm.setup self s).2 = inr self1
    ∧ ((Realm.execute self1 (Realm.setup self s).1).1 = (Realm.setup self s).1
       ↔ Realm.join_realm self = ""
         ∨ match popen_result (syscalls s)
                   (["realm"; "discover"; "--verbose"]
                    ++ Realm.discover_options self ++ [Realm.join_realm self]) with
           | None => True
           | Some (output, _, _) =>
             strip (hd "" (split_on (ascii_of_nat 10) output)) = ""
           end).
Proof.
  intros Hnone. unfold Realm.setup.
  destruct (truthy (Realm.join_realm self)) eqn:Hjoin; cbn [negb].
  - apply truthy_true in Hjoin. rewrite bind_run. unfold popen.
    destruct (popen_result _ _) as [[[output err] rc]|].
    + destruct (split_on_cons (ascii_of_nat 10) output) as (first & rest & ->).
      eexists. split; [reflexivity|]. rewrite realm_execute_run.
      cbn [Realm.discovered hd fst snd mret ST_ret].
      destruct (truthy (strip first)) eqn:Hfirst.
      * apply truthy_true in Hfirst. split.
        -- intros Heq. by apply log_call_neq in Heq.
        -- by intros [|].
      * split; [|done]. intros _. right.
        destruct (String.eqb_spec (strip first) ""); [done|].
        apply truthy_true in n. congruence.
    + eexists. split; [reflexivity|]. rewrite realm_execute_run.
      cbn [fst snd mret ST_ret].
      rewrite Hnone. cbn. split; [by right|done].
  - eexists. split; [reflexivity|]. rewrite realm_execute_run.
    cbn [fst snd mret ST_ret].
    rewrite Hnone. cbn. split; [|done]. intros _. left.
    destruct (String.eqb_spec (Realm.join_realm self) ""); [done|].
    apply truthy_true in n. congruence.
Qed.

Lemma realm_join_only_after_discovery_witness :
  ∃ self1,
    (Realm.setup (H:=sample_host) (Realm.mk "example.com" [] [] [] "")
       (installer_of [])).2 = inr self1
    ∧ Realm.packages self1 = ["realmd"; "sssd"].
Proof.
  destruct (realm_join_only_after_discovery (H:=sample_host)
              (Realm.mk "example.com" [] [] [] "") (installer_of []) eq_refl)
    as (self1 & Hsetup & _).
  exists self1. split; [exact Hsetup|].
  vm_compute in Hsetup. by injection Hsetup as <-.
Defined.
